(** * Isometric city: the AI pedestrian shopping system and the grid finders

    A shallow embedding of [src/components/game/aiPedestrianSystem.ts],
    [aiPedestrianConfig.ts] and [gridFinders.ts].

    Modelling conventions.
    - A JavaScript [number] that holds money, time, a probability or a
      satisfaction level is an exact rational ([Q]); the rounding of IEEE
      doubles is not modelled, and neither are [NaN] and the infinities.
      Tile coordinates and counters are integers ([Z]).
    - An optional field ([field?: T]) is an [option]; [x || d] on such a field
      is [orElse x d], which also replaces the falsy number [0] by [d].
    - Every call of [Math.random()] is an explicit argument of the function
      that makes it, [Date.now() / 1000] likewise.
    - Reading a property of [undefined] raises a [TypeError] in JavaScript;
      functions that index the grid return an [Outcome]. *)

From Stdlib Require Import ZArith QArith Qround Qminmax Lqa Lia String List.
From stdpp Require Import base gmap list strings.

Local Open Scope Z_scope.

(** ** JavaScript primitives *)

Module Math.
Definition min (a b : Q) : Q := Qmin a b.
Definition max (a b : Q) : Q := Qmax a b.
Definition floor (a : Q) : Z := Qfloor a.
End Math.
Arguments Math.min : simpl never.
Arguments Math.max : simpl never.
Arguments Math.floor : simpl never.

(** [a < b] on numbers, as a boolean. *)
Definition ltQ (a b : Q) : bool := negb (Qle_bool b a).

(** [a >= b] on numbers, as a boolean. *)
Definition geQ (a b : Q) : bool := Qle_bool b a.

(** Truthiness of an optional number: [undefined] and [0] are falsy. *)
Definition truthy (o : option Q) : bool :=
  match o with
  | Some v => negb (Qeq_bool v 0)
  | None => false
  end.

(** [o || d] on an optional number. *)
Definition orElse (o : option Q) (d : Q) : Q :=
  match o with
  | Some v => if Qeq_bool v 0 then d else v
  | None => d
  end.

(** [o || d] on an optional integer counter. *)
Definition orElseZ (o : option Z) (d : Z) : Z :=
  match o with
  | Some v => if v =? 0 then d else v
  | None => d
  end.

(** Truthiness of an optional string: [undefined] and the empty string are
    falsy. *)
Definition truthyS (o : option string) : bool :=
  match o with
  | Some s => negb (String.eqb s EmptyString)
  | None => false
  end.

(** What a call can do: return a value, raise a [TypeError] (a property read
    on [undefined]), or still be running when the supplied iterations or
    random draws are used up. *)
Inductive Outcome (A : Type) : Type :=
| Returned (a : A)
| TypeError
| Unfinished.
Arguments Returned {A} a.
Arguments TypeError {A}.
Arguments Unfinished {A}.

Definition bindO {A B : Type} (m : Outcome A) (k : A -> Outcome B) : Outcome B :=
  match m with
  | Returned a => k a
  | TypeError => TypeError
  | Unfinished => Unfinished
  end.

#[global] Instance Outcome_bind : MBind Outcome := fun A B k m => bindO m k.
#[global] Instance Outcome_ret : MRet Outcome := fun A a => Returned a.

(** [arr[i]] read for a property: a [TypeError] when the slot is missing. *)
Definition readOr {A : Type} (o : option A) : Outcome A :=
  match o with
  | Some a => Returned a
  | None => TypeError
  end.

(** [for (let i = lo; i < hi; i++) body], over an accumulated state. *)
Fixpoint forList {S : Type} (body : Z -> S -> Outcome S) (idxs : list Z) (s : S)
  : Outcome S :=
  match idxs with
  | [] => Returned s
  | i :: rest => s' ← body i s; forList body rest s'
  end.

Definition forZ {S : Type} (lo hi : Z) (body : Z -> S -> Outcome S) (s : S)
  : Outcome S :=
  forList body (seqZ lo (hi - lo)) s.

(** ** The grid *)

Definition BuildingType := string.

(** [btype] is the field [type] of the source. *)
Record Building := mkBuilding {
  btype : BuildingType;
  onFire : bool;
  powered : bool;
  abandoned : bool;
  constructionProgress : Z
}.

(** [Tile.building] is always present: [gridFinders.ts] reads
    [grid[y][x].building.type] without a check. *)
Record Tile := mkTile {
  building : Building;
  zone : string;
  hasSubway : bool
}.

Abbreviation Grid := (list (list Tile)).

Abbreviation Coord := (Z * Z)%type.

(** [grid[i][j]], [None] when either index misses the array. *)
Definition tileAt (grid : Grid) (i j : Z) : option Tile :=
  if (i <? 0) || (j <? 0) then None
  else match grid !! Z.to_nat i with
       | Some row => row !! Z.to_nat j
       | None => None
       end.

(** [set.has(t)] / [array.includes(t)] on building types. *)
Definition includes (types : list BuildingType) (t : BuildingType) : bool :=
  existsb (String.eqb t) types.
Arguments includes : simpl never.

(** ** aiPedestrianConfig.ts *)

Record ShoppingConfig := mkShoppingConfig {
  baseProbability : Q;
  satisfactionMultiplier : Q;
  budgetMultiplier : Q;
  timeMultiplier : Q;
  minDuration : Q;
  maxDuration : Q;
  minBudget : Q;
  maxBudget : Q;
  maxVisitsPerDay : Z;
  timeBetweenShops : Q;
  satisfactionGainPerPurchase : Q;
  satisfactionDecayRate : Q
}.

Record NavigationConfig := mkNavigationConfig {
  searchRange : Z;
  pathUpdateInterval : Q
}.

Record AnimationConfig := mkAnimationConfig {
  browsingSwayAmount : Q;
  payingShakeAmount : Q;
  carryingBagsWaveAmount : Q
}.

Record EconomyConfig := mkEconomyConfig {
  averageItemPrice : Q;
  shopsRequiredForFullSatisfaction : Z;
  maxMoneyPerTrip : Q
}.

Record Config := mkConfig {
  spawnRate : Q;
  maxAIPedestrians : Z;
  initialAIPedestrians : Z;
  shopping : ShoppingConfig;
  navigation : NavigationConfig;
  animation : AnimationConfig;
  economy : EconomyConfig
}.

Definition AI_PEDESTRIAN_CONFIG : Config :=
  {| spawnRate := 2 # 100;
     maxAIPedestrians := 100;
     initialAIPedestrians := 20;
     shopping :=
       {| baseProbability := 1 # 10;
          satisfactionMultiplier := 3 # 10;
          budgetMultiplier := 2 # 10;
          timeMultiplier := 1 # 10;
          minDuration := 10 # 1;
          maxDuration := 30 # 1;
          minBudget := 500 # 1;
          maxBudget := 2000 # 1;
          maxVisitsPerDay := 3;
          timeBetweenShops := 100 # 1;
          satisfactionGainPerPurchase := 3 # 10;
          satisfactionDecayRate := 1 # 100 |};
     navigation := {| searchRange := 10; pathUpdateInterval := 5 # 1 |};
     animation :=
       {| browsingSwayAmount := 5 # 1;
          payingShakeAmount := 2 # 1;
          carryingBagsWaveAmount := 3 # 1 |};
     economy :=
       {| averageItemPrice := 50 # 1;
          shopsRequiredForFullSatisfaction := 3;
          maxMoneyPerTrip := 1000 # 1 |} |}.

(** The string values of the [AIPedestrianType] enum. *)
Module AIPedestrianType.
Definition WORKER : string := "worker".
Definition SHOPPER : string := "shopper".
Definition TOURIST : string := "tourist".
Definition COMMUTER : string := "commuter".
Definition LEISURER : string := "leisurer".
End AIPedestrianType.

Definition getShoppingProbabilityByType (type : string) : Q :=
  if String.eqb type AIPedestrianType.SHOPPER then 5 # 10
  else if String.eqb type AIPedestrianType.WORKER then 15 # 100
  else if String.eqb type AIPedestrianType.COMMUTER then 2 # 10
  else if String.eqb type AIPedestrianType.TOURIST then 3 # 10
  else if String.eqb type AIPedestrianType.LEISURER then 1 # 10
  else 15 # 100.

(** ** The agent record *)

Inductive ShoppingActivity : Type :=
| browsing
| paying
| carrying_bags.

(** The fields of [Pedestrian] that the shopping system reads or writes; the
    appearance and movement fields are not touched by it. *)
Record Pedestrian := mkPedestrian {
  tileX : Z;
  tileY : Z;
  hasBag : bool;
  activityOffsetX : Q;
  activityOffsetY : Q;
  isAI : bool;
  aiType : option string;
  isShopping : bool;
  shoppingProgress : option Q;
  shoppingDuration : option Q;
  currentShopX : option Z;
  currentShopY : option Z;
  shoppingActivity : option ShoppingActivity;
  shoppingBudget : option Q;
  itemsBought : option Z;
  shopVisitsToday : option Z;
  lastShoppingTime : option Q;
  satisfactionLevel : option Q;
  totalMoneySpent : option Q
}.

(** ** aiPedestrianSystem.ts *)

Section ShoppingSystem.

(** The configuration object is a mutable global of the module; the
    functions read it at each call. *)
Variable cfg : Config.

Definition commercialTypes : list BuildingType :=
  ["shop_small"; "shop_medium"; "mall"; "office_low"; "office_high"]%string.

(** [rnd] is the value of the one [Math.random()] call. *)
Definition initializeAIPedestrianShopping
    (pedestrian : Pedestrian) (type : string) (rnd : Q) : Pedestrian :=
  {| tileX := tileX pedestrian;
     tileY := tileY pedestrian;
     hasBag := hasBag pedestrian;
     activityOffsetX := activityOffsetX pedestrian;
     activityOffsetY := activityOffsetY pedestrian;
     isAI := true;
     aiType := Some type;
     isShopping := false;
     shoppingProgress := Some 0%Q;
     shoppingDuration := Some 0%Q;
     currentShopX := None;
     currentShopY := None;
     shoppingActivity := None;
     shoppingBudget :=
       Some (rnd * (maxBudget (shopping cfg) - minBudget (shopping cfg))
             + minBudget (shopping cfg))%Q;
     itemsBought := Some 0;
     shopVisitsToday := Some 0;
     lastShoppingTime := Some 0%Q;
     satisfactionLevel := Some (5 # 10);
     totalMoneySpent := Some 0%Q |}.

(** The value [Math.min(0.5, totalProbability)] that the random draw is
    compared with. *)
Definition shoppingThreshold (pedestrian : Pedestrian) (type : string) : Q :=
  let shoppingProbability := getShoppingProbabilityByType type in
  let satisfactionFactor :=
    ((1 - orElse (satisfactionLevel pedestrian) (5 # 10))
     * satisfactionMultiplier (shopping cfg))%Q in
  let budgetFactor :=
    (Math.min 1 (orElse (shoppingBudget pedestrian) 0 / maxBudget (shopping cfg))
     * budgetMultiplier (shopping cfg))%Q in
  let totalProbability :=
    (shoppingProbability + satisfactionFactor + budgetFactor)%Q in
  Math.min (5 # 10) totalProbability.

(** [rnd] is the value of the [Math.random()] call of the last line. *)
Definition shouldGoShopping (pedestrian : Pedestrian) (rnd : Q) : bool :=
  if negb (truthyS (aiType pedestrian)) || negb (truthy (shoppingBudget pedestrian))
  then false
  else
    match aiType pedestrian with
    | Some type => ltQ rnd (shoppingThreshold pedestrian type)
    | None => false
    end.

(** One cell of the inner loop of [findNearestShop]: the state is
    [(nearestShop, minDistance)]. *)
Definition nearestShopCell (pedestrian : Pedestrian) (grid : Grid) (x y : Z)
    (st : option Coord * Z) : Outcome (option Coord * Z) :=
  tile ← readOr (tileAt grid x y);
  if includes commercialTypes (btype (building tile)) then
    let distance := (x - tileX pedestrian) ^ 2 + (y - tileY pedestrian) ^ 2 in
    if distance <? snd st then Returned (Some (x, y), distance)
    else Returned st
  else Returned st.

(** The inner loop of [findNearestShop], for the row [x]. *)
Definition nearestShopRow (pedestrian : Pedestrian) (grid : Grid) (x : Z)
    (st : option Coord * Z) : Outcome (option Coord * Z) :=
  let searchRange := searchRange (navigation cfg) in
  row0 ← readOr (grid !! 0%nat);
  forZ (Z.max 0 (tileY pedestrian - searchRange))
       (Z.min (Z.of_nat (length row0)) (tileY pedestrian + searchRange))
       (nearestShopCell pedestrian grid x)
       st.

Definition findNearestShop (pedestrian : Pedestrian) (grid : Grid)
  : Outcome (option Coord) :=
  let searchRange := searchRange (navigation cfg) in
  let nearestShop : option Coord := None in
  let minDistance := searchRange * searchRange in
  st ← forZ (Z.max 0 (tileX pedestrian - searchRange))
            (Z.min (Z.of_nat (length grid)) (tileX pedestrian + searchRange))
            (nearestShopRow pedestrian grid)
            (nearestShop, minDistance);
  Returned (fst st).

(** [rnd] is the value of the [Math.random()] call that draws the duration. *)
Definition startShoppingActivity (pedestrian : Pedestrian) (grid : Grid) (rnd : Q)
  : Outcome Pedestrian :=
  shopCoords ← findNearestShop pedestrian grid;
  Returned
    {| tileX := tileX pedestrian;
       tileY := tileY pedestrian;
       hasBag := hasBag pedestrian;
       activityOffsetX := activityOffsetX pedestrian;
       activityOffsetY := activityOffsetY pedestrian;
       isAI := isAI pedestrian;
       aiType := aiType pedestrian;
       isShopping := true;
       shoppingProgress := Some 0%Q;
       shoppingDuration :=
         Some (rnd * (maxDuration (shopping cfg) - minDuration (shopping cfg))
               + minDuration (shopping cfg))%Q;
       currentShopX :=
         match shopCoords with
         | Some c => Some (fst c)
         | None => currentShopX pedestrian
         end;
       currentShopY :=
         match shopCoords with
         | Some c => Some (snd c)
         | None => currentShopY pedestrian
         end;
       shoppingActivity := Some browsing;
       shoppingBudget := shoppingBudget pedestrian;
       itemsBought := Some 0;
       shopVisitsToday := shopVisitsToday pedestrian;
       lastShoppingTime := lastShoppingTime pedestrian;
       satisfactionLevel := satisfactionLevel pedestrian;
       totalMoneySpent := totalMoneySpent pedestrian |}.

(** The number of items drawn by [Math.floor(Math.random() * 5) + 1]. *)
Definition drawItems (rnd : Q) : Z := Math.floor (rnd * 5) + 1.

(** The amount debited by [completeShoppingActivity]. *)
Definition actualSpending (pedestrian : Pedestrian) (rnd : Q) : Q :=
  let items := drawItems rnd in
  let spending := (inject_Z items * averageItemPrice (economy cfg))%Q in
  Math.min spending (orElse (shoppingBudget pedestrian) 0).

(** [rnd] is the value of the [Math.random()] call, [now] the value of
    [Date.now() / 1000]. *)
Definition completeShoppingActivity (pedestrian : Pedestrian) (rnd now : Q)
  : Pedestrian :=
  if negb (isShopping pedestrian) then pedestrian
  else
    let items := drawItems rnd in
    let actualSpending := actualSpending pedestrian rnd in
    {| tileX := tileX pedestrian;
       tileY := tileY pedestrian;
       hasBag := true;
       activityOffsetX := activityOffsetX pedestrian;
       activityOffsetY := activityOffsetY pedestrian;
       isAI := isAI pedestrian;
       aiType := aiType pedestrian;
       isShopping := false;
       shoppingProgress := Some 0%Q;
       shoppingDuration := shoppingDuration pedestrian;
       currentShopX := currentShopX pedestrian;
       currentShopY := currentShopY pedestrian;
       shoppingActivity := None;
       shoppingBudget :=
         Some (orElse (shoppingBudget pedestrian) 0 - actualSpending)%Q;
       itemsBought := Some items;
       shopVisitsToday := Some (orElseZ (shopVisitsToday pedestrian) 0 + 1);
       lastShoppingTime := Some now;
       satisfactionLevel :=
         Some (Math.min 1
                 (orElse (satisfactionLevel pedestrian) 0
                  + satisfactionGainPerPurchase (shopping cfg)))%Q;
       totalMoneySpent :=
         Some (orElse (totalMoneySpent pedestrian) 0 + actualSpending)%Q |}.

(** The first statement of [updateAIPedestrianShopping]: the decay. *)
Definition decaySatisfaction (pedestrian : Pedestrian) (deltaTime : Q)
  : option Q :=
  match satisfactionLevel pedestrian with
  | Some s =>
      if truthy (Some s)
      then Some (Math.max 0 (s - satisfactionDecayRate (shopping cfg) * deltaTime))%Q
      else Some s
  | None => None
  end.

Definition withSatisfaction (pedestrian : Pedestrian) (s : option Q) : Pedestrian :=
  {| tileX := tileX pedestrian;
     tileY := tileY pedestrian;
     hasBag := hasBag pedestrian;
     activityOffsetX := activityOffsetX pedestrian;
     activityOffsetY := activityOffsetY pedestrian;
     isAI := isAI pedestrian;
     aiType := aiType pedestrian;
     isShopping := isShopping pedestrian;
     shoppingProgress := shoppingProgress pedestrian;
     shoppingDuration := shoppingDuration pedestrian;
     currentShopX := currentShopX pedestrian;
     currentShopY := currentShopY pedestrian;
     shoppingActivity := shoppingActivity pedestrian;
     shoppingBudget := shoppingBudget pedestrian;
     itemsBought := itemsBought pedestrian;
     shopVisitsToday := shopVisitsToday pedestrian;
     lastShoppingTime := lastShoppingTime pedestrian;
     satisfactionLevel := s;
     totalMoneySpent := totalMoneySpent pedestrian |}.

Definition withProgress (pedestrian : Pedestrian) (pr : Q) (bag : bool) : Pedestrian :=
  {| tileX := tileX pedestrian;
     tileY := tileY pedestrian;
     hasBag := bag;
     activityOffsetX := activityOffsetX pedestrian;
     activityOffsetY := activityOffsetY pedestrian;
     isAI := isAI pedestrian;
     aiType := aiType pedestrian;
     isShopping := isShopping pedestrian;
     shoppingProgress := Some pr;
     shoppingDuration := shoppingDuration pedestrian;
     currentShopX := currentShopX pedestrian;
     currentShopY := currentShopY pedestrian;
     shoppingActivity := shoppingActivity pedestrian;
     shoppingBudget := shoppingBudget pedestrian;
     itemsBought := itemsBought pedestrian;
     shopVisitsToday := shopVisitsToday pedestrian;
     lastShoppingTime := lastShoppingTime pedestrian;
     satisfactionLevel := satisfactionLevel pedestrian;
     totalMoneySpent := totalMoneySpent pedestrian |}.

(** [rnd1] and [rnd2] are the values of the first and the second
    [Math.random()] call made during the update, [now] the value of
    [Date.now() / 1000]. *)
Definition updateAIPedestrianShopping (pedestrian : Pedestrian) (grid : Grid)
    (deltaTime gameTime now rnd1 rnd2 : Q) : Outcome Pedestrian :=
  if negb (isAI pedestrian) then Returned pedestrian
  else
    let pedestrian :=
      withSatisfaction pedestrian (decaySatisfaction pedestrian deltaTime) in
    match isShopping pedestrian, shoppingProgress pedestrian with
    | true, Some progress =>
        let progress :=
          (progress + deltaTime / orElse (shoppingDuration pedestrian) 1)%Q in
        if geQ progress 1
        then Returned (completeShoppingActivity
                         (withProgress pedestrian progress (hasBag pedestrian))
                         rnd1 now)
        else Returned (withProgress pedestrian progress true)
    | _, _ =>
        if shouldGoShopping pedestrian rnd1
        then startShoppingActivity pedestrian grid rnd2
        else Returned pedestrian
    end.

(** [Math.sin], [Math.cos] and [Math.PI] enter the offsets only as opaque
    values. *)
Variable sin cos : Q -> Q.
Variable PI : Q.

(** [rnd1] and [rnd2] are the two [Math.random()] calls of the paying case. *)
Definition getShoppingAnimationOffset (pedestrian : Pedestrian) (progress : Q)
    (rnd1 rnd2 : Q) : Q * Q :=
  if negb (isShopping pedestrian) then (0, 0)%Q
  else
    match shoppingActivity pedestrian with
    | Some browsing =>
        (sin (progress * PI * 4) * browsingSwayAmount (animation cfg),
         cos (progress * PI * 4) * (browsingSwayAmount (animation cfg) * (5 # 10)))%Q
    | Some paying =>
        ((rnd1 - (5 # 10)) * payingShakeAmount (animation cfg),
         (rnd2 - (5 # 10)) * payingShakeAmount (animation cfg))%Q
    | Some carrying_bags =>
        (sin (progress * PI * 6) * 2, cos (progress * PI * 3) * 1)%Q
    | None => (0, 0)%Q
    end.

End ShoppingSystem.

(** ** gridFinders.ts *)

Definition RESIDENTIAL_BUILDING_TYPES : list BuildingType :=
  ["house_small"; "house_medium"; "mansion"; "apartment_low"; "apartment_high"]%string.

Definition SCHOOL_TYPES : list BuildingType := ["school"; "university"]%string.

Definition COMMERCIAL_TYPES : list BuildingType :=
  ["shop_small"; "shop_medium"; "office_low"; "office_high"; "mall"]%string.

Definition INDUSTRIAL_TYPES : list BuildingType :=
  ["factory_small"; "factory_medium"; "factory_large"; "warehouse"]%string.

Definition PARK_TYPES : list BuildingType :=
  ["park"; "park_large"; "tennis"; "basketball_courts"; "playground_small";
   "playground_large"; "baseball_field_small"; "soccer_field_small";
   "football_field"; "baseball_stadium"; "community_center"; "swimming_pool";
   "skate_park"; "mini_golf_course"; "bleachers_field"; "go_kart_track";
   "amphitheater"; "greenhouse_garden"; "animal_pens_farm"; "cabin_house";
   "campground"; "marina_docks_small"; "pier_large"; "roller_coaster_small";
   "community_garden"; "pond_park"; "park_gate"; "mountain_lodge";
   "mountain_trailhead"]%string.

Inductive PedestrianDestType : Type :=
| dest_school
| dest_commercial
| dest_industrial
| dest_park.

Inductive HeliportType : Type :=
| heli_hospital
| heli_airport
| heli_police
| heli_mall.

Module HeliportInfo.
Record t := mk {
  x : Z;
  y : Z;
  type : HeliportType;
  size : Z
}.
End HeliportInfo.

(** The body of the inner loop of a finder, at column [x] of row [y]:
    read [grid[y][x]] and let [visit] extend the result. *)
Definition scanCell {A : Type} (grid : Grid) (visit : Z -> Z -> Tile -> A -> A)
    (y x : Z) (acc : A) : Outcome A :=
  tile ← readOr (tileAt grid y x);
  Returned (visit x y tile acc).

(** The two nested loops that every finder runs:
    [for (y = 0; y < gridSize; y++) for (x = 0; x < gridSize; x++)]. *)
Definition scanGrid {A : Type} (grid : Grid) (gridSize : Z)
    (visit : Z -> Z -> Tile -> A -> A) (acc : A) : Outcome A :=
  forZ 0 gridSize (fun y => forZ 0 gridSize (scanCell grid visit y)) acc.

(** The guard [if (!grid || gridSize <= 0) return empty]: an array is never
    falsy, so only the size decides. *)
Definition guarded {A : Type} (gridSize : Z) (empty : A) (run : Outcome A)
  : Outcome A :=
  if gridSize <=? 0 then Returned empty else run.

Definition findResidentialBuildings (grid : Grid) (gridSize : Z)
  : Outcome (list Coord) :=
  guarded gridSize []
    (scanGrid grid gridSize
       (fun x y tile residentials =>
          if includes RESIDENTIAL_BUILDING_TYPES (btype (building tile))
          then residentials ++ [(x, y)] else residentials)
       []).

Definition findPedestrianDestinations (grid : Grid) (gridSize : Z)
  : Outcome (list (Coord * PedestrianDestType)) :=
  guarded gridSize []
    (scanGrid grid gridSize
       (fun x y tile destinations =>
          let buildingType := btype (building tile) in
          if includes SCHOOL_TYPES buildingType
          then destinations ++ [((x, y), dest_school)]
          else if includes COMMERCIAL_TYPES buildingType
          then destinations ++ [((x, y), dest_commercial)]
          else if includes INDUSTRIAL_TYPES buildingType
          then destinations ++ [((x, y), dest_industrial)]
          else if includes PARK_TYPES buildingType
          then destinations ++ [((x, y), dest_park)]
          else destinations)
       []).

Definition findStations (grid : Grid) (gridSize : Z) (type : BuildingType)
  : Outcome (list Coord) :=
  guarded gridSize []
    (scanGrid grid gridSize
       (fun x y tile stations =>
          if String.eqb (btype (building tile)) type
          then stations ++ [(x, y)] else stations)
       []).

Definition findFires (grid : Grid) (gridSize : Z) : Outcome (list Coord) :=
  guarded gridSize []
    (scanGrid grid gridSize
       (fun x y tile fires =>
          if onFire (building tile) then fires ++ [(x, y)] else fires)
       []).

Definition findAirports (grid : Grid) (gridSize : Z) : Outcome (list Coord) :=
  guarded gridSize []
    (scanGrid grid gridSize
       (fun x y tile airports =>
          if String.eqb (btype (building tile)) "airport"
          then airports ++ [(x, y)] else airports)
       []).

Definition findHeliports (grid : Grid) (gridSize : Z)
  : Outcome (list HeliportInfo.t) :=
  guarded gridSize []
    (scanGrid grid gridSize
       (fun x y tile heliports =>
          let buildingType := btype (building tile) in
          if String.eqb buildingType "hospital"
          then heliports ++ [HeliportInfo.mk x y heli_hospital 2]
          else if String.eqb buildingType "airport"
          then heliports ++ [HeliportInfo.mk x y heli_airport 4]
          else if String.eqb buildingType "police_station"
          then heliports ++ [HeliportInfo.mk x y heli_police 1]
          else if String.eqb buildingType "mall"
          then
            let seed := (x * 31 + y * 17) mod 100 in
            if 50 <=? seed
            then heliports ++ [HeliportInfo.mk x y heli_mall 3]
            else heliports
          else heliports)
       []).

(** The eight directions of [findAdjacentWaterTile], in the order of the
    source. *)
Definition directions8 : list (Z * Z) :=
  [(-1, 0); (1, 0); (0, -1); (0, 1); (-1, -1); (-1, 1); (1, -1); (1, 1)].

Fixpoint firstWaterIn (grid : Grid) (gridSize dockX dockY : Z)
    (dirs : list (Z * Z)) : Outcome (option Coord) :=
  match dirs with
  | [] => Returned None
  | (dx, dy) :: rest =>
      let nx := dockX + dx in
      let ny := dockY + dy in
      if (0 <=? nx) && (nx <? gridSize) && (0 <=? ny) && (ny <? gridSize) then
        tile ← readOr (tileAt grid ny nx);
        if String.eqb (btype (building tile)) "water"
        then Returned (Some (nx, ny))
        else firstWaterIn grid gridSize dockX dockY rest
      else firstWaterIn grid gridSize dockX dockY rest
  end.

Definition findAdjacentWaterTile (grid : Grid) (gridSize dockX dockY : Z)
  : Outcome (option Coord) :=
  guarded gridSize None (firstWaterIn grid gridSize dockX dockY directions8).

(** *** Flood fill *)

(** The state of the loop of [findConnectedWaterTiles]. The keys of the
    [visited] set are the strings [x,y]; for integer coordinates they are in
    bijection with the pairs. *)
Record BfsState := mkBfsState {
  visited : gset Coord;
  waterTiles : list Coord;
  queue : list Coord
}.

Definition directions4 : list (Z * Z) := [(-1, 0); (1, 0); (0, -1); (0, 1)].

(** The neighbours of [(x, y)] that are pushed on the queue. *)
Definition unvisitedNeighbours (seen : gset Coord) (x y : Z) : list Coord :=
  filter (fun n => n ∉ seen) (map (fun d => (x + fst d, y + snd d)) directions4).

(** One iteration of the [while] loop, for the coordinate [(x, y)] taken from
    the front of the queue, [rest] being the remainder of the queue. *)
Definition bfsStep (grid : Grid) (gridSize : Z) (st : BfsState)
    (x y : Z) (rest : list Coord) : Outcome BfsState :=
  if bool_decide ((x, y) ∈ visited st)
  then Returned (mkBfsState (visited st) (waterTiles st) rest)
  else
    let seen := visited st ∪ {[ (x, y) ]} in
    if (x <? 0) || (gridSize <=? x) || (y <? 0) || (gridSize <=? y)
    then Returned (mkBfsState seen (waterTiles st) rest)
    else
      tile ← readOr (tileAt grid y x);
      if negb (String.eqb (btype (building tile)) "water")
      then Returned (mkBfsState seen (waterTiles st) rest)
      else Returned (mkBfsState seen (waterTiles st ++ [(x, y)])
                       (rest ++ unvisitedNeighbours seen x y)).

(** The [while (queue.length > 0 && waterTiles.length < maxTiles)] loop, run
    for at most [fuel] iterations. *)
Fixpoint bfsLoop (fuel : nat) (grid : Grid) (gridSize : Z) (maxTiles : nat)
    (st : BfsState) : Outcome (list Coord) :=
  match queue st with
  | [] => Returned (waterTiles st)
  | (x, y) :: rest =>
      if negb (length (waterTiles st) <? maxTiles)%nat
      then Returned (waterTiles st)
      else
        match fuel with
        | O => Unfinished
        | S fuel' =>
            st' ← bfsStep grid gridSize st x y rest;
            bfsLoop fuel' grid gridSize maxTiles st'
        end
  end.

(** [maxTiles] is a number of tiles; the source defaults it to 200. Every
    iteration either shortens the queue or adds a tile and at most four queue
    entries, so [4 * maxTiles + 1] iterations are never used up. *)
Definition findConnectedWaterTiles (grid : Grid) (gridSize : Z)
    (startTileX startTileY : Z) (maxTiles : nat) : Outcome (list Coord) :=
  guarded gridSize []
    (bfsLoop (4 * maxTiles + 1) grid gridSize maxTiles
       (mkBfsState ∅ [] [(startTileX, startTileY)])).

(** *** Tour waypoints *)

Module TourWaypoint.
Record t := mk {
  screenX : Q;
  screenY : Q;
  tileX : Z;
  tileY : Z
}.
End TourWaypoint.

Section TourWaypoints.

(** [gridToScreen] (imported from [./utils]) and the tile dimensions
    (imported from [./types]) are parameters. *)
Variable gridToScreen : Z -> Z -> Q -> Q -> Q * Q.
Variable TILE_WIDTH TILE_HEIGHT : Q.

(** The result of [tilesWithDist.sort(...)]. The comparator adds
    [(Math.random() - 0.5) * 3] to the difference of the distances from
    the centroid, so the order it produces is not determined by the tiles;
    it is supplied from outside. An entry is a tile with its index [idx] in
    [waterTiles]; [distFromCenter] is read by the comparator only. *)
Variable sortTiles : list (Coord * nat) -> list (Coord * nat).

Definition makeWaypoint (tile : Coord) : TourWaypoint.t :=
  let s := gridToScreen (fst tile) (snd tile) 0 0 in
  TourWaypoint.mk (fst s + TILE_WIDTH / 2)%Q (snd s + TILE_HEIGHT / 2)%Q
                  (fst tile) (snd tile).

(** [Math.hypot(dx, dy) < 3] on integers, as [dx * dx + dy * dy < 9]. *)
Definition closerThan3 (tile : Coord) (wp : TourWaypoint.t) : bool :=
  let dx := fst tile - TourWaypoint.tileX wp in
  let dy := snd tile - TourWaypoint.tileY wp in
  dx * dx + dy * dy <? 9.

(** The inner [for (const wp of waypoints)] loop. *)
Definition tooClose (tile : Coord) (waypoints : list TourWaypoint.t) : bool :=
  existsb (closerThan3 tile) waypoints.

(** One iteration of the spaced selection, on the ranked entry [entry]. *)
Definition spacedStep (st : list TourWaypoint.t * gset Z) (entry : Coord * nat)
  : list TourWaypoint.t * gset Z :=
  if tooClose (fst entry) (fst st) then st
  else (fst st ++ [makeWaypoint (fst entry)],
        snd st ∪ {[ Z.of_nat (snd entry) ]}).

(** The first loop: the first [numWaypoints] ranked tiles. *)
Definition spacedSelection (numWaypoints : Z) (ranked : list (Coord * nat))
  : list TourWaypoint.t * gset Z :=
  fold_left spacedStep (take (Z.to_nat numWaypoints) ranked) ([], ∅).

(** The second loop; each iteration consumes one value of [Math.random()]
    from [draws]. *)
Fixpoint randomFill (draws : list Q) (waterTiles : list Coord)
    (numWaypoints : Z) (waypoints : list TourWaypoint.t) (usedIndices : gset Z)
  : Outcome (list TourWaypoint.t) :=
  if (Z.of_nat (length waypoints) <? numWaypoints)
     && (length waypoints <? length waterTiles)%nat
  then
    match draws with
    | [] => Unfinished
    | rnd :: rest =>
        let randomIdx := Math.floor (rnd * inject_Z (Z.of_nat (length waterTiles))) in
        if bool_decide (randomIdx ∈ usedIndices)
        then randomFill rest waterTiles numWaypoints waypoints usedIndices
        else
          tile ← readOr (if randomIdx <? 0 then None
                         else waterTiles !! Z.to_nat randomIdx);
          randomFill rest waterTiles numWaypoints
            (waypoints ++ [makeWaypoint tile])
            (usedIndices ∪ {[ randomIdx ]})
    end
  else Returned waypoints.

Definition numWaypointsFor (size : nat) : Z :=
  Z.min 6 (Z.max 2 (Z.of_nat size / 10)).

(** The part of [generateTourWaypoints] after the flood fill. *)
Definition waypointsOfRegion (waterTiles : list Coord) (draws : list Q)
  : Outcome (list TourWaypoint.t) :=
  if (length waterTiles <? 3)%nat then Returned []
  else
    let numWaypoints := numWaypointsFor (length waterTiles) in
    let tilesWithDist := imap (fun idx tile => (tile, idx)) waterTiles in
    let ranked := sortTiles tilesWithDist in
    let sel := spacedSelection numWaypoints ranked in
    randomFill draws waterTiles numWaypoints (fst sel) (snd sel).

Definition generateTourWaypoints (grid : Grid) (gridSize : Z)
    (startTileX startTileY : Z) (draws : list Q)
  : Outcome (list TourWaypoint.t) :=
  waterTiles ← findConnectedWaterTiles grid gridSize startTileX startTileY 200;
  waypointsOfRegion waterTiles draws.

End TourWaypoints.

(** ** Sample agents and grids *)

(** A shopper in the middle of an episode of 10 seconds. *)
Definition shopper0 : Pedestrian :=
  {| tileX := 0; tileY := 0; hasBag := false;
     activityOffsetX := 0; activityOffsetY := 0;
     isAI := true; aiType := Some AIPedestrianType.SHOPPER;
     isShopping := true;
     shoppingProgress := Some 0%Q; shoppingDuration := Some (10 # 1);
     currentShopX := None; currentShopY := None;
     shoppingActivity := Some browsing;
     shoppingBudget := Some (1000 # 1);
     itemsBought := Some 0; shopVisitsToday := Some 0;
     lastShoppingTime := Some 0%Q;
     satisfactionLevel := Some (1 # 2);
     totalMoneySpent := Some 0%Q |}.


(** An agent that has not started shopping: a shopper with an empty purse. *)
Definition brokeShopper : Pedestrian :=
  {| tileX := 0; tileY := 0; hasBag := false;
     activityOffsetX := 0; activityOffsetY := 0;
     isAI := true; aiType := Some AIPedestrianType.SHOPPER;
     isShopping := false;
     shoppingProgress := Some 0%Q; shoppingDuration := Some 0%Q;
     currentShopX := None; currentShopY := None;
     shoppingActivity := None;
     shoppingBudget := Some 0%Q;
     itemsBought := Some 0; shopVisitsToday := Some 0;
     lastShoppingTime := Some 0%Q;
     satisfactionLevel := Some (1 # 2);
     totalMoneySpent := Some 0%Q |}.

(** A leisurer with some money left whose satisfaction has decayed to 0. *)
Definition unhappyLeisurer : Pedestrian :=
  {| tileX := 0; tileY := 0; hasBag := false;
     activityOffsetX := 0; activityOffsetY := 0;
     isAI := true; aiType := Some AIPedestrianType.LEISURER;
     isShopping := false;
     shoppingProgress := Some 0%Q; shoppingDuration := Some 0%Q;
     currentShopX := None; currentShopY := None;
     shoppingActivity := None;
     shoppingBudget := Some (500 # 1);
     itemsBought := Some 0; shopVisitsToday := Some 0;
     lastShoppingTime := Some 0%Q;
     satisfactionLevel := Some 0%Q;
     totalMoneySpent := Some 0%Q |}.

(** ** Vocabulary of the statements *)

(** The satisfaction level is present and lies in [0,1]. *)
Definition satisfactionInRange (p : Pedestrian) : Prop :=
  match satisfactionLevel p with
  | Some s => (0 <= s)%Q /\ (s <= 1)%Q
  | None => False
  end.

(** What the driver supplies to one update of one agent. *)
Record TickInput := mkTickInput {
  tickDelta : Q;
  tickGameTime : Q;
  tickNow : Q;
  tickRnd1 : Q;
  tickRnd2 : Q
}.

(** The successive updates of one agent over a sequence of frames, as the
    driver loop calls [updateAIPedestrianShopping] once per frame. *)
Fixpoint runTicks (cfg : Config) (grid : Grid) (inputs : list TickInput)
    (p : Pedestrian) : Outcome Pedestrian :=
  match inputs with
  | [] => Returned p
  | i :: rest =>
      p' ← updateAIPedestrianShopping cfg p grid (tickDelta i) (tickGameTime i)
             (tickNow i) (tickRnd1 i) (tickRnd2 i);
      runTicks cfg grid rest p'
  end.

(** The trigger probability as the specification words it:
    base(archetype) + (1 - satisfaction) * satisfactionWeight
    + min(1, budget / maxBudget) * budgetWeight, with a ceiling of 0.5. *)
Definition specTriggerProbability (cfg : Config) (type : string)
    (satisfaction budget : Q) : Q :=
  Math.min (1 # 2)
    (getShoppingProbabilityByType type
     + (1 - satisfaction) * satisfactionMultiplier (shopping cfg)
     + Math.min 1 (budget / maxBudget (shopping cfg))
       * budgetMultiplier (shopping cfg))%Q.

(** The sub-state that the bands of the progress ramp would select:
    browsing below 0.3, paying from 0.3 to 0.7, leaving from 0.7. *)
Definition specBand (progress : Q) : ShoppingActivity :=
  if ltQ progress (3 # 10) then browsing
  else if ltQ progress (7 # 10) then paying
  else carrying_bags.

(** The claim that, for every agent that is not shopping, the trigger fires
    exactly on the draws below the specification's probability. *)
Definition triggerFollowsFormula (cfg : Config) : Prop :=
  forall (p : Pedestrian) (type : string) (s b rnd : Q),
    isShopping p = false ->
    aiType p = Some type ->
    satisfactionLevel p = Some s ->
    shoppingBudget p = Some b ->
    (shouldGoShopping cfg p rnd = true
     <-> (rnd < specTriggerProbability cfg type s b)%Q).

(** [grid[x][y]] exists and holds a commercial building. *)
Definition isShopAt (grid : Grid) (c : Coord) : Prop :=
  exists tile, tileAt grid (fst c) (snd c) = Some tile /\
               includes commercialTypes (btype (building tile)) = true.

(** The squared distance from the agent's tile. *)
Definition sqDist (p : Pedestrian) (c : Coord) : Z :=
  (fst c - tileX p) ^ 2 + (snd c - tileY p) ^ 2.

(** The axis-aligned window [origin - radius, origin + radius] on both axes. *)
Definition inWindow (radius : Z) (p : Pedestrian) (c : Coord) : Prop :=
  tileX p - radius <= fst c <= tileX p + radius /\
  tileY p - radius <= snd c <= tileY p + radius.

(** A shop tile inside the window that is strictly closer to the agent than
    the search range. *)
Definition shopCandidate (cfg : Config) (p : Pedestrian) (grid : Grid)
    (c : Coord) : Prop :=
  isShopAt grid c /\
  inWindow (searchRange (navigation cfg)) p c /\
  sqDist p c < searchRange (navigation cfg) * searchRange (navigation cfg).

(** Every row of the grid is as long as the first one. *)
Definition rectangular (grid : Grid) : Prop :=
  forall row row0, grid !! 0%nat = Some row0 -> row ∈ grid ->
                   length row = length row0.

Definition grassTile : Tile :=
  {| building := {| btype := "grass"; onFire := false; powered := false;
                    abandoned := false; constructionProgress := 100 |};
     zone := "none"; hasSubway := false |}.

Definition shopTile : Tile :=
  {| building := {| btype := "shop_small"; onFire := false; powered := true;
                    abandoned := false; constructionProgress := 100 |};
     zone := "commercial"; hasSubway := false |}.

Definition waterTile : Tile :=
  {| building := {| btype := "water"; onFire := false; powered := false;
                    abandoned := false; constructionProgress := 100 |};
     zone := "none"; hasSubway := false |}.

(** One row of eleven tiles whose last tile, [grid[0][10]], is a shop. *)
Definition shopAtEdgeGrid : Grid := [replicate 10 grassTile ++ [shopTile]].

(** Eight rows of nine tiles; the only shop is [grid[7][8]]. *)
Definition shopAtCornerGrid : Grid :=
  replicate 7 (replicate 9 grassTile) ++ [replicate 8 grassTile ++ [shopTile]].

(** One row of three tiles with a shop at [grid[0][2]]. *)
Definition shopNearbyGrid : Grid := [[grassTile; grassTile; shopTile]].

(** The coordinate [(x, y)] lies inside the [gridSize] x [gridSize] square. *)
Definition inBounds (gridSize : Z) (c : Coord) : Prop :=
  0 <= fst c < gridSize /\ 0 <= snd c < gridSize.

(** [grid[y][x]] exists and is a water tile: the predicate of the fill. *)
Definition isWaterAt (grid : Grid) (c : Coord) : Prop :=
  exists tile, tileAt grid (snd c) (fst c) = Some tile /\
               btype (building tile) = "water"%string.

(** [d] is one of the four neighbours of [c]. *)
Definition adjacent4 (c d : Coord) : Prop :=
  d = (fst c - 1, snd c) \/ d = (fst c + 1, snd c) \/
  d = (fst c, snd c - 1) \/ d = (fst c, snd c + 1).

(** [c] is reached from [start] by a path of 4-connected water tiles inside
    the square, [start] included. *)
Inductive connected (grid : Grid) (gridSize : Z) (start : Coord) : Coord -> Prop :=
| connected_start :
    inBounds gridSize start -> isWaterAt grid start ->
    connected grid gridSize start start
| connected_step (c d : Coord) :
    connected grid gridSize start c -> adjacent4 c d ->
    inBounds gridSize d -> isWaterAt grid d ->
    connected grid gridSize start d.

(** The grid has a tile at every coordinate of the [gridSize] x [gridSize]
    square. *)
Definition covers (grid : Grid) (gridSize : Z) : Prop :=
  forall i j, 0 <= i < gridSize -> 0 <= j < gridSize ->
              exists tile, tileAt grid i j = Some tile.

(** The 5 x 5 grid of water. *)
Definition water5 : Grid := replicate 5 (replicate 5 waterTile).

(** Two waypoints are at Euclidean distance 3 or more: the square of the
    distance between their tiles is at least 9. *)
Definition apart3 (a b : TourWaypoint.t) : Prop :=
  9 <= (TourWaypoint.tileX a - TourWaypoint.tileX b) ^ 2
       + (TourWaypoint.tileY a - TourWaypoint.tileY b) ^ 2.

(** Every two waypoints of the list are at distance 3 or more. *)
Definition pairwiseApart (l : list TourWaypoint.t) : Prop :=
  forall (i j : nat) (a b : TourWaypoint.t),
    (i < j)%nat -> l !! i = Some a -> l !! j = Some b -> apart3 a b.

(** A value that [Math.random()] can return. *)
Definition unitDraw (rnd : Q) : Prop := (0 <= rnd)%Q /\ (rnd < 1)%Q.

(** Every index of an array of [n] elements is hit by one of the draws. *)
Definition drawsCover (n : nat) (draws : list Q) : Prop :=
  forall i, (i < n)%nat ->
    exists rnd, rnd ∈ draws /\
                Math.floor (rnd * inject_Z (Z.of_nat n)) = Z.of_nat i.

(** Draws that hit the indices 0 to 24 in turn. *)
Definition draws25 : list Q :=
  map (fun i => inject_Z (Z.of_nat i) / 25)%Q (seq 0 25).

(** A stand-in for the projection to the screen. *)
Definition flatScreen (x y : Z) (offsetX offsetY : Q) : Q * Q :=
  (inject_Z x + offsetX, inject_Z y + offsetY)%Q.

(** A shopper that is not shopping, with money to spend. *)
Definition idleShopper : Pedestrian :=
  {| tileX := 0; tileY := 0; hasBag := false;
     activityOffsetX := 0; activityOffsetY := 0;
     isAI := true; aiType := Some AIPedestrianType.SHOPPER;
     isShopping := false;
     shoppingProgress := Some 0%Q; shoppingDuration := Some 0%Q;
     currentShopX := None; currentShopY := None;
     shoppingActivity := None;
     shoppingBudget := Some (1000 # 1);
     itemsBought := Some 0; shopVisitsToday := Some 0;
     lastShoppingTime := Some 0%Q;
     satisfactionLevel := Some (1 # 2);
     totalMoneySpent := Some 0%Q |}.

(** Two rows, the second one empty. *)
Definition raggedGrid : Grid := [[shopTile]; []].

(** ** Loop invariants *)

(** The state [(nearestShop, minDistance)] of the scan of [findNearestShop]
    after the cells in [V] have been visited. *)
Definition scanInv (cfg : Config) (p : Pedestrian) (grid : Grid)
    (V : Coord -> Prop) (st : option Coord * Z) : Prop :=
  match fst st with
  | Some c =>
      V c /\ isShopAt grid c /\ sqDist p c = snd st /\
      snd st < searchRange (navigation cfg) * searchRange (navigation cfg)
  | None => snd st = searchRange (navigation cfg) * searchRange (navigation cfg)
  end /\
  forall c', V c' -> isShopAt grid c' -> snd st <= sqDist p c'.

(** The cells that the two loops of [findNearestShop] visit, [row0] being
    the first row of the grid. *)
Definition scanned (cfg : Config) (p : Pedestrian) (grid : Grid)
    (row0 : list Tile) (c : Coord) : Prop :=
  Z.max 0 (tileX p - searchRange (navigation cfg)) <= fst c
  < Z.min (Z.of_nat (length grid)) (tileX p + searchRange (navigation cfg)) /\
  Z.max 0 (tileY p - searchRange (navigation cfg)) <= snd c
  < Z.min (Z.of_nat (length row0)) (tileY p + searchRange (navigation cfg)).

(** What holds of the state of the flood fill before every iteration. *)
Record bfsInv (grid : Grid) (gridSize : Z) (maxTiles : nat) (start : Coord)
    (st : BfsState) : Prop := mkBfsInv {
  inv_nodup : NoDup (waterTiles st);
  inv_water : forall c, c ∈ waterTiles st ->
                c ∈ visited st /\ inBounds gridSize c /\ isWaterAt grid c /\
                connected grid gridSize start c;
  inv_queue : forall c, c ∈ queue st ->
                c = start \/
                exists w, connected grid gridSize start w /\ adjacent4 w c;
  inv_length : (length (waterTiles st) <= maxTiles)%nat
}.

(** The number of iterations that the flood fill can still make. *)
Definition bfsMeasure (maxTiles : nat) (st : BfsState) : nat :=
  length (queue st) + 4 * (maxTiles - length (waterTiles st)).

(** What the spaced selection keeps through its first [n] steps. *)
Definition spacedInv (n : nat) (st : list TourWaypoint.t * gset Z) : Prop :=
  pairwiseApart (fst st) /\ (length (fst st) <= n)%nat /\
  (size (snd st) <= length (fst st))%nat.

(** * Further code and vocabulary *)

(** ** Readings of the optional fields of an agent *)

(** The budget as the code reads it, [shoppingBudget || 0]. *)
Definition budgetOf (p : Pedestrian) : Q := orElse (shoppingBudget p) 0.

(** The cumulative spend as the code reads it, [totalMoneySpent || 0]. *)
Definition spentOf (p : Pedestrian) : Q := orElse (totalMoneySpent p) 0.


(** The shape of the episode fields: a shopping agent is browsing, at a
    progress in [0,1), for a duration inside the configured range; an agent
    that is not shopping has no sub-state. *)
Definition episodeInv (cfg : Config) (p : Pedestrian) : Prop :=
  if isShopping p
  then exists pr d,
         shoppingProgress p = Some pr /\ (0 <= pr)%Q /\ (pr < 1)%Q /\
         shoppingDuration p = Some d /\
         (minDuration (shopping cfg) <= d)%Q /\
         (d <= maxDuration (shopping cfg))%Q /\
         shoppingActivity p = Some browsing
  else shoppingActivity p = None.

(** What the driver may supply for one update: an elapsed time that is not
    negative and two values of [Math.random()]. *)
Definition tickOk (i : TickInput) : Prop :=
  (0 <= tickDelta i)%Q /\ unitDraw (tickRnd1 i) /\ unitDraw (tickRnd2 i).

(** The agent with another budget. *)
Definition withBudget (pedestrian : Pedestrian) (b : option Q) : Pedestrian :=
  {| tileX := tileX pedestrian;
     tileY := tileY pedestrian;
     hasBag := hasBag pedestrian;
     activityOffsetX := activityOffsetX pedestrian;
     activityOffsetY := activityOffsetY pedestrian;
     isAI := isAI pedestrian;
     aiType := aiType pedestrian;
     isShopping := isShopping pedestrian;
     shoppingProgress := shoppingProgress pedestrian;
     shoppingDuration := shoppingDuration pedestrian;
     currentShopX := currentShopX pedestrian;
     currentShopY := currentShopY pedestrian;
     shoppingActivity := shoppingActivity pedestrian;
     shoppingBudget := b;
     itemsBought := itemsBought pedestrian;
     shopVisitsToday := shopVisitsToday pedestrian;
     lastShoppingTime := lastShoppingTime pedestrian;
     satisfactionLevel := satisfactionLevel pedestrian;
     totalMoneySpent := totalMoneySpent pedestrian |}.

(** Two configurations agree on every field that the shopping system reads;
    they may differ in [maxVisitsPerDay], [timeBetweenShops],
    [timeMultiplier], [baseProbability], [maxMoneyPerTrip] and the other
    fields that no function of the system reads. *)
Definition sameReadFields (c1 c2 : Config) : Prop :=
  satisfactionMultiplier (shopping c1) = satisfactionMultiplier (shopping c2) /\
  budgetMultiplier (shopping c1) = budgetMultiplier (shopping c2) /\
  minDuration (shopping c1) = minDuration (shopping c2) /\
  maxDuration (shopping c1) = maxDuration (shopping c2) /\
  minBudget (shopping c1) = minBudget (shopping c2) /\
  maxBudget (shopping c1) = maxBudget (shopping c2) /\
  satisfactionGainPerPurchase (shopping c1)
  = satisfactionGainPerPurchase (shopping c2) /\
  satisfactionDecayRate (shopping c1) = satisfactionDecayRate (shopping c2) /\
  searchRange (navigation c1) = searchRange (navigation c2) /\
  averageItemPrice (economy c1) = averageItemPrice (economy c2).

(** The shipped configuration with a visit cap of 0 and an interval between
    episodes of a million seconds. *)
Definition strictLimitsConfig : Config :=
  {| spawnRate := spawnRate AI_PEDESTRIAN_CONFIG;
     maxAIPedestrians := maxAIPedestrians AI_PEDESTRIAN_CONFIG;
     initialAIPedestrians := initialAIPedestrians AI_PEDESTRIAN_CONFIG;
     shopping :=
       {| baseProbability := 1 # 10;
          satisfactionMultiplier := 3 # 10;
          budgetMultiplier := 2 # 10;
          timeMultiplier := 1 # 10;
          minDuration := 10 # 1;
          maxDuration := 30 # 1;
          minBudget := 500 # 1;
          maxBudget := 2000 # 1;
          maxVisitsPerDay := 0;
          timeBetweenShops := 1000000 # 1;
          satisfactionGainPerPurchase := 3 # 10;
          satisfactionDecayRate := 1 # 100 |};
     navigation := navigation AI_PEDESTRIAN_CONFIG;
     animation := animation AI_PEDESTRIAN_CONFIG;
     economy := economy AI_PEDESTRIAN_CONFIG |}.

(** Two frames of five seconds and one of one second. *)
Definition threeTicks : list TickInput :=
  [ mkTickInput (5 # 1) 0 0 (1 # 2) 0;
    mkTickInput (5 # 1) 5 5 (1 # 2) 0;
    mkTickInput (1 # 1) 6 6 (9 # 10) 0 ].


(** A function that is constantly zero, standing for [Math.sin] or
    [Math.cos] at a multiple of the period. *)
Definition zeroWave (x : Q) : Q := 0%Q.

(** ** More of gridFinders.ts *)

Inductive DockType : Type :=
| dock_marina
| dock_pier.

Definition findMarinasAndPiers (grid : Grid) (gridSize : Z)
  : Outcome (list (Coord * DockType)) :=
  guarded gridSize []
    (scanGrid grid gridSize
       (fun x y tile docks =>
          let buildingType := btype (building tile) in
          if String.eqb buildingType "marina_docks_small"
          then docks ++ [((x, y), dock_marina)]
          else if String.eqb buildingType "pier_large"
          then docks ++ [((x, y), dock_pier)]
          else docks)
       []).

(** The entries are [{ x, y, type }]. *)
Definition findSmogFactories (grid : Grid) (gridSize : Z)
  : Outcome (list (Coord * BuildingType)) :=
  guarded gridSize []
    (scanGrid grid gridSize
       (fun x y tile factories =>
          let buildingType := btype (building tile) in
          if (String.eqb buildingType "factory_medium"
              || String.eqb buildingType "factory_large")
             && powered (building tile)
             && negb (abandoned (building tile))
             && (100 <=? constructionProgress (building tile))
          then factories ++ [((x, y), buildingType)]
          else factories)
       []).

Definition countRoadTiles (grid : Grid) (gridSize : Z) : Outcome Z :=
  guarded gridSize 0
    (scanGrid grid gridSize
       (fun x y tile count =>
          if String.eqb (btype (building tile)) "road" then count + 1 else count)
       0).

(** ** Vocabulary for the finders *)

(** The coordinates of the square in the order of the two loops: rows [y]
    from 0, and inside a row the columns [x] from 0. *)
Definition allCoords (gridSize : Z) : list Coord :=
  y ← seqZ 0 gridSize; x ← seqZ 0 gridSize; [(x, y)].

(** The tile at the coordinate [(x, y)], which is [grid[y][x]]. *)
Definition tileOf (grid : Grid) (c : Coord) : option Tile :=
  tileAt grid (snd c) (fst c).

(** The entries that [f] selects among the tiles of the square, in the order
    of the two loops. *)
Definition collect {A : Type} (grid : Grid) (gridSize : Z)
    (f : Coord -> Tile -> option A) : list A :=
  omap (fun c => t ← tileOf grid c; f c t) (allCoords gridSize).

(** The coordinates of the tiles of the square that satisfy [pred], in the
    order of the two loops. *)
Definition coordsWhere (grid : Grid) (gridSize : Z) (pred : Tile -> bool)
  : list Coord :=
  collect grid gridSize (fun c t => if pred t then Some c else None).

(** The category of a tile for [findPedestrianDestinations]. *)
Definition destinationOf (tile : Tile) : option PedestrianDestType :=
  let buildingType := btype (building tile) in
  if includes SCHOOL_TYPES buildingType then Some dest_school
  else if includes COMMERCIAL_TYPES buildingType then Some dest_commercial
  else if includes INDUSTRIAL_TYPES buildingType then Some dest_industrial
  else if includes PARK_TYPES buildingType then Some dest_park
  else None.

(** The set of building types of a destination category. *)
Definition typesOf (tag : PedestrianDestType) : list BuildingType :=
  match tag with
  | dest_school => SCHOOL_TYPES
  | dest_commercial => COMMERCIAL_TYPES
  | dest_industrial => INDUSTRIAL_TYPES
  | dest_park => PARK_TYPES
  end.

(** A factory is operating: powered, not abandoned, fully built. *)
Definition operating (b : Building) : bool :=
  powered b && negb (abandoned b) && (100 <=? constructionProgress b).

Definition tileOfType (type : BuildingType) : Tile :=
  {| building := {| btype := type; onFire := false; powered := true;
                    abandoned := false; constructionProgress := 100 |};
     zone := "none"; hasSubway := false |}.

(** A 2 x 2 grid: a house and a mall in the first row, an airport and a road
    in the second. *)
Definition townGrid : Grid :=
  [ [tileOfType "house_small"; tileOfType "mall"];
    [tileOfType "airport"; tileOfType "road"] ].

(** What [findHeliports] lists for the tile [t] at the coordinate [c]. *)
Definition heliportAt (c : Coord) (t : Tile) : option HeliportInfo.t :=
  let buildingType := btype (building t) in
  if String.eqb buildingType "hospital"
  then Some (HeliportInfo.mk (fst c) (snd c) heli_hospital 2)
  else if String.eqb buildingType "airport"
  then Some (HeliportInfo.mk (fst c) (snd c) heli_airport 4)
  else if String.eqb buildingType "police_station"
  then Some (HeliportInfo.mk (fst c) (snd c) heli_police 1)
  else if String.eqb buildingType "mall"
  then if 50 <=? (fst c * 31 + snd c * 17) mod 100
       then Some (HeliportInfo.mk (fst c) (snd c) heli_mall 3)
       else None
  else None.

(** The pad size that goes with a kind of heliport. *)
Definition padSize (kind : HeliportType) : Z :=
  match kind with
  | heli_hospital => 2
  | heli_airport => 4
  | heli_police => 1
  | heli_mall => 3
  end.

(** The building type that goes with a kind of heliport. *)
Definition heliportBuilding (kind : HeliportType) : BuildingType :=
  match kind with
  | heli_hospital => "hospital"
  | heli_airport => "airport"
  | heli_police => "police_station"
  | heli_mall => "mall"
  end.

(** [c] is one of the eight neighbours of [(x, y)]. *)
Definition adjacent8 (x y : Z) (c : Coord) : Prop :=
  c <> (x, y) /\ -1 <= fst c - x <= 1 /\ -1 <= snd c - y <= 1.

(** A 3 x 3 grid with a marina in the middle and water to its east. *)
Definition harbourGrid : Grid :=
  [ [grassTile; grassTile; grassTile];
    [grassTile; tileOfType "marina_docks_small"; waterTile];
    [grassTile; grassTile; grassTile] ].

(** What the flood fill keeps besides [bfsInv]: the start is visited or
    waiting; a visited water tile of the square is in the list; every
    neighbour of a listed tile is visited or waiting. *)
Record bfsClosed (grid : Grid) (gridSize : Z) (start : Coord)
    (st : BfsState) : Prop := mkBfsClosed {
  closed_start : start ∈ visited st \/ start ∈ queue st;
  closed_visited : forall c, c ∈ visited st -> inBounds gridSize c ->
                     isWaterAt grid c -> c ∈ waterTiles st;
  closed_neighbours : forall w c, w ∈ waterTiles st -> adjacent4 w c ->
                        c ∈ visited st \/ c ∈ queue st
}.

(** Two lakes of three tiles each, with a strip of grass between them. *)
Definition lakesGrid : Grid :=
  [ [waterTile; grassTile; waterTile];
    [waterTile; grassTile; waterTile];
    [waterTile; grassTile; waterTile] ].

(** The western lake. *)
Definition westLake : list Coord := [(0, 0); (0, 1); (0, 2)].

(** The tile on which a waypoint lies. *)
Definition tileOfWaypoint (w : TourWaypoint.t) : Coord :=
  (TourWaypoint.tileX w, TourWaypoint.tileY w).

(** The waypoint [w] was made from the tile at index [i] of the region. *)
Definition pickedAt (gridToScreen : Z -> Z -> Q -> Q -> Q * Q)
    (TILE_WIDTH TILE_HEIGHT : Q) (region : list Coord)
    (w : TourWaypoint.t) (i : nat) : Prop :=
  exists tile, region !! i = Some tile /\
               w = makeWaypoint gridToScreen TILE_WIDTH TILE_HEIGHT tile.

(** What both loops of [generateTourWaypoints] keep: the waypoints come from
    the indices [idxs] of the region, no index twice, and every index that
    was taken is in [usedIndices]. *)
Definition pickedInv (gridToScreen : Z -> Z -> Q -> Q -> Q * Q)
    (TILE_WIDTH TILE_HEIGHT : Q) (region : list Coord)
    (st : list TourWaypoint.t * gset Z) (idxs : list nat) : Prop :=
  NoDup idxs /\
  (forall i, i ∈ idxs -> Z.of_nat i ∈ snd st) /\
  Forall2 (pickedAt gridToScreen TILE_WIDTH TILE_HEIGHT region) (fst st) idxs.

(** The tour of the 5 x 5 water grid from (2,2) with the sort that leaves
    the order as it is and the draws 0, 0, 1/2. *)
Definition tourOfWater5 : list TourWaypoint.t :=
  match generateTourWaypoints flatScreen 2 1 (fun l => l) water5 5 2 2
          [0; 0; 1 # 2]%Q with
  | Returned ws => ws
  | _ => []
  end.

(** The building type that goes with a kind of dock. *)
Definition dockBuilding (kind : DockType) : BuildingType :=
  match kind with
  | dock_marina => "marina_docks_small"
  | dock_pier => "pier_large"
  end.

(** ** aiPedestrianIntegration.ts *)

(** A pedestrian as the integration layer sees it: the shopping fields,
    and the two other fields of the object that it reads, [id] and
    [state]. *)
Module GamePedestrian.
Record t := mk {
  id : Z;
  state : string;
  fields : Pedestrian
}.
End GamePedestrian.

(** The agent with other animation offsets. *)
Definition withOffset (pedestrian : Pedestrian) (offset : Q * Q) : Pedestrian :=
  {| tileX := tileX pedestrian;
     tileY := tileY pedestrian;
     hasBag := hasBag pedestrian;
     activityOffsetX := fst offset;
     activityOffsetY := snd offset;
     isAI := isAI pedestrian;
     aiType := aiType pedestrian;
     isShopping := isShopping pedestrian;
     shoppingProgress := shoppingProgress pedestrian;
     shoppingDuration := shoppingDuration pedestrian;
     currentShopX := currentShopX pedestrian;
     currentShopY := currentShopY pedestrian;
     shoppingActivity := shoppingActivity pedestrian;
     shoppingBudget := shoppingBudget pedestrian;
     itemsBought := itemsBought pedestrian;
     shopVisitsToday := shopVisitsToday pedestrian;
     lastShoppingTime := lastShoppingTime pedestrian;
     satisfactionLevel := satisfactionLevel pedestrian;
     totalMoneySpent := totalMoneySpent pedestrian |}.

(** What one pedestrian draws from the environment during one frame: the
    value of [Date.now() / 1000], the two [Math.random()] values of
    [updateAIPedestrianShopping] and the two of the paying animation. *)
Record FrameDraws := mkFrameDraws {
  frameNow : Q;
  frameRnd1 : Q;
  frameRnd2 : Q;
  shakeRnd1 : Q;
  shakeRnd2 : Q
}.

(** The object literal of [spawnAIPedestrian], before the shopping system
    initialises it. *)
Definition newPedestrian (tileX tileY : Z) (aiType : string) : Pedestrian :=
  {| tileX := tileX;
     tileY := tileY;
     hasBag := false;
     activityOffsetX := 0;
     activityOffsetY := 0;
     isAI := true;
     aiType := Some aiType;
     isShopping := false;
     shoppingProgress := Some 0%Q;
     shoppingDuration := Some 0%Q;
     currentShopX := None;
     currentShopY := None;
     shoppingActivity := None;
     shoppingBudget := Some 0%Q;
     itemsBought := Some 0;
     shopVisitsToday := Some 0;
     lastShoppingTime := Some 0%Q;
     satisfactionLevel := Some (5 # 10);
     totalMoneySpent := Some 0%Q |}.

(** The result of [calculateAIPedestrianStats]. *)
Module AIStats.
Record t := mk {
  totalCount : nat;
  shoppingCount : nat;
  walkingCount : nat;
  idleCount : nat;
  averageSatisfaction : Q;
  totalMoneySpent : Q
}.
End AIStats.

Section Integration.

Variable cfg : Config.
Variable sin cos : Q -> Q.
Variable PI : Q.

(** [Math.max(0, ...pedestrians.map(p => p.id), 0) + 1]. *)
Definition nextId (pedestrians : list GamePedestrian.t) : Z :=
  foldr Z.max 0 (0 :: map GamePedestrian.id pedestrians ++ [0]) + 1.

(** [rnd] is the value of the [Math.random()] call of
    [initializeAIPedestrianShopping]; the calls before it draw the age, the
    colours, the hat, the side of the sidewalk and the destination, which
    are not among the fields of the model. *)
Definition spawnAIPedestrian (pedestrians : list GamePedestrian.t)
    (tileX tileY : Z) (aiType : string) (rnd : Q) : option GamePedestrian.t :=
  if maxAIPedestrians cfg <=? Z.of_nat (length pedestrians) then None
  else
    let id := nextId pedestrians in
    Some (GamePedestrian.mk id "walking"
            (initializeAIPedestrianShopping cfg
               (newPedestrian tileX tileY aiType) aiType rnd)).

(** The callback of [pedestrians.map] in [updateAIPedestrians], on the
    shopping fields of one pedestrian. *)
Definition updateOne (grid : Grid) (deltaTime gameTime : Q) (d : FrameDraws)
    (pedestrian : Pedestrian) : Outcome Pedestrian :=
  if negb (isAI pedestrian) then Returned pedestrian
  else
    updated ← updateAIPedestrianShopping cfg pedestrian grid deltaTime gameTime
                (frameNow d) (frameRnd1 d) (frameRnd2 d);
    match shoppingActivity updated, shoppingProgress updated with
    | Some _, Some progress =>
        if isShopping updated
        then Returned (withOffset updated
                         (getShoppingAnimationOffset cfg sin cos PI updated
                            progress (shakeRnd1 d) (shakeRnd2 d)))
        else Returned updated
    | _, _ => Returned updated
    end.

(** [pedestrians.map(...)] from the index [i] on; [draws i] is what the
    pedestrian at index [i] draws. *)
Fixpoint updateFrom (grid : Grid) (deltaTime gameTime : Q)
    (draws : nat -> FrameDraws) (i : nat) (pedestrians : list GamePedestrian.t)
  : Outcome (list GamePedestrian.t) :=
  match pedestrians with
  | [] => Returned []
  | pedestrian :: rest =>
      updated ← updateOne grid deltaTime gameTime (draws i)
                  (GamePedestrian.fields pedestrian);
      others ← updateFrom grid deltaTime gameTime draws (S i) rest;
      Returned (GamePedestrian.mk (GamePedestrian.id pedestrian)
                  (GamePedestrian.state pedestrian) updated :: others)
  end.

Definition updateAIPedestrians (pedestrians : list GamePedestrian.t)
    (grid : Grid) (deltaTime gameTime : Q) (draws : nat -> FrameDraws)
  : Outcome (list GamePedestrian.t) :=
  updateFrom grid deltaTime gameTime draws 0 pedestrians.

End Integration.

Definition isAIPedestrian (p : GamePedestrian.t) : bool :=
  isAI (GamePedestrian.fields p).

Definition calculateAIPedestrianStats (pedestrians : list GamePedestrian.t)
  : AIStats.t :=
  let aiPedestrians := List.filter isAIPedestrian pedestrians in
  if (length aiPedestrians =? 0)%nat
  then AIStats.mk 0 0 0 0 0 0
  else
    let shoppingCount :=
      length (List.filter (fun p => isShopping (GamePedestrian.fields p))
                aiPedestrians) in
    let walkingCount :=
      length (List.filter (fun p => String.eqb (GamePedestrian.state p) "walking")
                aiPedestrians) in
    let idleCount :=
      length (List.filter (fun p => String.eqb (GamePedestrian.state p) "idle")
                aiPedestrians) in
    let totalMoney :=
      fold_left (fun sum p =>
                   (sum + orElse (totalMoneySpent (GamePedestrian.fields p)) 0)%Q)
                aiPedestrians 0%Q in
    let avgSatisfaction :=
      (fold_left (fun sum p =>
                    (sum + orElse (satisfactionLevel (GamePedestrian.fields p))
                                  (5 # 10))%Q)
                 aiPedestrians 0%Q
       / inject_Z (Z.of_nat (length aiPedestrians)))%Q in
    AIStats.mk (length aiPedestrians) shoppingCount walkingCount idleCount
               avgSatisfaction totalMoney.

Definition clearAIPedestrians (pedestrians : list GamePedestrian.t)
  : list GamePedestrian.t :=
  List.filter (fun p => negb (isAIPedestrian p)) pedestrians.

(** [Math.max(0, Math.min(0.1, rate))] written to the configuration. *)
Definition setAIPedestrianSpawnRate (cfg : Config) (rate : Q) : Config :=
  {| spawnRate := Math.max 0 (Math.min (1 # 10) rate);
     maxAIPedestrians := maxAIPedestrians cfg;
     initialAIPedestrians := initialAIPedestrians cfg;
     shopping := shopping cfg;
     navigation := navigation cfg;
     animation := animation cfg;
     economy := economy cfg |}.

(** The satisfaction of the agent, when it has one, lies in [0,1]. *)
Definition satisfactionWithin (p : Pedestrian) : Prop :=
  forall s, satisfactionLevel p = Some s -> (0 <= s)%Q /\ (s <= 1)%Q.

(** A passer-by that the shopping system does not drive. *)
Definition passerBy : Pedestrian :=
  {| tileX := 0; tileY := 1; hasBag := false;
     activityOffsetX := 0; activityOffsetY := 0;
     isAI := false; aiType := None;
     isShopping := false;
     shoppingProgress := None; shoppingDuration := None;
     currentShopX := None; currentShopY := None;
     shoppingActivity := None;
     shoppingBudget := None;
     itemsBought := None; shopVisitsToday := None;
     lastShoppingTime := None;
     satisfactionLevel := None;
     totalMoneySpent := None |}.

(** A crowd of two: a shopper in the middle of an episode and a passer-by. *)
Definition smallCrowd : list GamePedestrian.t :=
  [GamePedestrian.mk 1 "walking" shopper0; GamePedestrian.mk 2 "idle" passerBy].

(** The same draws for every pedestrian of a frame. *)
Definition sameDraws : nat -> FrameDraws :=
  fun _ => mkFrameDraws 0 (1 # 2) (1 # 2) (1 # 2) (1 # 2).

(** What one frame keeps of a pedestrian: the identity, the state, the
    tile, the archetype and the sum of budget and spend; a pedestrian that
    is not an AI agent is left as it is; the animation offsets change only
    for a pedestrian that is shopping after the frame. *)
Definition frameKeeps (w w' : GamePedestrian.t) : Prop :=
  let p := GamePedestrian.fields w in
  let p' := GamePedestrian.fields w' in
  GamePedestrian.id w' = GamePedestrian.id w /\
  GamePedestrian.state w' = GamePedestrian.state w /\
  tileX p' = tileX p /\ tileY p' = tileY p /\
  isAI p' = isAI p /\ aiType p' = aiType p /\
  (budgetOf p' + spentOf p' == budgetOf p + spentOf p)%Q /\
  (isAI p = false -> w' = w) /\
  (isShopping p' = false ->
   activityOffsetX p' = activityOffsetX p /\
   activityOffsetY p' = activityOffsetY p).

(** A wave that is 1 everywhere. *)
Definition oneWave (x : Q) : Q := 1%Q.

(** The statistics of a crowd without AI agents. *)
Definition noStats : AIStats.t := AIStats.mk 0 0 0 0 0 0.

(** ** The cache of findFireworkBuildings *)

(** The two module-level variables of the cache: the array that was passed
    last, which the code compares by reference, and the set built from the
    contents that the array had then. An array is a reference (a number)
    together with its current contents. *)
Record FireworkCache := mkFireworkCache {
  cachedFireworkTypesArray : option nat;
  cachedFireworkTypesSet : list BuildingType
}.

(** Both variables are [null] when the module is loaded. *)
Definition emptyFireworkCache : FireworkCache := mkFireworkCache None [].

(** [cachedFireworkTypesArray === fireworkBuildingTypes]. *)
Definition sameArray (cache : FireworkCache) (ref : nat) : bool :=
  match cachedFireworkTypesArray cache with
  | Some r => Nat.eqb r ref
  | None => false
  end.

(** The cache after the [if] that rebuilds the set. *)
Definition refreshCache (cache : FireworkCache) (ref : nat)
    (fireworkBuildingTypes : list BuildingType) : FireworkCache :=
  if sameArray cache ref then cache
  else mkFireworkCache (Some ref) fireworkBuildingTypes.

(** The function returns the new cache with its result; [ref] is the
    reference of the array argument and [fireworkBuildingTypes] its
    contents at the time of the call. *)
Definition findFireworkBuildings (cache : FireworkCache) (grid : Grid)
    (gridSize : Z) (ref : nat) (fireworkBuildingTypes : list BuildingType)
  : FireworkCache * Outcome (list (Coord * BuildingType)) :=
  if gridSize <=? 0 then (cache, Returned [])
  else
    let cache := refreshCache cache ref fireworkBuildingTypes in
    let typesSet := cachedFireworkTypesSet cache in
    (cache,
     scanGrid grid gridSize
       (fun x y tile buildings =>
          let buildingType := btype (building tile) in
          if includes typesSet buildingType
          then buildings ++ [((x, y), buildingType)]
          else buildings)
       []).

(** ** Screen positions over water *)

Section ScreenToTile.

Variable TILE_WIDTH TILE_HEIGHT : Q.

(** The tile coordinates that [isOverWater] computes from a screen
    position. *)
Definition tileUnder (screenX screenY : Q) : Coord :=
  let tileX := Math.floor (screenX / TILE_WIDTH + screenY / TILE_HEIGHT) in
  let tileY := Math.floor (screenY / TILE_HEIGHT - screenX / TILE_WIDTH) in
  (tileX, tileY).

Definition isOverWater (grid : Grid) (gridSize : Z) (screenX screenY : Q)
  : Outcome bool :=
  guarded gridSize false
    (let tileX := fst (tileUnder screenX screenY) in
     let tileY := snd (tileUnder screenX screenY) in
     if (tileX <? 0) || (gridSize <=? tileX) || (tileY <? 0) || (gridSize <=? tileY)
     then Returned false
     else
       tile ← readOr (tileAt grid tileY tileX);
       Returned (String.eqb (btype (building tile)) "water")).

End ScreenToTile.
(** * Properties *)

(** ** Arithmetic helpers *)

Ltac name_minmax :=
  unfold Math.min, Math.max in *;
  repeat match goal with
  | |- context [Qmin ?a ?b] =>
      let m := fresh "m" in
      let H := fresh "Hm" in
      pose proof (Q.min_spec a b) as H; set (m := Qmin a b) in *; clearbody m
  | |- context [Qmax ?a ?b] =>
      let m := fresh "m" in
      let H := fresh "Hm" in
      pose proof (Q.max_spec a b) as H; set (m := Qmax a b) in *; clearbody m
  | _ : context [Qmin ?a ?b] |- _ =>
      let m := fresh "m" in
      let H := fresh "Hm" in
      pose proof (Q.min_spec a b) as H; set (m := Qmin a b) in *; clearbody m
  | _ : context [Qmax ?a ?b] |- _ =>
      let m := fresh "m" in
      let H := fresh "Hm" in
      pose proof (Q.max_spec a b) as H; set (m := Qmax a b) in *; clearbody m
  end.

Lemma Qeq_bool_false (a b : Q) : Qeq_bool a b = false <-> ~ (a == b)%Q.
Proof.
  split.
  - intros H E. apply Qeq_bool_iff in E. congruence.
  - intros H. destruct (Qeq_bool a b) eqn:E; [|reflexivity].
    apply Qeq_bool_iff in E. contradiction.
Qed.

Lemma orElse_nonzero (v d : Q) : ~ (v == 0)%Q -> orElse (Some v) d = v.
Proof. intros H. simpl. apply Qeq_bool_false in H. now rewrite H. Qed.

Lemma orElse_zero (v d : Q) : (v == 0)%Q -> orElse (Some v) d = d.
Proof. intros H. simpl. apply Qeq_bool_iff in H. now rewrite H. Qed.

Lemma orElse_eq_zero_default (s : Q) : (orElse (Some s) 0 == s)%Q.
Proof.
  simpl. destruct (Qeq_bool s 0) eqn:E; [|reflexivity].
  apply Qeq_bool_iff in E. now rewrite E.
Qed.

Lemma ltQ_spec (a b : Q) : ltQ a b = true <-> (a < b)%Q.
Proof.
  unfold ltQ. rewrite negb_true_iff. split.
  - intros H. apply Qnot_le_lt. intros L. apply Qle_bool_iff in L. congruence.
  - intros H. destruct (Qle_bool b a) eqn:E; [|reflexivity].
    apply Qle_bool_iff in E. lra.
Qed.

Lemma geQ_spec (a b : Q) : geQ a b = true <-> (b <= a)%Q.
Proof. unfold geQ. apply Qle_bool_iff. Qed.

Lemma drawItems_range (rnd : Q) :
  (0 <= rnd)%Q -> (rnd < 1)%Q -> 1 <= drawItems rnd <= 5.
Proof.
  intros H0 H1. unfold drawItems, Math.floor.
  assert (L : 0 <= Qfloor (rnd * 5)).
  { change 0 with (Qfloor (inject_Z 0)). apply Qfloor_resp_le.
    change (inject_Z 0) with 0%Q. lra. }
  assert (U : Qfloor (rnd * 5) < 5).
  { pose proof (Qfloor_le (rnd * 5)) as F.
    apply Z.lt_nge. intros G. rewrite Zle_Qle in G.
    change (inject_Z 5) with 5%Q in G. lra. }
  lia.
Qed.

Lemma drawItems_onto (k : Z) :
  1 <= k <= 5 -> exists rnd, (0 <= rnd)%Q /\ (rnd < 1)%Q /\ drawItems rnd = k.
Proof.
  intros H.
  assert (C : k = 1 \/ k = 2 \/ k = 3 \/ k = 4 \/ k = 5) by lia.
  destruct C as [->|[->|[->|[->| ->]]]].
  - exists 0%Q. repeat split; try lra.
  - exists (1 # 5)%Q. repeat split; try lra; reflexivity.
  - exists (2 # 5)%Q. repeat split; try lra; reflexivity.
  - exists (3 # 5)%Q. repeat split; try lra; reflexivity.
  - exists (4 # 5)%Q. repeat split; try lra; reflexivity.
Qed.

(** ** The economy of one episode *)

(** C1: for an agent that is shopping, completing the episode with any draw
    [rnd] in [0,1) buys between 1 and 5 items (each count is drawn by some
    value of the draw), spends the minimum of items times the average price
    and the budget read before completion, never more than that budget,
    leaves a budget that is the old one minus the amount spent and is not
    negative, and adds the amount spent to the cumulative total. *)
Theorem complete_spend_within_budget
    (cfg : Config) (p : Pedestrian) (rnd now : Q) :
  isShopping p = true -> (0 <= rnd)%Q -> (rnd < 1)%Q ->
  let budget_before := orElse (shoppingBudget p) 0 in
  let spent := actualSpending cfg p rnd in
  let p' := completeShoppingActivity cfg p rnd now in
  1 <= drawItems rnd <= 5 /\
  (forall k, 1 <= k <= 5 ->
     exists r, (0 <= r)%Q /\ (r < 1)%Q /\ drawItems r = k) /\
  (spent == Math.min (inject_Z (drawItems rnd) * averageItemPrice (economy cfg))
                     budget_before)%Q /\
  (spent <= budget_before)%Q /\
  (forall b, shoppingBudget p = Some b -> (spent <= b)%Q) /\
  (exists b', shoppingBudget p' = Some b' /\
              (b' == budget_before - spent)%Q /\ (0 <= b')%Q) /\
  (exists t', totalMoneySpent p' = Some t' /\
              (t' == orElse (totalMoneySpent p) 0 + spent)%Q) /\
  itemsBought p' = Some (drawItems rnd).
Proof.
  intros Hs H0 H1 budget_before spent p'.
  assert (Hle : (spent <= budget_before)%Q).
  { subst spent budget_before. unfold actualSpending. apply Q.le_min_r. }
  subst p'. unfold completeShoppingActivity. rewrite Hs. simpl.
  repeat split.
  - now apply drawItems_range.
  - now apply drawItems_range.
  - apply drawItems_onto.
  - exact Hle.
  - intros b Hb. subst budget_before. rewrite Hb in Hle.
    pose proof (orElse_eq_zero_default b) as E. lra.
  - eexists. split; [reflexivity|]. split; [reflexivity|].
    fold budget_before. fold spent. lra.
  - eexists. split; [reflexivity|]. reflexivity.
Qed.

Lemma complete_spend_within_budget_witness :
  (actualSpending AI_PEDESTRIAN_CONFIG shopper0 (1 # 2)
   <= orElse (shoppingBudget shopper0) 0)%Q.
Proof.
  refine (proj1 (proj2 (proj2 (proj2
    (complete_spend_within_budget AI_PEDESTRIAN_CONFIG shopper0 (1 # 2) 0 _ _ _))))).
  - reflexivity.
  - vm_compute. discriminate.
  - reflexivity.
Defined.

(** ** The satisfaction level *)

Lemma decay_in_range (cfg : Config) (p : Pedestrian) (dt : Q) :
  (0 <= satisfactionDecayRate (shopping cfg))%Q -> (0 <= dt)%Q ->
  satisfactionInRange p ->
  satisfactionInRange (withSatisfaction p (decaySatisfaction cfg p dt)).
Proof.
  intros Hr Hd Hp. unfold satisfactionInRange in *.
  unfold decaySatisfaction. simpl.
  destruct (satisfactionLevel p) as [s|]; [|contradiction].
  simpl. destruct (Qeq_bool s 0); simpl; [exact Hp|].
  pose proof (Qmult_le_0_compat _ _ Hr Hd) as Hm.
  set (d := (satisfactionDecayRate (shopping cfg) * dt)%Q) in *. clearbody d.
  name_minmax. lra.
Qed.

Lemma complete_in_range (cfg : Config) (p : Pedestrian) (rnd now : Q) :
  (0 <= satisfactionGainPerPurchase (shopping cfg))%Q ->
  satisfactionInRange p ->
  satisfactionInRange (completeShoppingActivity cfg p rnd now).
Proof.
  intros Hg Hp. unfold completeShoppingActivity.
  destruct (isShopping p); simpl; [|exact Hp].
  unfold satisfactionInRange in *. simpl.
  destruct (satisfactionLevel p) as [s|]; [|contradiction].
  pose proof (orElse_eq_zero_default s) as E.
  set (o := orElse (Some s) 0) in *. clearbody o.
  name_minmax. lra.
Qed.

Lemma start_keeps_satisfaction (cfg : Config) (p p' : Pedestrian) (grid : Grid)
    (rnd : Q) :
  startShoppingActivity cfg p grid rnd = Returned p' ->
  satisfactionLevel p' = satisfactionLevel p.
Proof.
  unfold startShoppingActivity. destruct (findNearestShop cfg p grid); simpl;
    try discriminate.
  intros [= <-]. reflexivity.
Qed.

Lemma update_in_range (cfg : Config) (p p' : Pedestrian) (grid : Grid)
    (dt gameTime now rnd1 rnd2 : Q) :
  (0 <= satisfactionDecayRate (shopping cfg))%Q ->
  (0 <= satisfactionGainPerPurchase (shopping cfg))%Q ->
  (0 <= dt)%Q ->
  satisfactionInRange p ->
  updateAIPedestrianShopping cfg p grid dt gameTime now rnd1 rnd2 = Returned p' ->
  satisfactionInRange p'.
Proof.
  intros Hr Hg Hd Hp. unfold updateAIPedestrianShopping.
  destruct (isAI p); simpl; [|intros [= <-]; exact Hp].
  pose proof (decay_in_range cfg p dt Hr Hd Hp) as Hq.
  set (q := withSatisfaction p (decaySatisfaction cfg p dt)) in *.
  assert (Hsel : forall r,
            (if shouldGoShopping cfg q rnd1
             then startShoppingActivity cfg q grid rnd2
             else Returned q) = Returned r -> satisfactionInRange r).
  { intros r. destruct (shouldGoShopping cfg q rnd1).
    - intros H. apply start_keeps_satisfaction in H.
      unfold satisfactionInRange in *. now rewrite H.
    - now intros [= <-]. }
  destruct (isShopping p); [|apply Hsel].
  destruct (shoppingProgress p) as [pr|]; [|apply Hsel].
  match goal with |- context [geQ ?a ?b] => destruct (geQ a b) end.
  - intros [= <-]. apply complete_in_range; [exact Hg|exact Hq].
  - intros [= <-]. exact Hq.
Qed.

(** C2: with a decay rate and a per-purchase gain that are not negative, an
    agent whose satisfaction is in [0,1] keeps it in [0,1] through the decay
    of a tick of any elapsed time [dt >= 0] (floored at 0), through the
    completion of an episode (capped at 1), through a whole update, and so
    through any sequence of updates; a freshly initialised agent starts in
    range. *)
Theorem satisfaction_stays_in_unit_interval
    (cfg : Config) (p : Pedestrian) (grid : Grid) :
  (0 <= satisfactionDecayRate (shopping cfg))%Q ->
  (0 <= satisfactionGainPerPurchase (shopping cfg))%Q ->
  satisfactionInRange p ->
  (forall dt, (0 <= dt)%Q ->
     satisfactionInRange (withSatisfaction p (decaySatisfaction cfg p dt))) /\
  (forall rnd now, satisfactionInRange (completeShoppingActivity cfg p rnd now)) /\
  (forall inputs p',
     Forall (fun i => (0 <= tickDelta i)%Q) inputs ->
     runTicks cfg grid inputs p = Returned p' -> satisfactionInRange p') /\
  (forall q type rnd,
     satisfactionInRange (initializeAIPedestrianShopping cfg q type rnd)).
Proof.
  intros Hr Hg Hp. repeat split.
  - intros dt Hd. now apply decay_in_range.
  - intros rnd now. now apply complete_in_range.
  - intros inputs. revert p Hp.
    induction inputs as [|i rest IH]; intros p Hp p' Hall; simpl.
    + now intros [= <-].
    + inversion Hall as [|? ? Hi Hrest]; subst.
      destruct (updateAIPedestrianShopping cfg p grid (tickDelta i)
                  (tickGameTime i) (tickNow i) (tickRnd1 i) (tickRnd2 i))
        as [q| |] eqn:E; simpl; try discriminate.
      intros H. apply (IH q); [|exact Hrest|exact H].
      eapply update_in_range; eauto.
  - simpl. lra.
  - simpl. lra.
Qed.

Lemma satisfaction_stays_in_unit_interval_witness :
  satisfactionInRange
    (completeShoppingActivity AI_PEDESTRIAN_CONFIG shopper0 (1 # 2) 0).
Proof.
  refine (proj1 (proj2
    (satisfaction_stays_in_unit_interval AI_PEDESTRIAN_CONFIG shopper0 [] _ _ _))
    (1 # 2)%Q 0%Q).
  - vm_compute. discriminate.
  - vm_compute. discriminate.
  - vm_compute. split; discriminate.
Defined.

(** ** The scenario of one completed episode *)

Lemma inject_Z_range (k lo hi : Z) :
  lo <= k <= hi -> (inject_Z lo <= inject_Z k)%Q /\ (inject_Z k <= inject_Z hi)%Q.
Proof. intros [H1 H2]. split; now rewrite <- Zle_Qle. Qed.

(** C9: an agent with budget 1000 and satisfaction 0.5, in an episode of
    duration 10 with progress 0 and nothing spent yet, updated by one tick of
    10.1 seconds under the shipped configuration: the episode completes in
    that tick (shopping is off, progress is back to 0), the items bought are
    between 1 and 5, the total spent is items times 50, which is also that
    amount capped at 1000, and the satisfaction is
    min(1, max(0, 0.5 - 0.01 * 10.1) + 0.3), which is 0.699: the decay comes
    before the bonus. *)
Theorem scenario_episode_completes
    (p : Pedestrian) (grid : Grid) (gameTime now rnd1 rnd2 b s pr d t : Q) :
  isAI p = true -> isShopping p = true ->
  shoppingBudget p = Some b -> (b == 1000 # 1)%Q ->
  satisfactionLevel p = Some s -> (s == 1 # 2)%Q ->
  shoppingProgress p = Some pr -> (pr == 0)%Q ->
  shoppingDuration p = Some d -> (d == 10 # 1)%Q ->
  totalMoneySpent p = Some t -> (t == 0)%Q ->
  (0 <= rnd1)%Q -> (rnd1 < 1)%Q ->
  exists p' items t' s',
    updateAIPedestrianShopping AI_PEDESTRIAN_CONFIG p grid (101 # 10)
      gameTime now rnd1 rnd2 = Returned p' /\
    isShopping p' = false /\ shoppingProgress p' = Some 0%Q /\
    itemsBought p' = Some items /\ 1 <= items <= 5 /\
    totalMoneySpent p' = Some t' /\
    (t' == inject_Z items * (50 # 1))%Q /\
    (t' == Math.min (inject_Z items * (50 # 1)) (1000 # 1))%Q /\
    satisfactionLevel p' = Some s' /\
    (s' == Math.min 1 (Math.max 0 ((1 # 2) - (1 # 100) * (101 # 10)) + (3 # 10)))%Q /\
    (s' == 699 # 1000)%Q.
Proof.
  intros HAI Hshop Hb Eb Hs Es Hpr Epr Hd Ed Ht Et H0 H1.
  assert (Ns : ~ (s == 0)%Q) by (rewrite Es; discriminate).
  assert (Nd : ~ (d == 0)%Q) by (rewrite Ed; discriminate).
  assert (Nb : ~ (b == 0)%Q) by (rewrite Eb; discriminate).
  unfold updateAIPedestrianShopping. rewrite HAI. simpl.
  rewrite Hshop, Hpr, Hd. rewrite (orElse_nonzero d 1 Nd).
  assert (G : geQ (pr + (101 # 10) / d) 1 = true).
  { apply geQ_spec. rewrite Epr, Ed. vm_compute. discriminate. }
  rewrite G. unfold completeShoppingActivity. simpl. rewrite Hshop. simpl.
  pose proof (drawItems_range rnd1 H0 H1) as Hitems.
  pose proof (inject_Z_range _ _ _ Hitems) as [I1 I5].
  change (inject_Z 1) with 1%Q in I1. change (inject_Z 5) with 5%Q in I5.
  do 4 eexists. split; [reflexivity|]. simpl.
  split; [reflexivity|]. split; [reflexivity|]. split; [reflexivity|].
  split; [exact Hitems|]. split; [reflexivity|].
  unfold actualSpending. simpl. rewrite Hb, Ht.
  rewrite (orElse_nonzero b 0 Nb). rewrite (orElse_zero t 0 Et).
  unfold decaySatisfaction. rewrite Hs. simpl.
  apply Qeq_bool_false in Ns. rewrite Ns. simpl.
  set (k := inject_Z (drawItems rnd1)) in *. clearbody k.
  split; [name_minmax; lra|]. split; [name_minmax; lra|].
  split; [reflexivity|].
  match goal with
  | |- context [Qeq_bool ?x 0] => destruct (Qeq_bool x 0) eqn:E
  end.
  - apply Qeq_bool_iff in E. name_minmax. split; lra.
  - name_minmax. split; lra.
Qed.

Lemma scenario_episode_completes_witness :
  exists p' items t' s',
    updateAIPedestrianShopping AI_PEDESTRIAN_CONFIG shopper0 [] (101 # 10)
      0 0 (1 # 2) 0 = Returned p' /\
    isShopping p' = false /\ shoppingProgress p' = Some 0%Q /\
    itemsBought p' = Some items /\ 1 <= items <= 5 /\
    totalMoneySpent p' = Some t' /\
    (t' == inject_Z items * (50 # 1))%Q /\
    (t' == Math.min (inject_Z items * (50 # 1)) (1000 # 1))%Q /\
    satisfactionLevel p' = Some s' /\
    (s' == Math.min 1 (Math.max 0 ((1 # 2) - (1 # 100) * (101 # 10)) + (3 # 10)))%Q /\
    (s' == 699 # 1000)%Q.
Proof.
  apply (scenario_episode_completes shopper0 [] 0 0 (1 # 2) 0
           (1000 # 1) (1 # 2) 0 (10 # 1) 0);
    try reflexivity; vm_compute; discriminate.
Defined.

(** ** The shopping trigger *)

Lemma shouldGoShopping_ceiling (cfg : Config) (p : Pedestrian) (rnd : Q) :
  shouldGoShopping cfg p rnd = true -> (rnd < 1 # 2)%Q.
Proof.
  unfold shouldGoShopping.
  destruct (negb (truthyS (aiType p)) || negb (truthy (shoppingBudget p)));
    [discriminate|].
  destruct (aiType p) as [type|]; [|discriminate].
  intros H. apply ltQ_spec in H. unfold shoppingThreshold in H.
  name_minmax. lra.
Qed.

Lemma shouldGoShopping_guard (cfg : Config) (p : Pedestrian) (rnd : Q) :
  truthyS (aiType p) = false \/ truthy (shoppingBudget p) = false ->
  shouldGoShopping cfg p rnd = false.
Proof.
  intros [H|H]; unfold shouldGoShopping; rewrite H; simpl; [reflexivity|].
  now rewrite orb_true_r.
Qed.

(** C10: an agent that is not shopping and whose budget is 0 or missing, or
    whose archetype tag is missing, gets [false] from the trigger decision
    for every random draw and every satisfaction level, and every update of
    it, on any grid and for any elapsed time, returns with shopping still
    off. *)
Theorem no_budget_or_archetype_never_shops
    (cfg : Config) (p : Pedestrian) :
  isShopping p = false ->
  (shoppingBudget p = None \/
   (exists b, shoppingBudget p = Some b /\ (b == 0)%Q) \/
   aiType p = None) ->
  (forall rnd, shouldGoShopping cfg p rnd = false) /\
  (forall grid dt gameTime now rnd1 rnd2,
     exists p',
       updateAIPedestrianShopping cfg p grid dt gameTime now rnd1 rnd2
       = Returned p' /\
       isShopping p' = false /\ shoppingBudget p' = shoppingBudget p /\
       aiType p' = aiType p).
Proof.
  intros Hshop Hcase.
  assert (G : truthyS (aiType p) = false \/ truthy (shoppingBudget p) = false).
  { destruct Hcase as [H|[[b [H E]]|H]]; rewrite H; simpl; auto.
    right. apply Qeq_bool_iff in E. now rewrite E. }
  split.
  - intros rnd. now apply shouldGoShopping_guard.
  - intros grid dt gameTime now rnd1 rnd2.
    unfold updateAIPedestrianShopping.
    destruct (isAI p); simpl; [|eexists; repeat split; eauto].
    rewrite Hshop.
    rewrite shouldGoShopping_guard by exact G.
    eexists. repeat split. simpl. exact Hshop.
Qed.

Lemma no_budget_or_archetype_never_shops_witness :
  shouldGoShopping AI_PEDESTRIAN_CONFIG brokeShopper (1 # 10) = false.
Proof.
  refine (proj1
    (no_budget_or_archetype_never_shops AI_PEDESTRIAN_CONFIG brokeShopper _ _)
    (1 # 10)%Q).
  - reflexivity.
  - right. left. exists 0%Q. split; reflexivity.
Defined.

(** C4, as stated, fails: a shopper that is not shopping, with satisfaction
    0.5 and an empty purse, is never triggered, although the formula gives
    the probability 0.5, so the draw 0 lies below it. *)
Lemma trigger_formula_fails_on_empty_purse :
  shouldGoShopping AI_PEDESTRIAN_CONFIG brokeShopper 0 = false /\
  (0 < specTriggerProbability AI_PEDESTRIAN_CONFIG AIPedestrianType.SHOPPER (1 # 2) 0)%Q /\
  ~ triggerFollowsFormula AI_PEDESTRIAN_CONFIG.
Proof.
  split; [reflexivity|]. split; [reflexivity|].
  intros H.
  specialize (H brokeShopper AIPedestrianType.SHOPPER (1 # 2)%Q 0%Q 0%Q
                eq_refl eq_refl eq_refl eq_refl).
  destruct H as [_ H]. discriminate H. reflexivity.
Qed.

(** A satisfaction of exactly 0 is read as 0.5 by [||]: the leisurer below is
    not triggered by the draw 0.35, which is under the formula's 0.45. *)
Example zero_satisfaction_reads_as_half :
  shouldGoShopping AI_PEDESTRIAN_CONFIG unhappyLeisurer (35 # 100) = false /\
  (35 # 100 < specTriggerProbability AI_PEDESTRIAN_CONFIG
                AIPedestrianType.LEISURER 0 (500 # 1))%Q.
Proof. split; reflexivity. Qed.

(** C4, amended: for every agent and every draw, the trigger fires only on
    draws below 0.5; for an agent with an archetype tag, a budget that is not
    zero and a satisfaction that is present and not zero it fires exactly on
    the draws below min(0.5, base(archetype) + (1 - satisfaction) *
    satisfactionWeight + min(1, budget / maxBudget) * budgetWeight), a
    missing satisfaction counting as 0.5; with a missing archetype tag or a
    zero or missing budget it never fires. *)
Theorem trigger_probability_amended
    (cfg : Config) (p : Pedestrian) (rnd : Q) :
  (shouldGoShopping cfg p rnd = true -> (rnd < 1 # 2)%Q) /\
  (forall type b,
     aiType p = Some type -> type <> EmptyString ->
     shoppingBudget p = Some b -> ~ (b == 0)%Q ->
     (forall s, satisfactionLevel p = Some s -> ~ (s == 0)%Q ->
        (shouldGoShopping cfg p rnd = true
         <-> (rnd < specTriggerProbability cfg type s b)%Q)) /\
     (satisfactionLevel p = None ->
        (shouldGoShopping cfg p rnd = true
         <-> (rnd < specTriggerProbability cfg type (1 # 2) b)%Q))) /\
  (truthyS (aiType p) = false \/ truthy (shoppingBudget p) = false ->
   shouldGoShopping cfg p rnd = false).
Proof.
  split; [apply shouldGoShopping_ceiling|].
  split; [|apply shouldGoShopping_guard].
  intros type b Ht Hne Hb Nb.
  assert (Hstep : forall s',
            orElse (satisfactionLevel p) (5 # 10) == s' ->
            (shouldGoShopping cfg p rnd = true
             <-> (rnd < specTriggerProbability cfg type s' b)%Q)).
  { intros s' Es. unfold shouldGoShopping. rewrite Ht, Hb. simpl.
    apply String.eqb_neq in Hne. rewrite Hne.
    pose proof Nb as Nb'. apply Qeq_bool_false in Nb'. rewrite Nb'. simpl.
    rewrite ltQ_spec. unfold shoppingThreshold, specTriggerProbability.
    rewrite Hb, (orElse_nonzero b 0 Nb). rewrite Es.
    name_minmax. split; intros; lra. }
  split.
  - intros s Hs Ns. apply Hstep. rewrite Hs, (orElse_nonzero s _ Ns). reflexivity.
  - intros Hs. apply Hstep. rewrite Hs. reflexivity.
Qed.

Lemma trigger_probability_amended_witness :
  shouldGoShopping AI_PEDESTRIAN_CONFIG shopper0 (1 # 4) = true
  <-> (1 # 4 < specTriggerProbability AI_PEDESTRIAN_CONFIG
                 AIPedestrianType.SHOPPER (1 # 2) (1000 # 1))%Q.
Proof.
  refine (proj1 (proj1 (proj2
    (trigger_probability_amended AI_PEDESTRIAN_CONFIG shopper0 (1 # 4)))
    AIPedestrianType.SHOPPER (1000 # 1)%Q _ _ _ _) (1 # 2)%Q _ _).
  - reflexivity.
  - discriminate.
  - reflexivity.
  - vm_compute. discriminate.
  - reflexivity.
  - vm_compute. discriminate.
Defined.

(** ** The sub-state of an episode *)

Lemma start_sets_browsing (cfg : Config) (p p' : Pedestrian) (grid : Grid)
    (rnd : Q) :
  startShoppingActivity cfg p grid rnd = Returned p' ->
  shoppingActivity p' = Some browsing.
Proof.
  unfold startShoppingActivity. destruct (findNearestShop cfg p grid); simpl;
    try discriminate.
  intros [= <-]. reflexivity.
Qed.

(** No update moves an agent to the paying or the leaving sub-state: after an
    update the sub-state is the one before it, browsing, or none. *)
Lemma update_activity (cfg : Config) (p p' : Pedestrian) (grid : Grid)
    (dt gameTime now rnd1 rnd2 : Q) :
  updateAIPedestrianShopping cfg p grid dt gameTime now rnd1 rnd2 = Returned p' ->
  shoppingActivity p' = shoppingActivity p \/
  shoppingActivity p' = Some browsing \/
  shoppingActivity p' = None.
Proof.
  unfold updateAIPedestrianShopping.
  destruct (isAI p); simpl; [|intros [= <-]; auto].
  set (q := withSatisfaction p (decaySatisfaction cfg p dt)).
  assert (Hsel : forall r,
            (if shouldGoShopping cfg q rnd1
             then startShoppingActivity cfg q grid rnd2
             else Returned q) = Returned r ->
            shoppingActivity r = shoppingActivity p \/
            shoppingActivity r = Some browsing \/ shoppingActivity r = None).
  { intros r. destruct (shouldGoShopping cfg q rnd1).
    - intros H. apply start_sets_browsing in H. auto.
    - intros [= <-]. auto. }
  destruct (isShopping p); [|apply Hsel].
  destruct (shoppingProgress p) as [pr|]; [|apply Hsel].
  match goal with |- context [geQ ?a ?b] => destruct (geQ a b) end.
  - intros [= <-]. unfold completeShoppingActivity. simpl.
    destruct (isShopping p); simpl; auto.
  - intros [= <-]. auto.
Qed.

(** C3, evaluated on the code: an idle shopper is triggered and starts an
    episode of 10 seconds in the browsing sub-state; 5 seconds later it is at
    progress 0.5, inside the paying band, but its sub-state is still
    browsing and the offset applied to it is the browsing sway. *)
Theorem substate_ignores_progress_band
    (sin cos : Q -> Q) (PI rnd1 rnd2 : Q) :
  exists p1 p2 pr,
    updateAIPedestrianShopping AI_PEDESTRIAN_CONFIG idleShopper [] 0 0 0 0 0
    = Returned p1 /\
    isShopping p1 = true /\ shoppingActivity p1 = Some browsing /\
    updateAIPedestrianShopping AI_PEDESTRIAN_CONFIG p1 [] (5 # 1) 0 0 rnd1 rnd2
    = Returned p2 /\
    isShopping p2 = true /\
    shoppingProgress p2 = Some pr /\ (pr == 1 # 2)%Q /\
    specBand pr = paying /\
    shoppingActivity p2 = Some browsing /\
    getShoppingAnimationOffset AI_PEDESTRIAN_CONFIG sin cos PI p2 pr rnd1 rnd2
    = ((sin (pr * PI * 4) * (5 # 1))%Q,
       (cos (pr * PI * 4) * ((5 # 1) * (5 # 10)))%Q).
Proof.
  do 3 eexists. split; [vm_compute; reflexivity|].
  split; [reflexivity|]. split; [reflexivity|].
  split; [vm_compute; reflexivity|].
  repeat split; reflexivity.
Qed.

(** ** Loops *)

(** An invariant indexed by the list of the indices already visited. *)
Lemma forList_invariant {S : Type} (body : Z -> S -> Outcome S)
    (P : list Z -> S -> Prop) :
  (forall done i s s', P done s -> body i s = Returned s' -> P (done ++ [i]) s') ->
  forall idxs done s s',
    P done s -> forList body idxs s = Returned s' -> P (done ++ idxs) s'.
Proof.
  intros Hstep. induction idxs as [|i rest IH]; intros done s s' HP; simpl.
  - intros [= <-]. now rewrite app_nil_r.
  - destruct (body i s) as [s1| |] eqn:E; simpl; try discriminate.
    intros H. replace (done ++ i :: rest) with ((done ++ [i]) ++ rest)
      by now rewrite <- app_assoc.
    eapply IH; [|exact H]. eapply Hstep; eauto.
Qed.

(** A loop whose body returns at every index returns. *)
Lemma forList_returns {S : Type} (body : Z -> S -> Outcome S) (idxs : list Z) :
  (forall i s, i ∈ idxs -> exists s', body i s = Returned s') ->
  forall s, exists s', forList body idxs s = Returned s'.
Proof.
  induction idxs as [|i rest IH]; intros Hb s; simpl; [eauto|].
  destruct (Hb i s) as [s1 E]; [left|]. rewrite E. simpl.
  apply IH. intros j t Hj. apply Hb. now right.
Qed.

(** ** The nearest shop *)

Section NearestShop.

Variable cfg : Config.
Variable p : Pedestrian.
Variable grid : Grid.

Local Abbreviation R := (searchRange (navigation cfg)).

Lemma scanInv_cell (V : Coord -> Prop) (x y : Z) (st st' : option Coord * Z) :
  scanInv cfg p grid V st ->
  nearestShopCell p grid x y st = Returned st' ->
  scanInv cfg p grid (fun c => V c \/ c = (x, y)) st'.
Proof.
  intros [Hbest Hmin]. unfold nearestShopCell.
  destruct (tileAt grid x y) as [tile|] eqn:Et; simpl; [|discriminate].
  destruct (includes commercialTypes (btype (building tile))) eqn:Ei.
  - match goal with
    | |- context [?a <? ?b] =>
        change a with (sqDist p (x, y));
        destruct (Z.ltb_spec (sqDist p (x, y)) b) as [Hlt|Hge]
    end; intros [= <-].
    + split; simpl.
      * repeat split; auto.
        -- exists tile. auto.
        -- destruct (fst st); [destruct Hbest as (_ & _ & _ & ?)|]; lia.
      * intros c' [Hc'| ->] Hs; [specialize (Hmin c' Hc' Hs); lia|]. lia.
    + split.
      * destruct (fst st); [|exact Hbest].
        destruct Hbest as (? & ? & ? & ?). auto.
      * intros c' [Hc'| ->] Hs; [auto|]. lia.
  - intros [= <-]. split.
    + destruct (fst st); [|exact Hbest].
      destruct Hbest as (? & ? & ? & ?). auto.
    + intros c' [Hc'| ->] [tile' [Et' Ei']]; [apply Hmin; auto; now exists tile'|].
      simpl in Et'. congruence.
Qed.

Lemma scanInv_ext (V W : Coord -> Prop) (st : option Coord * Z) :
  (forall c, V c <-> W c) -> scanInv cfg p grid V st -> scanInv cfg p grid W st.
Proof.
  intros E [Hbest Hmin]. split.
  - destruct (fst st); [|exact Hbest].
    destruct Hbest as (? & ? & ? & ?). repeat split; auto. now apply E.
  - intros c' Hc'. apply Hmin. now apply E.
Qed.

Lemma scanInv_row (V : Coord -> Prop) (x : Z) (row0 : list Tile)
    (st st' : option Coord * Z) :
  grid !! 0%nat = Some row0 ->
  scanInv cfg p grid V st ->
  nearestShopRow cfg p grid x st = Returned st' ->
  scanInv cfg p grid (fun c => V c \/
                    (fst c = x /\
                     Z.max 0 (tileY p - R) <= snd c
                     < Z.min (Z.of_nat (length row0)) (tileY p + R))) st'.
Proof.
  intros H0 Hinv. unfold nearestShopRow. rewrite H0. simpl. unfold forZ.
  intros Hrun.
  set (P := fun (done : list Z) (s : option Coord * Z) =>
              scanInv cfg p grid (fun c => V c \/ (fst c = x /\ snd c ∈ done)) s).
  assert (Hstep : forall done y s s',
             P done s -> nearestShopCell p grid x y s = Returned s' ->
             P (done ++ [y]) s').
  { intros done y s s' Hs Hcell. unfold P in *.
    eapply scanInv_ext; [|eapply scanInv_cell; eauto].
    intros [cx cy]. simpl. rewrite elem_of_app, list_elem_of_singleton.
    split.
    - intros [[?|[? ?]]|[= -> ->]]; auto.
    - intros [?|[-> [?| ->]]]; auto. }
  assert (Hstart : P [] st).
  { unfold P. eapply scanInv_ext; [|exact Hinv].
    intros c. split; [auto|]. intros [?|[_ Hin]]; [auto|].
    now apply elem_of_nil in Hin. }
  pose proof (forList_invariant _ P Hstep _ [] st st' Hstart Hrun) as Hend.
  unfold P in Hend. eapply scanInv_ext; [|exact Hend].
  intros [cx cy]. simpl. rewrite elem_of_seqZ. split.
  - intros [?|[? ?]]; [left|right]; auto. split; auto. lia.
  - intros [?|[? ?]]; [left|right]; auto. split; auto. lia.
Qed.

Lemma tileAt_Some_bounds (x y : Z) (tile : Tile) :
  tileAt grid x y = Some tile ->
  exists row, grid !! Z.to_nat x = Some row /\ row !! Z.to_nat y = Some tile /\
              0 <= x < Z.of_nat (length grid) /\
              0 <= y < Z.of_nat (length row).
Proof.
  unfold tileAt.
  destruct (Z.ltb_spec x 0); [discriminate|].
  destruct (Z.ltb_spec y 0); [discriminate|]. simpl.
  destruct (grid !! Z.to_nat x) as [row|] eqn:Er; [|discriminate].
  intros Ht. exists row. repeat split; auto.
  - apply lookup_lt_Some in Er. lia.
  - apply lookup_lt_Some in Ht. lia.
Qed.

Lemma tileAt_rectangular (x y : Z) (row0 : list Tile) :
  rectangular grid -> grid !! 0%nat = Some row0 ->
  0 <= x < Z.of_nat (length grid) -> 0 <= y < Z.of_nat (length row0) ->
  exists tile, tileAt grid x y = Some tile.
Proof.
  intros Hrect H0 Hx Hy. unfold tileAt.
  destruct (Z.ltb_spec x 0); [lia|]. destruct (Z.ltb_spec y 0); [lia|]. simpl.
  destruct (lookup_lt_is_Some_2 grid (Z.to_nat x)) as [row Er]; [lia|].
  rewrite Er. apply lookup_lt_is_Some_2.
  rewrite (Hrect row row0 H0); [lia|]. eapply list_elem_of_lookup_2; eauto.
Qed.

Lemma scanInv_grid (row0 : list Tile) (st : option Coord * Z) :
  grid !! 0%nat = Some row0 ->
  forZ (Z.max 0 (tileX p - R))
       (Z.min (Z.of_nat (length grid)) (tileX p + R))
       (nearestShopRow cfg p grid) (None, R * R) = Returned st ->
  scanInv cfg p grid (scanned cfg p grid row0) st.
Proof.
  intros H0 Hrun. unfold forZ in Hrun.
  set (P := fun (done : list Z) (s : option Coord * Z) =>
              scanInv cfg p grid (fun c => fst c ∈ done /\
                                Z.max 0 (tileY p - R) <= snd c
                                < Z.min (Z.of_nat (length row0)) (tileY p + R)) s).
  assert (Hstep : forall done x s s',
             P done s -> nearestShopRow cfg p grid x s = Returned s' ->
             P (done ++ [x]) s').
  { intros done x s s' Hs Hrow. unfold P in *.
    eapply scanInv_ext; [|eapply scanInv_row; eauto].
    intros [cx cy]. simpl. rewrite elem_of_app, list_elem_of_singleton.
    tauto. }
  assert (Hstart : P [] (None, R * R)).
  { unfold P. split; simpl; [reflexivity|].
    intros c' [Hin _]. now apply elem_of_nil in Hin. }
  pose proof (forList_invariant _ P Hstep _ [] _ st Hstart Hrun) as Hend.
  unfold P in Hend. eapply scanInv_ext; [|exact Hend].
  intros [cx cy]. unfold scanned. simpl. rewrite elem_of_seqZ. lia.
Qed.

Lemma scan_returns (row0 : list Tile) (st : option Coord * Z) :
  rectangular grid -> grid !! 0%nat = Some row0 ->
  exists st',
    forZ (Z.max 0 (tileX p - R))
         (Z.min (Z.of_nat (length grid)) (tileX p + R))
         (nearestShopRow cfg p grid) st = Returned st'.
Proof.
  intros Hrect H0. unfold forZ. apply forList_returns.
  intros x s Hx. apply elem_of_seqZ in Hx.
  unfold nearestShopRow. rewrite H0. simpl. unfold forZ.
  apply forList_returns. intros y s1 Hy. apply elem_of_seqZ in Hy.
  unfold nearestShopCell.
  destruct (tileAt_rectangular x y row0 Hrect H0) as [tile Et]; [lia|lia|].
  rewrite Et. simpl.
  destruct (includes commercialTypes (btype (building tile))); eauto.
  destruct (_ <? _); eauto.
Qed.

Lemma candidate_scanned (row0 : list Tile) (c : Coord) :
  rectangular grid -> grid !! 0%nat = Some row0 ->
  shopCandidate cfg p grid c -> scanned cfg p grid row0 c.
Proof.
  intros Hrect H0 ([tile [Et _]] & [Wx Wy] & Hd).
  apply tileAt_Some_bounds in Et. destruct Et as (row & Er & _ & Bx & By).
  rewrite (Hrect row row0 H0) in By by (eapply list_elem_of_lookup_2; eauto).
  unfold sqDist in Hd. unfold scanned.
  assert (fst c - tileX p < R) by nia.
  assert (snd c - tileY p < R) by nia.
  lia.
Qed.

Lemma scanned_window (row0 : list Tile) (c : Coord) :
  scanned cfg p grid row0 c -> inWindow R p c.
Proof. unfold scanned, inWindow. lia. Qed.

Lemma findNearestShop_returns :
  rectangular grid -> exists r, findNearestShop cfg p grid = Returned r.
Proof.
  intros Hrect. unfold findNearestShop.
  destruct grid as [|row0 rest] eqn:Eg.
  - exists None. unfold forZ. simpl length. rewrite seqZ_nil by lia.
    reflexivity.
  - rewrite <- Eg in *.
    assert (H0 : grid !! 0%nat = Some row0) by now rewrite Eg.
    destruct (scan_returns row0 (None, R * R) Hrect H0) as [st Hrun].
    exists (fst st). rewrite Hrun. reflexivity.
Qed.

End NearestShop.

(** C5, as stated, fails: with the shipped search range of 10 and the agent
    on tile (0,0), the only shop, on tile (0,10), lies inside the window
    [-10,10] x [-10,10], and yet no shop is returned. *)
Lemma nearest_shop_misses_window_edge :
  rectangular shopAtEdgeGrid /\
  isShopAt shopAtEdgeGrid (0, 10) /\
  inWindow (searchRange (navigation AI_PEDESTRIAN_CONFIG)) shopper0 (0, 10) /\
  findNearestShop AI_PEDESTRIAN_CONFIG shopper0 shopAtEdgeGrid = Returned None.
Proof.
  split; [|split; [|split]].
  - intros row row0 [= <-] Hin. apply list_elem_of_singleton in Hin. now subst.
  - exists shopTile. split; reflexivity.
  - unfold inWindow. simpl. lia.
  - reflexivity.
Qed.

(** The same for a shop that the loops do visit: tile (7,8) is at squared
    distance 113, not below 10 * 10. *)
Example nearest_shop_misses_window_corner :
  isShopAt shopAtCornerGrid (7, 8) /\
  inWindow (searchRange (navigation AI_PEDESTRIAN_CONFIG)) shopper0 (7, 8) /\
  findNearestShop AI_PEDESTRIAN_CONFIG shopper0 shopAtCornerGrid = Returned None.
Proof.
  split; [|split].
  - exists shopTile. split; reflexivity.
  - unfold inWindow. simpl. lia.
  - reflexivity.
Qed.

(** C5, amended: on a grid whose rows all have the length of the first,
    [findNearestShop] returns; a returned coordinate is a shop tile inside
    the window [origin - range, origin + range] on both axes, strictly closer
    to the agent than the search range, and of minimal squared distance
    among all such tiles; none is returned exactly when there is no shop tile
    inside the window strictly closer than the search range. *)
Theorem findNearestShop_amended (cfg : Config) (p : Pedestrian) (grid : Grid) :
  rectangular grid ->
  exists r,
    findNearestShop cfg p grid = Returned r /\
    (forall c, r = Some c ->
       shopCandidate cfg p grid c /\
       forall c', shopCandidate cfg p grid c' -> sqDist p c <= sqDist p c') /\
    (r = None <-> forall c', ~ shopCandidate cfg p grid c').
Proof.
  intros Hrect. unfold findNearestShop.
  destruct grid as [|row0 rest] eqn:Eg.
  - exists None. split; [|split].
    + unfold forZ. simpl length.
      rewrite (seqZ_nil) by lia. reflexivity.
    + discriminate.
    + split; [|reflexivity]. intros _ c' ([tile [Et _]] & _).
      unfold tileAt in Et. destruct (_ || _); [discriminate|].
      now rewrite lookup_nil in Et.
  - rewrite <- Eg in *.
    assert (H0 : grid !! 0%nat = Some row0) by now rewrite Eg.
    destruct (scan_returns cfg p grid row0
                (None, searchRange (navigation cfg) * searchRange (navigation cfg))
                Hrect H0) as [st Hrun].
    exists (fst st). rewrite Hrun. simpl. split; [reflexivity|].
    pose proof (scanInv_grid cfg p grid row0 st H0 Hrun) as [Hbest Hmin].
    assert (Hcand : forall c', shopCandidate cfg p grid c' ->
                               snd st <= sqDist p c').
    { intros c' Hc'. apply Hmin.
      - now apply candidate_scanned.
      - now destruct Hc'. }
    split.
    + intros c Ec. rewrite Ec in Hbest. destruct Hbest as (Hv & Hs & Hd & Hlt).
      split.
      * split; [exact Hs|]. split; [eapply scanned_window; eauto|]. lia.
      * intros c' Hc'. rewrite Hd. now apply Hcand.
    + split.
      * intros En c' Hc'. rewrite En in Hbest.
        pose proof (Hcand c' Hc'). destruct Hc' as (_ & _ & ?). lia.
      * intros Hnone. destruct (fst st) as [c|]; [|reflexivity].
        destruct Hbest as (Hv & Hs & Hd & Hlt). exfalso. apply (Hnone c).
        split; [exact Hs|]. split; [eapply scanned_window; eauto|]. lia.
Qed.

Lemma findNearestShop_amended_witness :
  exists r,
    findNearestShop AI_PEDESTRIAN_CONFIG shopper0 shopNearbyGrid = Returned r /\
    (forall c, r = Some c ->
       shopCandidate AI_PEDESTRIAN_CONFIG shopper0 shopNearbyGrid c /\
       forall c', shopCandidate AI_PEDESTRIAN_CONFIG shopper0 shopNearbyGrid c' ->
                  sqDist shopper0 c <= sqDist shopper0 c') /\
    (r = None <->
     forall c', ~ shopCandidate AI_PEDESTRIAN_CONFIG shopper0 shopNearbyGrid c').
Proof.
  apply (findNearestShop_amended AI_PEDESTRIAN_CONFIG shopper0 shopNearbyGrid).
  intros row row0 H0 Hin. simpl in H0. injection H0 as <-.
  apply list_elem_of_singleton in Hin. now subst.
Defined.

Example nearest_shop_found :
  findNearestShop AI_PEDESTRIAN_CONFIG shopper0 shopNearbyGrid
  = Returned (Some (0, 2)).
Proof. reflexivity. Qed.

(** ** The flood fill *)

Section FloodFill.

Variable grid : Grid.
Variable gridSize : Z.
Variable maxTiles : nat.
Variable start : Coord.

Lemma unvisitedNeighbours_adjacent (seen : gset Coord) (x y : Z) (c : Coord) :
  c ∈ unvisitedNeighbours seen x y -> adjacent4 (x, y) c.
Proof.
  unfold unvisitedNeighbours. rewrite list_elem_of_filter.
  intros [_ Hin]. unfold directions4 in Hin. simpl in Hin.
  rewrite !elem_of_cons, elem_of_nil in Hin.
  destruct Hin as [->|[->|[->|[->|[]]]]]; unfold adjacent4; simpl.
  - left. f_equal; lia.
  - right; left. f_equal; lia.
  - right; right; left. f_equal; lia.
  - right; right; right. f_equal; lia.
Qed.

Lemma unvisitedNeighbours_length (seen : gset Coord) (x y : Z) :
  (length (unvisitedNeighbours seen x y) <= 4)%nat.
Proof.
  unfold unvisitedNeighbours.
  etransitivity; [apply length_filter|]. now rewrite length_map.
Qed.

(** One iteration keeps the invariant. *)
Lemma bfsStep_inv (st st' : BfsState) (x y : Z) (rest : list Coord) :
  bfsInv grid gridSize maxTiles start st -> queue st = (x, y) :: rest ->
  (length (waterTiles st) < maxTiles)%nat ->
  bfsStep grid gridSize st x y rest = Returned st' ->
  bfsInv grid gridSize maxTiles start st'.
Proof.
  intros [Hnd Hw Hq Hl] Eq Hlt. unfold bfsStep.
  assert (Hq' : forall c, c ∈ rest ->
                  c = start \/
                  exists w, connected grid gridSize start w /\ adjacent4 w c).
  { intros c Hc. apply Hq. rewrite Eq. now right. }
  case_bool_decide as Hvis.
  { intros [= <-]. now constructor. }
  assert (Hw' : forall c, c ∈ waterTiles st ->
                  c ∈ visited st ∪ {[(x, y)]} /\ inBounds gridSize c /\
                  isWaterAt grid c /\ connected grid gridSize start c).
  { intros c Hc. destruct (Hw c Hc) as (Hv & Hrest).
    split; [apply elem_of_union; now left|exact Hrest]. }
  destruct ((x <? 0) || (gridSize <=? x) || (y <? 0) || (gridSize <=? y))
    eqn:Eb.
  { intros [= <-]. now constructor. }
  destruct (tileAt grid y x) as [tile|] eqn:Et; simpl; [|discriminate].
  destruct (String.eqb_spec (btype (building tile)) "water") as [Ew|Ew]; simpl.
  2:{ intros [= <-]. now constructor. }
  intros [= <-].
  assert (Hb : inBounds gridSize (x, y)).
  { unfold inBounds. simpl.
    repeat (apply orb_false_iff in Eb as [Eb ?]). lia. }
  assert (Hwat : isWaterAt grid (x, y)) by (exists tile; auto).
  assert (Hconn : connected grid gridSize start (x, y)).
  { destruct (Hq (x, y)) as [E|[w [Hcw Hadj]]].
    - rewrite Eq. now left.
    - rewrite E in Hb, Hwat |- *. now apply connected_start.
    - eapply connected_step; eauto. }
  constructor; simpl.
  - apply NoDup_app. split; [exact Hnd|]. split; [|apply NoDup_singleton].
    intros c Hc Hc'. apply list_elem_of_singleton in Hc'. subst c.
    apply Hvis. now apply Hw.
  - intros c Hc. apply elem_of_app in Hc as [Hc|Hc]; [now apply Hw'|].
    apply list_elem_of_singleton in Hc. subst c.
    split; [apply elem_of_union; right; now apply elem_of_singleton|].
    repeat split; auto; apply Hb.
  - intros c Hc. apply elem_of_app in Hc as [Hc|Hc]; [now apply Hq'|].
    right. exists (x, y). split; [exact Hconn|].
    eapply unvisitedNeighbours_adjacent; eauto.
  - rewrite length_app. simpl. lia.
Qed.

Lemma bfsStep_measure (st st' : BfsState) (x y : Z) (rest : list Coord) :
  queue st = (x, y) :: rest ->
  (length (waterTiles st) < maxTiles)%nat ->
  bfsStep grid gridSize st x y rest = Returned st' ->
  (bfsMeasure maxTiles st' < bfsMeasure maxTiles st)%nat.
Proof.
  intros Eq Hlt. unfold bfsStep, bfsMeasure. rewrite Eq.
  case_bool_decide; [intros [= <-]; simpl; lia|].
  destruct (_ || _); [intros [= <-]; simpl; lia|].
  destruct (tileAt grid y x) as [tile|]; simpl; [|discriminate].
  destruct (negb _); intros [= <-]; simpl; [lia|].
  rewrite !length_app. simpl.
  pose proof (unvisitedNeighbours_length (visited st ∪ {[(x, y)]}) x y).
  lia.
Qed.

Lemma bfsStep_finishes (st : BfsState) (x y : Z) (rest : list Coord) :
  bfsStep grid gridSize st x y rest <> Unfinished.
Proof.
  unfold bfsStep. case_bool_decide; [discriminate|].
  destruct (_ || _); [discriminate|].
  destruct (tileAt grid y x) as [tile|]; simpl; [|discriminate].
  destruct (negb _); discriminate.
Qed.

(** The loop leaves by its own condition or by a [TypeError], never by
    running out of iterations, once the fuel covers the measure. *)
Lemma bfsLoop_finishes (fuel : nat) (st : BfsState) :
  (bfsMeasure maxTiles st <= fuel)%nat ->
  bfsLoop fuel grid gridSize maxTiles st <> Unfinished.
Proof.
  revert st. induction fuel as [|fuel IH]; intros st Hm.
  - simpl. destruct (queue st) as [|[x y] rest] eqn:Eq; [discriminate|].
    destruct (Nat.ltb_spec (length (waterTiles st)) maxTiles) as [Hlt|Hge];
      simpl; [|discriminate].
    exfalso. unfold bfsMeasure in Hm. rewrite Eq in Hm. simpl in Hm. lia.
  - simpl. destruct (queue st) as [|[x y] rest] eqn:Eq; [discriminate|].
    destruct (Nat.ltb_spec (length (waterTiles st)) maxTiles) as [Hlt|Hge];
      simpl; [|discriminate].
    destruct (bfsStep grid gridSize st x y rest) as [st'| |] eqn:Es; simpl;
      try discriminate.
    + apply IH. pose proof (bfsStep_measure st st' x y rest Eq Hlt Es). lia.
    + now apply bfsStep_finishes in Es.
Qed.

(** What the loop returns, from any state that satisfies the invariant. *)
Lemma bfsLoop_result (fuel : nat) (st : BfsState) (tiles : list Coord) :
  bfsInv grid gridSize maxTiles start st ->
  bfsLoop fuel grid gridSize maxTiles st = Returned tiles ->
  (length tiles <= maxTiles)%nat /\ NoDup tiles /\
  forall c, c ∈ tiles ->
    inBounds gridSize c /\ isWaterAt grid c /\ connected grid gridSize start c.
Proof.
  revert st. induction fuel as [|fuel IH]; intros st Hinv.
  - simpl. destruct (queue st) as [|[x y] rest].
    + intros [= <-]. destruct Hinv as [Hnd Hw _ Hl].
      repeat split; auto; now apply Hw.
    + destruct (negb _); [|discriminate].
      intros [= <-]. destruct Hinv as [Hnd Hw _ Hl].
      repeat split; auto; now apply Hw.
  - simpl. destruct (queue st) as [|[x y] rest] eqn:Eq.
    + intros [= <-]. destruct Hinv as [Hnd Hw _ Hl].
      repeat split; auto; now apply Hw.
    + destruct (Nat.ltb_spec (length (waterTiles st)) maxTiles) as [Hlt|Hge];
        simpl.
      * destruct (bfsStep grid gridSize st x y rest) as [st'| |] eqn:Es; simpl;
          try discriminate.
        apply IH. eapply bfsStep_inv; eauto.
      * intros [= <-]. destruct Hinv as [Hnd Hw _ Hl].
        repeat split; auto; now apply Hw.
Qed.

(** On a grid that covers the square no iteration raises. *)
Lemma bfsLoop_returns (fuel : nat) (st : BfsState) :
  covers grid gridSize -> (bfsMeasure maxTiles st <= fuel)%nat ->
  exists tiles, bfsLoop fuel grid gridSize maxTiles st = Returned tiles.
Proof.
  intros Hcov. revert st. induction fuel as [|fuel IH]; intros st Hm.
  - pose proof (bfsLoop_finishes 0 st Hm) as Hf. simpl in *.
    destruct (queue st) as [|[x y] rest]; [eauto|].
    destruct (negb _); [eauto|]. congruence.
  - simpl. destruct (queue st) as [|[x y] rest] eqn:Eq; [eauto|].
    destruct (Nat.ltb_spec (length (waterTiles st)) maxTiles) as [Hlt|Hge];
      simpl; [|eauto].
    assert (Hs : exists st', bfsStep grid gridSize st x y rest = Returned st').
    { unfold bfsStep. case_bool_decide; [eauto|].
      destruct ((x <? 0) || (gridSize <=? x) || (y <? 0) || (gridSize <=? y))
        eqn:Eb; [eauto|].
      repeat (apply orb_false_iff in Eb as [Eb ?]).
      destruct (Hcov y x) as [tile Et]; [lia|lia|]. rewrite Et. simpl.
      destruct (negb _); eauto. }
    destruct Hs as [st' Es]. rewrite Es. simpl.
    apply IH. pose proof (bfsStep_measure st st' x y rest Eq Hlt Es). lia.
Qed.

End FloodFill.

Lemma guarded_cases {A : Type} (gridSize : Z) (empty : A) (run : Outcome A) :
  (gridSize <= 0 /\ guarded gridSize empty run = Returned empty) \/
  (0 < gridSize /\ guarded gridSize empty run = run).
Proof.
  unfold guarded. destruct (Z.leb_spec gridSize 0); [left|right]; auto.
Qed.

Lemma covers_water5 : covers water5 5.
Proof.
  intros i j Hi Hj.
  assert (Ci : i = 0 \/ i = 1 \/ i = 2 \/ i = 3 \/ i = 4) by lia.
  assert (Cj : j = 0 \/ j = 1 \/ j = 2 \/ j = 3 \/ j = 4) by lia.
  exists waterTile.
  destruct Ci as [->|[->|[->|[->| ->]]]];
    destruct Cj as [->|[->|[->|[->| ->]]]]; reflexivity.
Qed.

(** C6: the flood fill never runs out of iterations; whatever list it
    returns has at most [maxTiles] tiles, no tile twice, and only tiles that
    are inside the square, are water, and are reached from the start by a
    path of 4-connected water tiles inside the square; and on a grid that
    has a tile at every coordinate of the square it does return a list. *)
Theorem flood_fill_bounded_connected
    (grid : Grid) (gridSize startTileX startTileY : Z) (maxTiles : nat) :
  findConnectedWaterTiles grid gridSize startTileX startTileY maxTiles
  <> Unfinished /\
  (forall tiles,
     findConnectedWaterTiles grid gridSize startTileX startTileY maxTiles
     = Returned tiles ->
     (length tiles <= maxTiles)%nat /\ NoDup tiles /\
     forall c, c ∈ tiles ->
       inBounds gridSize c /\ isWaterAt grid c /\
       connected grid gridSize (startTileX, startTileY) c) /\
  (covers grid gridSize ->
   exists tiles,
     findConnectedWaterTiles grid gridSize startTileX startTileY maxTiles
     = Returned tiles).
Proof.
  unfold findConnectedWaterTiles.
  set (st0 := mkBfsState ∅ [] [(startTileX, startTileY)]).
  assert (Hm : (bfsMeasure maxTiles st0 <= 4 * maxTiles + 1)%nat).
  { unfold bfsMeasure. simpl. lia. }
  assert (Hinv : bfsInv grid gridSize maxTiles (startTileX, startTileY) st0).
  { constructor; simpl.
    - apply NoDup_nil_2.
    - intros c Hc. now apply elem_of_nil in Hc.
    - intros c Hc. apply list_elem_of_singleton in Hc. now left.
    - lia. }
  destruct (guarded_cases gridSize []
              (bfsLoop (4 * maxTiles + 1) grid gridSize maxTiles st0))
    as [[Hle ->]|[Hlt ->]].
  - split; [discriminate|]. split; [|eauto].
    intros tiles [= <-]. split; [simpl; lia|]. split; [apply NoDup_nil_2|].
    intros c Hc. now apply elem_of_nil in Hc.
  - split; [now apply bfsLoop_finishes|]. split.
    + intros tiles Hrun. eapply bfsLoop_result; eauto.
    + intros Hcov. now apply bfsLoop_returns.
Qed.

Lemma flood_fill_bounded_connected_witness :
  exists tiles, findConnectedWaterTiles water5 5 2 2 200 = Returned tiles.
Proof.
  apply (proj2 (proj2 (flood_fill_bounded_connected water5 5 2 2 200))).
  exact covers_water5.
Defined.

(** The scenario of the specification: on the 5 x 5 grid of water, the fill
    from (2,2) with a bound of 200 returns all 25 tiles. *)
Example flood_fill_water5 :
  exists tiles,
    findConnectedWaterTiles water5 5 2 2 200 = Returned tiles /\
    length tiles = 25%nat /\
    forall x y, 0 <= x < 5 -> 0 <= y < 5 -> (x, y) ∈ tiles.
Proof.
  eexists. split; [vm_compute; reflexivity|]. split; [reflexivity|].
  intros x y Hx Hy.
  assert (Cx : x = 0 \/ x = 1 \/ x = 2 \/ x = 3 \/ x = 4) by lia.
  assert (Cy : y = 0 \/ y = 1 \/ y = 2 \/ y = 3 \/ y = 4) by lia.
  destruct Cx as [->|[->|[->|[->| ->]]]];
    destruct Cy as [->|[->|[->|[->| ->]]]];
    rewrite !elem_of_cons; tauto.
Qed.

(** ** Tour waypoints *)

Section TourWaypointsProps.

Variable gridToScreen : Z -> Z -> Q -> Q -> Q * Q.
Variable TILE_WIDTH TILE_HEIGHT : Q.
Variable sortTiles : list (Coord * nat) -> list (Coord * nat).

Local Abbreviation mkWaypoint := (makeWaypoint gridToScreen TILE_WIDTH TILE_HEIGHT).
Local Abbreviation stepSpaced := (spacedStep gridToScreen TILE_WIDTH TILE_HEIGHT).
Local Abbreviation selectSpaced :=
  (spacedSelection gridToScreen TILE_WIDTH TILE_HEIGHT).
Local Abbreviation fillRandom := (randomFill gridToScreen TILE_WIDTH TILE_HEIGHT).

Lemma numWaypointsFor_range (size : nat) :
  2 <= numWaypointsFor size <= 6 /\
  ((3 <= size)%nat -> numWaypointsFor size <= Z.of_nat size).
Proof.
  unfold numWaypointsFor.
  pose proof (Z.div_le_upper_bound (Z.of_nat size) 10 (Z.of_nat size)).
  lia.
Qed.

Lemma tooClose_false (tile : Coord) (wps : list TourWaypoint.t)
    (wp : TourWaypoint.t) :
  tooClose tile wps = false -> wp ∈ wps ->
  apart3 wp (mkWaypoint tile).
Proof.
  unfold tooClose. intros H Hin.
  assert (Hc : closerThan3 tile wp = false).
  { destruct (closerThan3 tile wp) eqn:E; [|reflexivity].
    assert (existsb (closerThan3 tile) wps = true); [|congruence].
    apply existsb_exists. exists wp. split; [|exact E].
    now apply list_elem_of_In. }
  unfold closerThan3 in Hc. apply Z.ltb_ge in Hc.
  unfold apart3. simpl. lia.
Qed.

Lemma pairwiseApart_snoc (wps : list TourWaypoint.t) (w : TourWaypoint.t) :
  pairwiseApart wps -> (forall wp, wp ∈ wps -> apart3 wp w) ->
  pairwiseApart (wps ++ [w]).
Proof.
  intros Hp Hw i j a b Hij Ha Hb.
  assert (Hj : (j < length (wps ++ [w]))%nat) by (eapply lookup_lt_Some; eauto).
  rewrite length_app in Hj. simpl in Hj.
  rewrite lookup_app_l in Ha by lia.
  destruct (decide (j < length wps)%nat) as [Hlt|Hge].
  - rewrite lookup_app_l in Hb by lia. exact (Hp i j a b Hij Ha Hb).
  - assert (j = length wps) by lia. subst j.
    rewrite list_lookup_middle in Hb by reflexivity. injection Hb as <-.
    apply Hw. eapply list_elem_of_lookup_2; eauto.
Qed.

Lemma spacedStep_inv (n : nat) (st : list TourWaypoint.t * gset Z)
    (entry : Coord * nat) :
  spacedInv n st -> spacedInv (S n) (stepSpaced st entry).
Proof.
  intros (Hp & Hl & Hs). unfold spacedStep.
  destruct (tooClose (fst entry) (fst st)) eqn:E.
  - repeat split; auto.
  - unfold spacedInv. cbn [fst snd]. split; [|split].
    + apply pairwiseApart_snoc; [exact Hp|].
      intros wp Hin. eapply tooClose_false; eauto.
    + rewrite length_app. simpl. lia.
    + rewrite length_app. simpl.
      rewrite size_union_alt.
      pose proof (subseteq_size ({[Z.of_nat (snd entry)]} ∖ snd st)
                    ({[Z.of_nat (snd entry)]} : gset Z)) as Hsub.
      rewrite size_singleton in Hsub.
      assert ((size ({[Z.of_nat (snd entry)]} ∖ snd st) <= 1)%nat).
      { apply Hsub. intros z Hz. apply elem_of_difference in Hz. tauto. }
      lia.
Qed.

Lemma fold_spacedStep_inv (entries : list (Coord * nat)) (n : nat)
    (st : list TourWaypoint.t * gset Z) :
  spacedInv n st ->
  spacedInv (n + length entries) (fold_left stepSpaced entries st).
Proof.
  revert n st. induction entries as [|e rest IH]; intros n st Hinv; simpl.
  - now rewrite Nat.add_0_r.
  - replace (n + S (length rest))%nat with (S n + length rest)%nat by lia.
    apply IH. now apply spacedStep_inv.
Qed.

Lemma spacedSelection_inv (numWaypoints : Z) (ranked : list (Coord * nat)) :
  0 <= numWaypoints ->
  let sel := selectSpaced numWaypoints ranked in
  pairwiseApart (fst sel) /\
  Z.of_nat (length (fst sel)) <= numWaypoints /\
  (size (snd sel) <= length (fst sel))%nat.
Proof.
  intros Hn sel. subst sel. unfold spacedSelection.
  assert (H0 : spacedInv 0 (([] : list TourWaypoint.t), (∅ : gset Z))).
  { repeat split; simpl; auto.
    - intros i j a b _ Ha. now rewrite lookup_nil in Ha. }
  pose proof (fold_spacedStep_inv (take (Z.to_nat numWaypoints) ranked) 0 _ H0)
    as (Hp & Hl & Hs).
  split; [exact Hp|]. split; [|exact Hs].
  simpl in Hl. rewrite length_take in Hl. lia.
Qed.

Lemma floor_index (rnd : Q) (n : nat) :
  unitDraw rnd -> (0 < n)%nat ->
  0 <= Math.floor (rnd * inject_Z (Z.of_nat n)) < Z.of_nat n.
Proof.
  intros [H0 H1] Hn. unfold Math.floor.
  assert (Hpos : (0 < inject_Z (Z.of_nat n))%Q).
  { change 0%Q with (inject_Z 0). rewrite <- Zlt_Qlt. lia. }
  set (L := inject_Z (Z.of_nat n)) in *.
  assert (Hlo : (0 <= rnd * L)%Q) by (apply Qmult_le_0_compat; lra).
  assert (Hhi : (rnd * L < 1 * L)%Q)
    by (apply Qmult_lt_compat_r; assumption).
  split.
  - change 0 with (Qfloor (inject_Z 0)). apply Qfloor_resp_le.
    exact Hlo.
  - pose proof (Qfloor_le (rnd * L)) as F.
    apply Z.lt_nge. intros G. rewrite Zle_Qle in G. fold L in G. lra.
Qed.

Lemma size_covers (n : nat) (used : gset Z) :
  (forall i, (i < n)%nat -> Z.of_nat i ∈ used) -> (n <= size used)%nat.
Proof.
  intros Hall.
  set (S := list_to_set (Z.of_nat <$> seq 0 n) : gset Z).
  assert (Hsize : size S = n).
  { unfold S. rewrite size_list_to_set.
    - now rewrite length_fmap, length_seq.
    - apply NoDup_fmap_2; [apply Nat2Z.inj'|apply NoDup_seq]. }
  rewrite <- Hsize. apply subseteq_size.
  intros z Hz. unfold S in Hz. apply elem_of_list_to_set in Hz.
  apply list_elem_of_fmap in Hz as [i [-> Hi]].
  apply elem_of_seq in Hi. apply Hall. lia.
Qed.

(** The list that the random fill returns extends the one it starts from
    and has exactly [numWaypoints] elements. *)
Lemma randomFill_result (waterTiles : list Coord) (numWaypoints : Z)
    (draws : list Q) (wps ws : list TourWaypoint.t) (used : gset Z) :
  Z.of_nat (length wps) <= numWaypoints ->
  numWaypoints <= Z.of_nat (length waterTiles) ->
  fillRandom draws waterTiles numWaypoints wps used = Returned ws ->
  Z.of_nat (length ws) = numWaypoints /\ exists extra, ws = wps ++ extra.
Proof.
  intros Hle Hnum. revert wps used Hle.
  induction draws as [|rnd rest IH]; intros wps used Hle; simpl.
  - destruct (Z.ltb_spec (Z.of_nat (length wps)) numWaypoints);
      destruct (Nat.ltb_spec (length wps) (length waterTiles)); simpl;
      try discriminate; intros [= <-];
      (split; [lia|exists []; now rewrite app_nil_r]).
  - destruct (Z.ltb_spec (Z.of_nat (length wps)) numWaypoints);
      destruct (Nat.ltb_spec (length wps) (length waterTiles)); simpl;
      try (intros [= <-]; split; [lia|exists []; now rewrite app_nil_r]).
    case_bool_decide; [now apply IH|].
    match goal with |- context [readOr ?o] => destruct o as [tile|] end;
      simpl; [|discriminate].
    intros Hrun. apply IH in Hrun; [|rewrite length_app; simpl; lia].
    destruct Hrun as [Hlen [extra ->]]. split; [exact Hlen|].
    exists (mkWaypoint tile :: extra). now rewrite <- app_assoc.
Qed.

(** The random fill returns once the draws have hit every index that is
    not used yet. *)
Lemma randomFill_returns (waterTiles : list Coord) (numWaypoints : Z)
    (draws : list Q) (wps : list TourWaypoint.t) (used : gset Z) :
  Forall unitDraw draws ->
  (size used <= length wps)%nat ->
  (forall i, (i < length waterTiles)%nat ->
     Z.of_nat i ∈ used \/
     exists rnd, rnd ∈ draws /\
       Math.floor (rnd * inject_Z (Z.of_nat (length waterTiles))) = Z.of_nat i) ->
  exists ws, fillRandom draws waterTiles numWaypoints wps used = Returned ws.
Proof.
  intros Hunit. revert wps used.
  induction Hunit as [|rnd rest Hr Hrest IH]; intros wps used Hsize Hcov; simpl.
  - destruct (Z.ltb_spec (Z.of_nat (length wps)) numWaypoints);
      destruct (Nat.ltb_spec (length wps) (length waterTiles)); simpl; eauto.
    exfalso.
    assert (length waterTiles <= size used)%nat; [|lia].
    apply size_covers. intros i Hi.
    destruct (Hcov i Hi) as [?|[r [Hin _]]]; [assumption|].
    now apply elem_of_nil in Hin.
  - destruct (Z.ltb_spec (Z.of_nat (length wps)) numWaypoints);
      destruct (Nat.ltb_spec (length wps) (length waterTiles)); simpl; eauto.
    pose proof (floor_index rnd (length waterTiles) Hr ltac:(lia)) as Hidx.
    set (idx := Math.floor (rnd * inject_Z (Z.of_nat (length waterTiles)))) in *.
    case_bool_decide as Hused.
    + apply IH; [exact Hsize|]. intros i Hi.
      destruct (Hcov i Hi) as [?|[r [Hin Hf]]]; [now left|].
      apply elem_of_cons in Hin as [->|Hin]; [|right; eauto].
      left. fold idx in Hf. now rewrite <- Hf.
    + destruct (Z.ltb_spec idx 0); [lia|].
      destruct (lookup_lt_is_Some_2 waterTiles (Z.to_nat idx)) as [tile Et];
        [lia|].
      rewrite Et. simpl. apply IH.
      * rewrite length_app. simpl.
        rewrite size_union by (now apply disjoint_singleton_r).
        rewrite size_singleton. lia.
      * intros i Hi.
        destruct (Hcov i Hi) as [?|[r [Hin Hf]]];
          [left; apply elem_of_union; now left|].
        apply elem_of_cons in Hin as [->|Hin]; [|right; eauto].
        left. fold idx in Hf. rewrite <- Hf.
        apply elem_of_union. right. now apply elem_of_singleton.
Qed.

End TourWaypointsProps.

(** C7: let [region] be the list that the flood fill returns. With fewer
    than 3 tiles the result is the empty list. Otherwise the target count is
    min(6, max(2, floor(size / 10))); the waypoints accepted by the spaced
    selection are pairwise at Euclidean distance 3 or more; every list that
    is returned has exactly the target count of waypoints, between 2 and 6,
    and starts with the spaced selection, the rest being the random fill;
    and a list is returned whenever the draws of the random fill lie in
    [0,1) and hit every index of the region. The order produced by the
    randomised sort is arbitrary. *)
Theorem tour_waypoints_count_and_spacing
    (gridToScreen : Z -> Z -> Q -> Q -> Q * Q) (TILE_WIDTH TILE_HEIGHT : Q)
    (sortTiles : list (Coord * nat) -> list (Coord * nat))
    (grid : Grid) (gridSize startTileX startTileY : Z) (draws : list Q)
    (region : list Coord) :
  findConnectedWaterTiles grid gridSize startTileX startTileY 200
  = Returned region ->
  let result :=
    generateTourWaypoints gridToScreen TILE_WIDTH TILE_HEIGHT sortTiles
      grid gridSize startTileX startTileY draws in
  let numWaypoints := numWaypointsFor (length region) in
  let spaced :=
    fst (spacedSelection gridToScreen TILE_WIDTH TILE_HEIGHT numWaypoints
           (sortTiles (imap (fun idx tile => (tile, idx)) region))) in
  ((length region < 3)%nat -> result = Returned []) /\
  ((3 <= length region)%nat ->
   numWaypoints = Z.min 6 (Z.max 2 (Z.of_nat (length region) / 10)) /\
   pairwiseApart spaced /\
   (forall ws, result = Returned ws ->
      2 <= Z.of_nat (length ws) <= 6 /\
      Z.of_nat (length ws) = numWaypoints /\
      exists extra, ws = spaced ++ extra) /\
   (Forall unitDraw draws -> drawsCover (length region) draws ->
    exists ws, result = Returned ws)).
Proof.
  intros Hfill result numWaypoints spaced.
  assert (Eres : result
                 = waypointsOfRegion gridToScreen TILE_WIDTH TILE_HEIGHT
                     sortTiles region draws).
  { subst result. unfold generateTourWaypoints. now rewrite Hfill. }
  rewrite Eres. unfold waypointsOfRegion.
  destruct (Nat.ltb_spec (length region) 3) as [Hlt|Hge].
  - split; [reflexivity|]. intros H. lia.
  - split; [intros H; lia|]. intros _.
    pose proof (numWaypointsFor_range (length region)) as [Hrange Hle].
    specialize (Hle Hge). fold numWaypoints in Hrange, Hle |- *.
    pose proof (spacedSelection_inv gridToScreen TILE_WIDTH TILE_HEIGHT
                  numWaypoints
                  (sortTiles (imap (fun idx tile => (tile, idx)) region))
                  ltac:(lia)) as (Hp & Hl & Hs).
    split; [reflexivity|]. split; [exact Hp|]. split.
    + intros ws Hrun.
      apply randomFill_result in Hrun as [Hlen Hext]; [|exact Hl|exact Hle].
      split; [lia|]. split; [exact Hlen|exact Hext].
    + intros Hunit Hcov. apply randomFill_returns; [exact Hunit|exact Hs|].
      intros i Hi. right. now apply Hcov.
Qed.

Lemma unitDraw_draws25 : Forall unitDraw draws25.
Proof.
  unfold draws25. apply Forall_forall. intros r Hr.
  apply list_elem_of_In in Hr.
  apply in_map_iff in Hr as [i [<- Hi]]. apply in_seq in Hi.
  assert (B0 : (0 <= inject_Z (Z.of_nat i))%Q).
  { change 0%Q with (inject_Z 0). rewrite <- Zle_Qle. lia. }
  assert (B2 : (inject_Z (Z.of_nat i) < 25)%Q).
  { change 25%Q with (inject_Z 25). rewrite <- Zlt_Qlt. lia. }
  split.
  - apply Qle_shift_div_l; lra.
  - apply Qlt_shift_div_r; lra.
Qed.

Lemma drawsCover_draws25 : drawsCover 25 draws25.
Proof.
  intros i Hi. exists (inject_Z (Z.of_nat i) / 25)%Q. split.
  - unfold draws25. apply list_elem_of_In, in_map_iff.
    exists i. split; [reflexivity|]. apply in_seq. lia.
  - unfold Math.floor. rewrite <- (Qfloor_Z (Z.of_nat i)) at 2.
    apply Qfloor_comp. change (inject_Z (Z.of_nat 25)) with 25%Q. field.
Qed.

Lemma tour_waypoints_count_and_spacing_witness :
  exists ws,
    generateTourWaypoints flatScreen 2 1 (fun l => l) water5 5 2 2 draws25
    = Returned ws /\
    2 <= Z.of_nat (length ws) <= 6.
Proof.
  destruct flood_fill_water5 as (region & Hfill & Hlen & _).
  destruct (tour_waypoints_count_and_spacing flatScreen 2 1 (fun l => l)
              water5 5 2 2 draws25 region Hfill) as [_ H].
  destruct H as (_ & _ & Hres & Hret); [lia|].
  destruct Hret as [ws Hws].
  - exact unitDraw_draws25.
  - rewrite Hlen. exact drawsCover_draws25.
  - exists ws. split; [exact Hws|]. now apply Hres.
Defined.

Example tour_of_water5 :
  exists ws,
    generateTourWaypoints flatScreen 2 1 (fun l => l) water5 5 2 2
      [0; 0; 1 # 2]%Q = Returned ws /\
    map (fun w => (TourWaypoint.tileX w, TourWaypoint.tileY w)) ws
    = [(2, 2); (2, 4)].
Proof. eexists. split; vm_compute; reflexivity. Qed.

(** With a source of randomness that keeps drawing the index of a tile that
    is already used, the random fill is still running after any number of
    draws. *)
Lemma randomFill_starves
    (gridToScreen : Z -> Z -> Q -> Q -> Q * Q) (TILE_WIDTH TILE_HEIGHT : Q)
    (n : nat) (waterTiles : list Coord) (numWaypoints : Z)
    (wps : list TourWaypoint.t) (used : gset Z) :
  (Z.of_nat (length wps) <? numWaypoints)
  && (length wps <? length waterTiles)%nat = true ->
  0 ∈ used ->
  randomFill gridToScreen TILE_WIDTH TILE_HEIGHT (replicate n 0%Q)
    waterTiles numWaypoints wps used = Unfinished.
Proof.
  intros Hcond Hused. induction n as [|n IH]; simpl; rewrite Hcond.
  - reflexivity.
  - assert (E : Math.floor (0 * inject_Z (Z.of_nat (length waterTiles))) = 0).
    { unfold Math.floor. transitivity (Qfloor (inject_Z 0)); [|apply Qfloor_Z].
      apply Qfloor_comp. change (inject_Z 0) with 0%Q. ring. }
    rewrite E. rewrite bool_decide_eq_true_2 by exact Hused. exact IH.
Qed.

Example random_fill_can_starve (n : nat) :
  generateTourWaypoints flatScreen 2 1 (fun l => l) water5 5 2 2
    (replicate n 0%Q) = Unfinished.
Proof.
  unfold generateTourWaypoints.
  assert (Hreg : findConnectedWaterTiles water5 5 2 2 200
                 = Returned [(2, 2); (1, 2); (3, 2); (2, 1); (2, 3); (0, 2);
                             (1, 1); (1, 3); (4, 2); (3, 1); (3, 3); (2, 0);
                             (2, 4); (0, 1); (0, 3); (1, 0); (1, 4); (4, 1);
                             (4, 3); (3, 0); (3, 4); (0, 0); (0, 4); (4, 0);
                             (4, 4)]) by (vm_compute; reflexivity).
  rewrite Hreg. clear Hreg.
  match goal with
  | |- context [Returned ?l] => set (region := l)
  end.
  change (waypointsOfRegion flatScreen 2 1 (fun l => l) region (replicate n 0%Q)
          = Unfinished).
  unfold waypointsOfRegion.
  change (length region <? 3)%nat with false. cbv iota.
  apply randomFill_starves.
  - vm_compute. reflexivity.
  - apply (bool_decide_unpack _). vm_compute. exact I.
Qed.

(** ** Totality *)

Lemma scanGrid_returns {A : Type} (grid : Grid) (gridSize : Z)
    (visit : Z -> Z -> Tile -> A -> A) (acc : A) :
  covers grid gridSize ->
  exists r, scanGrid grid gridSize visit acc = Returned r.
Proof.
  intros Hcov. unfold scanGrid, forZ. apply forList_returns.
  intros y s Hy. apply elem_of_seqZ in Hy.
  apply forList_returns. intros x s1 Hx. apply elem_of_seqZ in Hx.
  unfold scanCell. destruct (Hcov y x) as [tile Et]; [lia|lia|].
  rewrite Et. simpl. eauto.
Qed.

Lemma firstWaterIn_returns (grid : Grid) (gridSize dockX dockY : Z)
    (dirs : list (Z * Z)) :
  covers grid gridSize ->
  exists r, firstWaterIn grid gridSize dockX dockY dirs = Returned r.
Proof.
  intros Hcov. induction dirs as [|[dx dy] rest IH]; simpl; [eauto|].
  destruct ((0 <=? dockX + dx) && (dockX + dx <? gridSize)
            && (0 <=? dockY + dy) && (dockY + dy <? gridSize)) eqn:Eb;
    [|exact IH].
  repeat (apply andb_true_iff in Eb as [Eb ?]).
  destruct (Hcov (dockY + dy) (dockX + dx)) as [tile Et]; [lia|lia|].
  rewrite Et. simpl. destruct (String.eqb _ _); eauto.
Qed.

Lemma guarded_returns {A : Type} (gridSize : Z) (empty : A) (run : Outcome A) :
  (0 < gridSize -> exists r, run = Returned r) ->
  exists r, guarded gridSize empty run = Returned r.
Proof.
  intros H. destruct (guarded_cases gridSize empty run) as [[_ ->]|[Hlt ->]];
    eauto.
Qed.

Lemma guarded_empty {A : Type} (gridSize : Z) (empty : A) (run : Outcome A) :
  gridSize <= 0 -> guarded gridSize empty run = Returned empty.
Proof.
  intros H. unfold guarded. destruct (Z.leb_spec gridSize 0); [reflexivity|lia].
Qed.

Lemma randomFill_no_TypeError
    (gridToScreen : Z -> Z -> Q -> Q -> Q * Q) (TILE_WIDTH TILE_HEIGHT : Q)
    (waterTiles : list Coord) (numWaypoints : Z) (draws : list Q)
    (wps : list TourWaypoint.t) (used : gset Z) :
  Forall unitDraw draws ->
  randomFill gridToScreen TILE_WIDTH TILE_HEIGHT draws waterTiles numWaypoints
    wps used <> TypeError.
Proof.
  intros Hunit. revert wps used.
  induction Hunit as [|rnd rest Hr Hrest IH]; intros wps used; simpl.
  - destruct (_ && _); discriminate.
  - destruct (Z.ltb_spec (Z.of_nat (length wps)) numWaypoints);
      destruct (Nat.ltb_spec (length wps) (length waterTiles)); simpl;
      try discriminate.
    pose proof (floor_index rnd (length waterTiles) Hr ltac:(lia)) as Hidx.
    set (idx := Math.floor (rnd * inject_Z (Z.of_nat (length waterTiles)))) in *.
    case_bool_decide; [apply IH|].
    destruct (Z.ltb_spec idx 0); [lia|].
    destruct (lookup_lt_is_Some_2 waterTiles (Z.to_nat idx)) as [tile Et]; [lia|].
    rewrite Et. simpl. apply IH.
Qed.

Lemma update_returns (cfg : Config) (p : Pedestrian) (grid : Grid)
    (dt gameTime now rnd1 rnd2 : Q) :
  rectangular grid ->
  exists p', updateAIPedestrianShopping cfg p grid dt gameTime now rnd1 rnd2
             = Returned p'.
Proof.
  intros Hrect. unfold updateAIPedestrianShopping.
  destruct (isAI p); simpl; [|eauto].
  set (q := withSatisfaction p (decaySatisfaction cfg p dt)).
  assert (Hsel : exists p',
            (if shouldGoShopping cfg q rnd1
             then startShoppingActivity cfg q grid rnd2
             else Returned q) = Returned p').
  { destruct (shouldGoShopping cfg q rnd1); [|eauto].
    unfold startShoppingActivity.
    destruct (findNearestShop_returns cfg q grid Hrect) as [r ->]. simpl. eauto. }
  destruct (isShopping p); [|exact Hsel].
  destruct (shoppingProgress p); [|exact Hsel].
  destruct (geQ _ _); eauto.
Qed.

(** C8, as stated, fails: on the empty grid with a grid size of 1 the
    residential finder, the flood fill and the waypoint generator raise a
    [TypeError] ([grid[0]] is [undefined]); and the update of an agent that
    decides to shop raises on a grid whose second row is shorter than the
    first. *)
Lemma operations_raise_on_ill_formed_grid :
  findResidentialBuildings [] 1 = TypeError /\
  findConnectedWaterTiles [] 1 0 0 200 = TypeError /\
  generateTourWaypoints flatScreen 2 1 (fun l => l) [] 1 0 0 [] = TypeError /\
  updateAIPedestrianShopping AI_PEDESTRIAN_CONFIG idleShopper raggedGrid
    1 0 0 0 0 = TypeError.
Proof. repeat split; reflexivity. Qed.

(** C8, amended: with a grid size that is zero or negative every operation
    of the query engine returns its empty result on any grid; on a grid that
    has a tile at every coordinate of the square of the given size every
    finder and the flood fill return, and the waypoint generator does not
    raise and returns once the draws of its random fill, taken in [0,1), hit
    every index of the region; on a grid whose rows have the length of the
    first one, the empty grid included, the nearest-shop search and the
    update of any agent, shopping or not, return. *)
Theorem operations_total_on_well_formed_grids
    (gridToScreen : Z -> Z -> Q -> Q -> Q * Q) (TILE_WIDTH TILE_HEIGHT : Q)
    (sortTiles : list (Coord * nat) -> list (Coord * nat))
    (cfg : Config) (grid : Grid) (gridSize : Z) :
  (gridSize <= 0 ->
   findResidentialBuildings grid gridSize = Returned [] /\
   findPedestrianDestinations grid gridSize = Returned [] /\
   (forall type, findStations grid gridSize type = Returned []) /\
   findFires grid gridSize = Returned [] /\
   findAirports grid gridSize = Returned [] /\
   findHeliports grid gridSize = Returned [] /\
   (forall x y, findAdjacentWaterTile grid gridSize x y = Returned None) /\
   (forall x y n, findConnectedWaterTiles grid gridSize x y n = Returned []) /\
   (forall x y draws,
      generateTourWaypoints gridToScreen TILE_WIDTH TILE_HEIGHT sortTiles
        grid gridSize x y draws = Returned [])) /\
  (covers grid gridSize ->
   (exists r, findResidentialBuildings grid gridSize = Returned r) /\
   (exists r, findPedestrianDestinations grid gridSize = Returned r) /\
   (forall type, exists r, findStations grid gridSize type = Returned r) /\
   (exists r, findFires grid gridSize = Returned r) /\
   (exists r, findAirports grid gridSize = Returned r) /\
   (exists r, findHeliports grid gridSize = Returned r) /\
   (forall x y, exists r, findAdjacentWaterTile grid gridSize x y = Returned r) /\
   (forall x y n, exists r,
      findConnectedWaterTiles grid gridSize x y n = Returned r) /\
   (forall x y draws, Forall unitDraw draws ->
      generateTourWaypoints gridToScreen TILE_WIDTH TILE_HEIGHT sortTiles
        grid gridSize x y draws <> TypeError /\
      ((forall region,
          findConnectedWaterTiles grid gridSize x y 200 = Returned region ->
          drawsCover (length region) draws) ->
       exists ws,
         generateTourWaypoints gridToScreen TILE_WIDTH TILE_HEIGHT sortTiles
           grid gridSize x y draws = Returned ws))) /\
  (rectangular grid ->
   forall p,
     (exists r, findNearestShop cfg p grid = Returned r) /\
     (forall dt gameTime now rnd1 rnd2, exists p',
        updateAIPedestrianShopping cfg p grid dt gameTime now rnd1 rnd2
        = Returned p')).
Proof.
  split; [|split].
  - intros Hle. repeat split; intros;
      try (unfold generateTourWaypoints, findConnectedWaterTiles;
           rewrite guarded_empty by exact Hle; reflexivity);
      now apply guarded_empty.
  - intros Hcov.
    assert (Hfill : forall x y n, exists r,
               findConnectedWaterTiles grid gridSize x y n = Returned r).
    { intros x y n. unfold findConnectedWaterTiles. apply guarded_returns.
      intros _. apply bfsLoop_returns; [exact Hcov|].
      unfold bfsMeasure. simpl. lia. }
    split; [apply guarded_returns; intros _; now apply scanGrid_returns|].
    split; [apply guarded_returns; intros _; now apply scanGrid_returns|].
    split; [intros type; apply guarded_returns; intros _;
            now apply scanGrid_returns|].
    split; [apply guarded_returns; intros _; now apply scanGrid_returns|].
    split; [apply guarded_returns; intros _; now apply scanGrid_returns|].
    split; [apply guarded_returns; intros _; now apply scanGrid_returns|].
    split; [intros x y; apply guarded_returns; intros _;
            now apply firstWaterIn_returns|].
    split; [exact Hfill|].
    intros x y draws Hunit.
    destruct (Hfill x y 200%nat) as [region Hreg].
    unfold generateTourWaypoints. rewrite Hreg. simpl.
    unfold waypointsOfRegion. split.
    + destruct (length region <? 3)%nat; [discriminate|].
      now apply randomFill_no_TypeError.
    + intros Hdraws. specialize (Hdraws region eq_refl).
      destruct (Nat.ltb_spec (length region) 3) as [Hlt|Hge]; [eauto|].
      pose proof (numWaypointsFor_range (length region)) as [Hrange _].
      pose proof (spacedSelection_inv gridToScreen TILE_WIDTH TILE_HEIGHT
                    (numWaypointsFor (length region))
                    (sortTiles (imap (fun idx tile => (tile, idx)) region))
                    ltac:(lia)) as (_ & _ & Hs).
      apply randomFill_returns; [assumption|exact Hs|].
      intros i Hi. right. now apply Hdraws.
  - intros Hrect p. split.
    + now apply findNearestShop_returns.
    + intros. now apply update_returns.
Qed.

Lemma operations_total_on_well_formed_grids_witness :
  exists r, findResidentialBuildings water5 5 = Returned r.
Proof.
  refine (proj1 (proj1 (proj2
    (operations_total_on_well_formed_grids flatScreen 2 1 (fun l => l)
       AI_PEDESTRIAN_CONFIG water5 5)) _)).
  exact covers_water5.
Defined.

(** * Further properties *)

#[local] Arguments orElse : simpl never.
#[local] Arguments orElseZ : simpl never.

(** ** Money *)

Lemma update_cases (cfg : Config) (p p' : Pedestrian) (grid : Grid)
    (dt gameTime now rnd1 rnd2 : Q) :
  updateAIPedestrianShopping cfg p grid dt gameTime now rnd1 rnd2 = Returned p' ->
  let q := withSatisfaction p (decaySatisfaction cfg p dt) in
  (isAI p = false /\ p' = p) \/
  (isAI p = true /\
   ((exists pr, isShopping p = true /\ shoppingProgress p = Some pr /\
               let pr' := (pr + dt / orElse (shoppingDuration p) 1)%Q in
               ((1 <= pr')%Q /\
                p' = completeShoppingActivity cfg
                       (withProgress q pr' (hasBag p)) rnd1 now) \/
               ((pr' < 1)%Q /\ p' = withProgress q pr' true)) \/
    ((isShopping p = false \/ shoppingProgress p = None) /\
     ((shouldGoShopping cfg q rnd1 = true /\
       startShoppingActivity cfg q grid rnd2 = Returned p') \/
      (shouldGoShopping cfg q rnd1 = false /\ p' = q))))).
Proof.
  unfold updateAIPedestrianShopping. intros H.
  set (q := withSatisfaction p (decaySatisfaction cfg p dt)) in *.
  destruct (isAI p); simpl in H;
    [right; split; [reflexivity|]|left; split; congruence].
  assert (Hsel : (if shouldGoShopping cfg q rnd1
                  then startShoppingActivity cfg q grid rnd2
                  else Returned q) = Returned p' ->
                 (shouldGoShopping cfg q rnd1 = true /\
                  startShoppingActivity cfg q grid rnd2 = Returned p') \/
                 (shouldGoShopping cfg q rnd1 = false /\ p' = q)).
  { destruct (shouldGoShopping cfg q rnd1); [left|right]; split; congruence. }
  destruct (isShopping p); [|right; split; [now left|now apply Hsel]].
  destruct (shoppingProgress p) as [pr|];
    [|right; split; [now right|now apply Hsel]].
  left. exists pr. split; [reflexivity|]. split; [reflexivity|].
  match type of H with context [geQ ?a ?b] => destruct (geQ a b) eqn:G end.
  - left. apply geQ_spec in G. split; [exact G|congruence].
  - right. split; [|congruence].
    apply Qnot_le_lt. intros L. apply geQ_spec in L. congruence.
Qed.

Lemma start_fields (cfg : Config) (p p' : Pedestrian) (grid : Grid) (rnd : Q) :
  startShoppingActivity cfg p grid rnd = Returned p' ->
  shoppingBudget p' = shoppingBudget p /\
  totalMoneySpent p' = totalMoneySpent p /\
  shopVisitsToday p' = shopVisitsToday p /\
  isAI p' = isAI p /\ aiType p' = aiType p /\
  isShopping p' = true /\ shoppingProgress p' = Some 0%Q /\
  shoppingActivity p' = Some browsing /\
  shoppingDuration p'
  = Some (rnd * (maxDuration (shopping cfg) - minDuration (shopping cfg))
          + minDuration (shopping cfg))%Q.
Proof.
  unfold startShoppingActivity. destruct (findNearestShop cfg p grid); simpl;
    try discriminate.
  intros [= <-]. repeat split; reflexivity.
Qed.

Lemma update_conserves_money (cfg : Config) (p p' : Pedestrian) (grid : Grid)
    (dt gameTime now rnd1 rnd2 : Q) :
  updateAIPedestrianShopping cfg p grid dt gameTime now rnd1 rnd2 = Returned p' ->
  (budgetOf p' + spentOf p' == budgetOf p + spentOf p)%Q.
Proof.
  intros H. apply update_cases in H. unfold budgetOf, spentOf.
  destruct H as [[_ ->]|[_ [(pr & Hs & _ & [[_ ->]|[_ ->]])|[_ [[_ H]|[_ ->]]]]]];
    try reflexivity.
  - unfold completeShoppingActivity. simpl. rewrite Hs. simpl.
    rewrite !orElse_eq_zero_default. ring.
  - apply start_fields in H as (-> & -> & _). reflexivity.
Qed.

Lemma run_conserves_money_aux (cfg : Config) (grid : Grid)
    (inputs : list TickInput) (p p' : Pedestrian) :
  runTicks cfg grid inputs p = Returned p' ->
  (budgetOf p' + spentOf p' == budgetOf p + spentOf p)%Q.
Proof.
  revert p. induction inputs as [|i rest IH]; intros p; simpl.
  - intros [= <-]. reflexivity.
  - destruct (updateAIPedestrianShopping cfg p grid (tickDelta i)
                (tickGameTime i) (tickNow i) (tickRnd1 i) (tickRnd2 i))
      as [q| |] eqn:E; simpl; try discriminate.
    intros H. rewrite (IH q H). eapply update_conserves_money; eauto.
Qed.

(** X1: through any sequence of updates that returns, the budget and the
    cumulative spend, read as the code reads them, keep the same sum: every
    unit debited from the budget is credited to the total. *)
Theorem run_conserves_money (cfg : Config) (grid : Grid)
    (inputs : list TickInput) (p p' : Pedestrian) :
  runTicks cfg grid inputs p = Returned p' ->
  (budgetOf p' + spentOf p' == budgetOf p + spentOf p)%Q.
Proof. apply run_conserves_money_aux. Qed.

Lemma run_conserves_money_witness :
  exists p',
    runTicks AI_PEDESTRIAN_CONFIG [] threeTicks shopper0 = Returned p' /\
    (budgetOf p' + spentOf p' == budgetOf shopper0 + spentOf shopper0)%Q.
Proof.
  eexists. split; [vm_compute; reflexivity|].
  apply (run_conserves_money AI_PEDESTRIAN_CONFIG [] threeTicks shopper0).
  vm_compute. reflexivity.
Defined.

Lemma drawItems_positive (rnd : Q) : (0 <= rnd)%Q -> 1 <= drawItems rnd.
Proof.
  intros H0. unfold drawItems, Math.floor.
  assert (L : 0 <= Qfloor (rnd * 5)); [|lia].
  change 0 with (Qfloor (inject_Z 0)). apply Qfloor_resp_le.
  change (inject_Z 0) with 0%Q. lra.
Qed.

Lemma actualSpending_bounds (cfg : Config) (p : Pedestrian) (rnd : Q) :
  (0 <= averageItemPrice (economy cfg))%Q -> (0 <= rnd)%Q ->
  (0 <= budgetOf p)%Q ->
  (0 <= actualSpending cfg p rnd)%Q /\ (actualSpending cfg p rnd <= budgetOf p)%Q.
Proof.
  intros Hprice Hrnd Hb. unfold actualSpending, budgetOf in *.
  pose proof (drawItems_positive rnd Hrnd) as Hi.
  assert (Hq : (0 <= inject_Z (drawItems rnd))%Q).
  { change 0%Q with (inject_Z 0). rewrite <- Zle_Qle. lia. }
  pose proof (Qmult_le_0_compat _ _ Hq Hprice) as Hs.
  set (s := (inject_Z (drawItems rnd) * averageItemPrice (economy cfg))%Q) in *.
  clearbody s. name_minmax. lra.
Qed.

Lemma complete_budget (cfg : Config) (q : Pedestrian) (rnd now : Q) :
  isShopping q = true ->
  (budgetOf (completeShoppingActivity cfg q rnd now)
   == budgetOf q - actualSpending cfg q rnd)%Q.
Proof.
  intros Es. unfold completeShoppingActivity. rewrite Es.
  unfold budgetOf. cbn [negb shoppingBudget].
  apply orElse_eq_zero_default.
Qed.


Lemma update_budget_bounds (cfg : Config) (p p' : Pedestrian) (grid : Grid)
    (dt gameTime now rnd1 rnd2 : Q) :
  (0 <= averageItemPrice (economy cfg))%Q -> (0 <= rnd1)%Q ->
  (0 <= budgetOf p)%Q ->
  updateAIPedestrianShopping cfg p grid dt gameTime now rnd1 rnd2 = Returned p' ->
  (0 <= budgetOf p')%Q /\ (budgetOf p' <= budgetOf p)%Q.
Proof.
  intros Hprice Hrnd Hb H. apply update_cases in H.
  destruct H as [[_ ->]|[_ [(pr & Hs & _ & [[_ ->]|[_ ->]])|[_ [[_ H]|[_ ->]]]]]];
    try (split; [exact Hb|apply Qle_refl]).
  - set (q := withProgress (withSatisfaction p (decaySatisfaction cfg p dt))
                (pr + dt / orElse (shoppingDuration p) 1) (hasBag p)).
    assert (Eq : budgetOf q = budgetOf p) by reflexivity.
    pose proof (actualSpending_bounds cfg q rnd1 Hprice Hrnd) as Ha.
    rewrite Eq in Ha. specialize (Ha Hb).
    assert (Es : isShopping q = true) by exact Hs.
    rewrite (complete_budget cfg q rnd1 now Es), Eq. lra.
  - apply start_fields in H as (E & _). unfold budgetOf. rewrite E.
    split; [exact Hb|apply Qle_refl].
Qed.

(** X2: with an item price that is not negative and draws in [0,1), an
    agent whose budget is not negative keeps it so through any sequence of
    updates; the budget never grows and the cumulative spend never
    shrinks. *)
Theorem run_budget_never_negative (cfg : Config) (grid : Grid)
    (inputs : list TickInput) (p p' : Pedestrian) :
  (0 <= averageItemPrice (economy cfg))%Q ->
  Forall tickOk inputs ->
  (0 <= budgetOf p)%Q ->
  runTicks cfg grid inputs p = Returned p' ->
  (0 <= budgetOf p')%Q /\ (budgetOf p' <= budgetOf p)%Q /\
  (spentOf p <= spentOf p')%Q.
Proof.
  intros Hprice Hok Hb Hrun.
  assert (Hbounds : (0 <= budgetOf p')%Q /\ (budgetOf p' <= budgetOf p)%Q).
  { revert p Hb Hrun. induction Hok as [|i rest Hi Hrest IH]; intros p Hb; simpl.
    - intros [= <-]. split; [exact Hb|apply Qle_refl].
    - destruct (updateAIPedestrianShopping cfg p grid (tickDelta i)
                  (tickGameTime i) (tickNow i) (tickRnd1 i) (tickRnd2 i))
        as [q| |] eqn:E; simpl; try discriminate.
      intros H. destruct Hi as (_ & [Hr _] & _).
      pose proof (update_budget_bounds _ _ _ _ _ _ _ _ _ Hprice Hr Hb E)
        as [Hq0 Hq1].
      destruct (IH q Hq0 H) as [H0 H1]. split; [exact H0|lra]. }
  destruct Hbounds as [H0 H1]. split; [exact H0|]. split; [exact H1|].
  pose proof (run_conserves_money_aux cfg grid inputs p p' Hrun). lra.
Qed.

Lemma tickOk_threeTicks : Forall tickOk threeTicks.
Proof.
  unfold threeTicks, tickOk, unitDraw.
  repeat constructor; simpl; vm_compute; congruence.
Qed.

Lemma run_budget_never_negative_witness :
  exists p',
    runTicks AI_PEDESTRIAN_CONFIG [] threeTicks shopper0 = Returned p' /\
    (0 <= budgetOf p')%Q /\ (budgetOf p' <= budgetOf shopper0)%Q /\
    (spentOf shopper0 <= spentOf p')%Q.
Proof.
  eexists. split; [vm_compute; reflexivity|].
  apply (run_budget_never_negative AI_PEDESTRIAN_CONFIG [] threeTicks shopper0).
  - vm_compute. discriminate.
  - exact tickOk_threeTicks.
  - vm_compute. discriminate.
  - vm_compute. reflexivity.
Defined.

(** ** The episode state machine *)

Lemma scaled_draw_range (rnd lo hi : Q) :
  unitDraw rnd -> (lo <= hi)%Q ->
  (lo <= rnd * (hi - lo) + lo)%Q /\ (rnd * (hi - lo) + lo <= hi)%Q.
Proof.
  intros [H0 H1] Hle.
  assert (Hw : (0 <= hi - lo)%Q) by lra.
  pose proof (Qmult_le_0_compat _ _ H0 Hw) as Hlo.
  assert (Hhi : (rnd * (hi - lo) <= 1 * (hi - lo))%Q).
  { apply Qmult_le_compat_r; lra. }
  lra.
Qed.

Lemma update_episodeInv (cfg : Config) (p p' : Pedestrian) (grid : Grid)
    (dt gameTime now rnd1 rnd2 : Q) :
  (0 < minDuration (shopping cfg))%Q ->
  (minDuration (shopping cfg) <= maxDuration (shopping cfg))%Q ->
  (0 <= dt)%Q -> unitDraw rnd2 ->
  episodeInv cfg p ->
  updateAIPedestrianShopping cfg p grid dt gameTime now rnd1 rnd2 = Returned p' ->
  episodeInv cfg p'.
Proof.
  intros Hmin Hle Hdt Hr2 Hinv H. apply update_cases in H.
  unfold episodeInv in *.
  destruct H as [[_ ->]|[_ [(pr & Hs & Hpr & [[_ ->]|[Hlt ->]])|[Hn [[_ H]|[_ ->]]]]]].
  - exact Hinv.
  - unfold completeShoppingActivity. simpl. rewrite Hs. reflexivity.
  - simpl. rewrite Hs in *. destruct Hinv as (pr0 & d & E1 & P0 & P1 & E2 & D0 & D1 & A).
    rewrite Hpr in E1. injection E1 as <-. rewrite E2 in Hlt |- *.
    assert (Nd : ~ (d == 0)%Q) by lra.
    rewrite (orElse_nonzero d 1 Nd) in Hlt |- *.
    exists (pr + dt / d)%Q, d. repeat split; auto.
    assert (0 <= dt / d)%Q; [|lra].
    apply Qle_shift_div_l; lra.
  - apply start_fields in H as (_ & _ & _ & _ & _ & -> & -> & -> & ->).
    destruct (scaled_draw_range rnd2 _ _ Hr2 Hle) as [L U].
    do 2 eexists. repeat split; try reflexivity; auto; lra.
  - exact Hinv.
Qed.

(** X3: with a configured duration range that is positive and ordered,
    elapsed times that are not negative and draws in [0,1), the episode
    fields keep their shape through any sequence of updates: an agent that
    is shopping is browsing, at a progress in [0,1), for a duration inside
    the configured range, and an agent that is not shopping has no
    sub-state. A freshly initialised agent has this shape. *)
Theorem run_keeps_episode_shape (cfg : Config) (grid : Grid)
    (inputs : list TickInput) (p p' : Pedestrian) :
  (0 < minDuration (shopping cfg))%Q ->
  (minDuration (shopping cfg) <= maxDuration (shopping cfg))%Q ->
  Forall tickOk inputs ->
  episodeInv cfg p ->
  runTicks cfg grid inputs p = Returned p' ->
  episodeInv cfg p' /\
  (forall q type rnd,
     episodeInv cfg (initializeAIPedestrianShopping cfg q type rnd)).
Proof.
  intros Hmin Hle Hok Hinv Hrun. split; [|reflexivity].
  revert p Hinv Hrun. induction Hok as [|i rest Hi Hrest IH]; intros p Hinv; simpl.
  - now intros [= <-].
  - destruct (updateAIPedestrianShopping cfg p grid (tickDelta i)
                (tickGameTime i) (tickNow i) (tickRnd1 i) (tickRnd2 i))
      as [q| |] eqn:E; simpl; try discriminate.
    destruct Hi as (Hd & _ & Hr2).
    apply IH. eapply update_episodeInv; eauto.
Qed.

Lemma run_keeps_episode_shape_witness :
  exists p',
    runTicks AI_PEDESTRIAN_CONFIG [] threeTicks shopper0 = Returned p' /\
    episodeInv AI_PEDESTRIAN_CONFIG p'.
Proof.
  eexists. split; [vm_compute; reflexivity|].
  apply (run_keeps_episode_shape AI_PEDESTRIAN_CONFIG [] threeTicks shopper0).
  - vm_compute. reflexivity.
  - vm_compute. discriminate.
  - exact tickOk_threeTicks.
  - unfold episodeInv. simpl. exists 0%Q, (10 # 1)%Q.
    repeat split; try reflexivity; vm_compute; congruence.
  - vm_compute. reflexivity.
Defined.




Lemma inject_Z_succ (n : nat) :
  (inject_Z (Z.of_nat (S n)) == inject_Z (Z.of_nat n) + 1)%Q.
Proof.
  rewrite Nat2Z.inj_succ. unfold Z.succ. rewrite inject_Z_plus. reflexivity.
Qed.




(** ** The trigger *)

Lemma Qdiv_le_compat (a b c : Q) : (0 < c)%Q -> (a <= b)%Q -> (a / c <= b / c)%Q.
Proof.
  intros Hc Hab. unfold Qdiv. apply Qmult_le_compat_r; [exact Hab|].
  apply Qinv_le_0_compat. lra.
Qed.

Lemma Qmin_le_compat_r (a b c : Q) : (b <= c)%Q -> (Qmin a b <= Qmin a c)%Q.
Proof. intros H. apply Q.min_le_compat_l. exact H. Qed.

(** X5: the trigger is monotone. With weights that are not negative and a
    positive budget ceiling, a draw that triggers an agent still triggers it
    when its satisfaction is lower, and when its budget is higher (the
    values compared being different from 0, which the code reads as a
    missing value). *)
Theorem trigger_monotone (cfg : Config) (p : Pedestrian) (rnd : Q) :
  (0 <= satisfactionMultiplier (shopping cfg))%Q ->
  (0 <= budgetMultiplier (shopping cfg))%Q ->
  (0 < maxBudget (shopping cfg))%Q ->
  (forall s1 s2, ~ (s1 == 0)%Q -> ~ (s2 == 0)%Q -> (s1 <= s2)%Q ->
     shouldGoShopping cfg (withSatisfaction p (Some s2)) rnd = true ->
     shouldGoShopping cfg (withSatisfaction p (Some s1)) rnd = true) /\
  (forall b1 b2, ~ (b1 == 0)%Q -> ~ (b2 == 0)%Q -> (b1 <= b2)%Q ->
     shouldGoShopping cfg (withBudget p (Some b1)) rnd = true ->
     shouldGoShopping cfg (withBudget p (Some b2)) rnd = true).
Proof.
  intros Hsm Hbm Hmax. split.
  - intros s1 s2 N1 N2 Hle. unfold shouldGoShopping.
    cbn [aiType shoppingBudget withSatisfaction].
    destruct (negb (truthyS (aiType p)) || negb (truthy (shoppingBudget p)));
      [discriminate|].
    destruct (aiType p) as [type|]; [|discriminate].
    rewrite !ltQ_spec. unfold shoppingThreshold.
    cbn [satisfactionLevel shoppingBudget withSatisfaction].
    rewrite (orElse_nonzero s1 _ N1), (orElse_nonzero s2 _ N2).
    assert (Hd : (0 <= (s2 - s1) * satisfactionMultiplier (shopping cfg))%Q)
      by (apply Qmult_le_0_compat; lra).
    set (m := satisfactionMultiplier (shopping cfg)) in *.
    set (bf := (Math.min 1 (orElse (shoppingBudget p) 0 / maxBudget (shopping cfg))
                * budgetMultiplier (shopping cfg))%Q).
    clearbody bf.
    assert (Hprod : ((1 - s2) * m <= (1 - s1) * m)%Q) by lra.
    set (x1 := ((1 - s1) * m)%Q) in *. set (x2 := ((1 - s2) * m)%Q) in *.
    clearbody x1 x2. intros H. name_minmax. lra.
  - intros b1 b2 N1 N2 Hle. unfold shouldGoShopping.
    cbn [aiType shoppingBudget withBudget]. unfold truthy.
    apply Qeq_bool_false in N1, N2. rewrite N1, N2.
    destruct (negb (truthyS (aiType p)) || negb (negb false)); [discriminate|].
    destruct (aiType p) as [type|]; [|discriminate].
    rewrite !ltQ_spec. unfold shoppingThreshold.
    cbn [satisfactionLevel shoppingBudget withBudget].
    apply Qeq_bool_false in N1, N2.
    rewrite (orElse_nonzero b1 _ N1), (orElse_nonzero b2 _ N2).
    pose proof (Qdiv_le_compat b1 b2 _ Hmax Hle) as Hdiv.
    set (d1 := (b1 / maxBudget (shopping cfg))%Q) in *.
    set (d2 := (b2 / maxBudget (shopping cfg))%Q) in *.
    assert (Hmin : (Math.min 1 d1 <= Math.min 1 d2)%Q)
      by (apply Qmin_le_compat_r; exact Hdiv).
    set (m1 := Math.min 1 d1) in *. set (m2 := Math.min 1 d2) in *.
    assert (Hprod : (m1 * budgetMultiplier (shopping cfg)
                     <= m2 * budgetMultiplier (shopping cfg))%Q)
      by (apply Qmult_le_compat_r; assumption).
    set (x1 := (m1 * budgetMultiplier (shopping cfg))%Q) in *.
    set (x2 := (m2 * budgetMultiplier (shopping cfg))%Q) in *.
    clearbody x1 x2 m1 m2.
    set (sf := ((1 - orElse (satisfactionLevel p) (5 # 10))
                * satisfactionMultiplier (shopping cfg))%Q).
    clearbody sf. intros H. name_minmax. lra.
Qed.

Lemma trigger_monotone_witness :
  shouldGoShopping AI_PEDESTRIAN_CONFIG
    (withSatisfaction unhappyLeisurer (Some (1 # 10))) (3 # 10) = true.
Proof.
  refine (proj1 (trigger_monotone AI_PEDESTRIAN_CONFIG unhappyLeisurer (3 # 10)
                   _ _ _) (1 # 10)%Q (2 # 10)%Q _ _ _ _).
  - vm_compute. discriminate.
  - vm_compute. discriminate.
  - vm_compute. reflexivity.
  - vm_compute. discriminate.
  - vm_compute. discriminate.
  - vm_compute. discriminate.
  - vm_compute. reflexivity.
Defined.

(** X6: the shopper archetype saturates the trigger. With weights that are
    not negative and a positive budget ceiling, a shopper with a positive
    budget and a satisfaction of at most 1 is triggered exactly by the draws
    below 0.5, whatever its satisfaction and budget are. *)
Theorem shopper_trigger_saturates (cfg : Config) (p : Pedestrian) (rnd b : Q) :
  (0 <= satisfactionMultiplier (shopping cfg))%Q ->
  (0 <= budgetMultiplier (shopping cfg))%Q ->
  (0 < maxBudget (shopping cfg))%Q ->
  aiType p = Some AIPedestrianType.SHOPPER ->
  shoppingBudget p = Some b -> (0 < b)%Q ->
  (forall s, satisfactionLevel p = Some s -> (s <= 1)%Q) ->
  (shouldGoShopping cfg p rnd = true <-> (rnd < 1 # 2)%Q).
Proof.
  intros Hsm Hbm Hmax Ht Hb Hpos Hs.
  assert (Nb : ~ (b == 0)%Q) by lra.
  unfold shouldGoShopping. rewrite Ht, Hb. cbn [truthyS truthy].
  pose proof Nb as Nb'. apply Qeq_bool_false in Nb'. rewrite Nb'.
  cbn [negb orb AIPedestrianType.SHOPPER String.eqb Ascii.eqb Bool.eqb].
  rewrite ltQ_spec. unfold shoppingThreshold. rewrite Hb.
  rewrite (orElse_nonzero b 0 Nb).
  change (getShoppingProbabilityByType AIPedestrianType.SHOPPER) with (5 # 10)%Q.
  assert (Hsat : (orElse (satisfactionLevel p) (5 # 10) <= 1)%Q).
  { destruct (satisfactionLevel p) as [s|] eqn:Es; [|unfold orElse; lra].
    specialize (Hs s eq_refl). unfold orElse.
    destruct (Qeq_bool s 0); lra. }
  set (s := orElse (satisfactionLevel p) (5 # 10)) in *. clearbody s.
  assert (Hsf : (0 <= (1 - s) * satisfactionMultiplier (shopping cfg))%Q)
    by (apply Qmult_le_0_compat; lra).
  assert (Hdiv : (0 <= b / maxBudget (shopping cfg))%Q)
    by (apply Qle_shift_div_l; lra).
  set (d := (b / maxBudget (shopping cfg))%Q) in *. clearbody d.
  assert (Hmin : (0 <= Math.min 1 d)%Q) by (name_minmax; lra).
  set (m := Math.min 1 d) in *. clearbody m.
  pose proof (Qmult_le_0_compat _ _ Hmin Hbm) as Hbf.
  set (x := ((1 - s) * satisfactionMultiplier (shopping cfg))%Q) in *.
  set (y := (m * budgetMultiplier (shopping cfg))%Q) in *.
  clearbody x y. name_minmax. split; intros; lra.
Qed.

Lemma shopper_trigger_saturates_witness :
  shouldGoShopping AI_PEDESTRIAN_CONFIG idleShopper (49 # 100) = true
  <-> (49 # 100 < 1 # 2)%Q.
Proof.
  apply (shopper_trigger_saturates AI_PEDESTRIAN_CONFIG idleShopper (49 # 100)
           (1000 # 1)).
  - vm_compute. discriminate.
  - vm_compute. discriminate.
  - vm_compute. reflexivity.
  - reflexivity.
  - reflexivity.
  - vm_compute. reflexivity.
  - intros s [= <-]. vm_compute. discriminate.
Defined.

(** X7: the configured visit cap and minimum time between episodes are not
    enforced. Two configurations that agree on the fields that the shopping
    system reads give the same trigger decision, the same completion and
    the same update, whatever their [maxVisitsPerDay], [timeBetweenShops],
    [timeMultiplier], [baseProbability] and [maxMoneyPerTrip] are. *)
Theorem limits_are_not_enforced (c1 c2 : Config) :
  sameReadFields c1 c2 ->
  (forall p rnd, shouldGoShopping c1 p rnd = shouldGoShopping c2 p rnd) /\
  (forall p rnd now,
     completeShoppingActivity c1 p rnd now = completeShoppingActivity c2 p rnd now) /\
  (forall p grid dt gameTime now rnd1 rnd2,
     updateAIPedestrianShopping c1 p grid dt gameTime now rnd1 rnd2
     = updateAIPedestrianShopping c2 p grid dt gameTime now rnd1 rnd2).
Proof.
  destruct c1 as [sr1 mx1 in1 [bp1 sm1 bm1 tm1 mnd1 mxd1 mnb1 mxb1 mv1 tb1 sg1 sd1]
                    [rg1 pu1] an1 [pr1 sq1 mt1]].
  destruct c2 as [sr2 mx2 in2 [bp2 sm2 bm2 tm2 mnd2 mxd2 mnb2 mxb2 mv2 tb2 sg2 sd2]
                    [rg2 pu2] an2 [pr2 sq2 mt2]].
  unfold sameReadFields. simpl.
  intros (-> & -> & -> & -> & -> & -> & -> & -> & -> & ->).
  repeat split; reflexivity.
Qed.

Lemma limits_are_not_enforced_witness :
  updateAIPedestrianShopping strictLimitsConfig idleShopper [] 1 0 0 0 0
  = updateAIPedestrianShopping AI_PEDESTRIAN_CONFIG idleShopper [] 1 0 0 0 0.
Proof.
  refine (proj2 (proj2 (limits_are_not_enforced strictLimitsConfig
                          AI_PEDESTRIAN_CONFIG _)) idleShopper [] 1 0 0 0 0)%Q.
  unfold sameReadFields. simpl. repeat split; reflexivity.
Defined.

(** ** Presentation and initial values *)

Lemma scaled_wave_bound (w a : Q) :
  (-1 <= w)%Q -> (w <= 1)%Q -> (0 <= a)%Q -> (- a <= w * a)%Q /\ (w * a <= a)%Q.
Proof.
  intros Hl Hu Ha.
  assert (H1 : (w * a <= 1 * a)%Q) by (apply Qmult_le_compat_r; assumption).
  assert (H2 : ((-1) * a <= w * a)%Q) by (apply Qmult_le_compat_r; assumption).
  lra.
Qed.

(** X8: the animation offset is bounded. With sine and cosine between -1
    and 1, amounts that are not negative and draws in [0,1), both
    coordinates of the offset lie within the largest of the browsing sway,
    half the paying shake and 2 of the origin; for an agent that is not
    shopping, or has no sub-state, the offset is exactly (0, 0). *)
Theorem animation_offset_bounded (cfg : Config) (sin cos : Q -> Q) (PI : Q)
    (p : Pedestrian) (progress rnd1 rnd2 : Q) :
  (forall x, (-1 <= sin x)%Q /\ (sin x <= 1)%Q) ->
  (forall x, (-1 <= cos x)%Q /\ (cos x <= 1)%Q) ->
  (0 <= browsingSwayAmount (animation cfg))%Q ->
  (0 <= payingShakeAmount (animation cfg))%Q ->
  unitDraw rnd1 -> unitDraw rnd2 ->
  let offset := getShoppingAnimationOffset cfg sin cos PI p progress rnd1 rnd2 in
  let bound :=
    Math.max (browsingSwayAmount (animation cfg))
      (Math.max (payingShakeAmount (animation cfg) / 2) 2) in
  (- bound <= fst offset)%Q /\ (fst offset <= bound)%Q /\
  (- bound <= snd offset)%Q /\ (snd offset <= bound)%Q /\
  (isShopping p = false \/ shoppingActivity p = None ->
   offset = (0, 0)%Q).
Proof.
  intros Hsin Hcos Hsway Hshake [A0 A1] [B0 B1] offset bound.
  assert (Hb1 : (browsingSwayAmount (animation cfg) <= bound)%Q)
    by (subst bound; name_minmax; lra).
  assert (Hb2 : (payingShakeAmount (animation cfg) / 2 <= bound)%Q)
    by (subst bound; name_minmax; lra).
  assert (Hb3 : (2 <= bound)%Q) by (subst bound; name_minmax; lra).
  clearbody bound. subst offset. unfold getShoppingAnimationOffset.
  destruct (isShopping p); cbn [negb].
  2:{ cbn [fst snd]. repeat split; try lra. }
  destruct (shoppingActivity p) as [[| |]|]; cbn [fst snd].
  - destruct (Hsin (progress * PI * 4)%Q) as [S0 S1].
    destruct (Hcos (progress * PI * 4)%Q) as [C0 C1].
    pose proof (scaled_wave_bound _ _ S0 S1 Hsway) as [X0 X1].
    assert (Hhalf : (0 <= browsingSwayAmount (animation cfg) * (5 # 10))%Q) by lra.
    pose proof (scaled_wave_bound _ _ C0 C1 Hhalf) as [Y0 Y1].
    set (x := (sin (progress * PI * 4) * browsingSwayAmount (animation cfg))%Q) in *.
    set (y := (cos (progress * PI * 4)
               * (browsingSwayAmount (animation cfg) * (5 # 10)))%Q) in *.
    clearbody x y. repeat split; try lra.
    intros [H|H]; discriminate H.
  - assert (R1l : (-1 <= 2 * (rnd1 - (5 # 10)))%Q) by lra.
    assert (R1u : (2 * (rnd1 - (5 # 10)) <= 1)%Q) by lra.
    assert (R2l : (-1 <= 2 * (rnd2 - (5 # 10)))%Q) by lra.
    assert (R2u : (2 * (rnd2 - (5 # 10)) <= 1)%Q) by lra.
    assert (Hh : (0 <= payingShakeAmount (animation cfg) / 2)%Q)
      by (apply Qle_shift_div_l; lra).
    pose proof (scaled_wave_bound _ _ R1l R1u Hh) as [X0 X1].
    pose proof (scaled_wave_bound _ _ R2l R2u Hh) as [Y0 Y1].
    assert (Ex : ((rnd1 - (5 # 10)) * payingShakeAmount (animation cfg)
                  == 2 * (rnd1 - (5 # 10)) * (payingShakeAmount (animation cfg) / 2))%Q)
      by field.
    assert (Ey : ((rnd2 - (5 # 10)) * payingShakeAmount (animation cfg)
                  == 2 * (rnd2 - (5 # 10)) * (payingShakeAmount (animation cfg) / 2))%Q)
      by field.
    set (h := (payingShakeAmount (animation cfg) / 2)%Q) in *.
    set (u := ((rnd1 - (5 # 10)) * payingShakeAmount (animation cfg))%Q) in *.
    set (v := ((rnd2 - (5 # 10)) * payingShakeAmount (animation cfg))%Q) in *.
    set (u' := (2 * (rnd1 - (5 # 10)) * h)%Q) in *.
    set (v' := (2 * (rnd2 - (5 # 10)) * h)%Q) in *.
    clearbody u v u' v' h. repeat split; try lra.
    intros [H|H]; discriminate H.
  - destruct (Hsin (progress * PI * 6)%Q) as [S0 S1].
    destruct (Hcos (progress * PI * 3)%Q) as [C0 C1].
    repeat split; try lra.
    intros [H|H]; discriminate H.
  - repeat split; try lra.
Qed.

Lemma animation_offset_bounded_witness :
  (fst (getShoppingAnimationOffset AI_PEDESTRIAN_CONFIG zeroWave zeroWave 3
          shopper0 (1 # 2) (1 # 2) (1 # 2))
   <= Math.max (browsingSwayAmount (animation AI_PEDESTRIAN_CONFIG))
        (Math.max (payingShakeAmount (animation AI_PEDESTRIAN_CONFIG) / 2) 2))%Q.
Proof.
  refine (proj1 (proj2
    (animation_offset_bounded AI_PEDESTRIAN_CONFIG zeroWave zeroWave 3
       shopper0 (1 # 2) (1 # 2) (1 # 2) _ _ _ _ _ _))).
  - intros x. unfold zeroWave. split; vm_compute; discriminate.
  - intros x. unfold zeroWave. split; vm_compute; discriminate.
  - vm_compute. discriminate.
  - vm_compute. discriminate.
  - split; vm_compute; congruence.
  - split; vm_compute; congruence.
Defined.

(** X9: with an ordered budget range and a draw in [0,1), initialisation
    gives a budget inside the configured range, and this is the budget the
    code then reads when the lower end of the range is positive; the agent
    is autonomous and not shopping, its position and its bag are
    untouched. *)
Theorem initial_budget_in_range (cfg : Config) (p : Pedestrian)
    (type : string) (rnd : Q) :
  (minBudget (shopping cfg) <= maxBudget (shopping cfg))%Q ->
  unitDraw rnd ->
  let p' := initializeAIPedestrianShopping cfg p type rnd in
  (exists b, shoppingBudget p' = Some b /\
             (minBudget (shopping cfg) <= b)%Q /\
             (b <= maxBudget (shopping cfg))%Q /\
             ((0 < minBudget (shopping cfg))%Q -> budgetOf p' = b)) /\
  isAI p' = true /\ isShopping p' = false /\
  tileX p' = tileX p /\ tileY p' = tileY p /\ hasBag p' = hasBag p.
Proof.
  intros Hle Hr p'. subst p'. unfold initializeAIPedestrianShopping.
  cbn [shoppingBudget isAI isShopping tileX tileY hasBag].
  destruct (scaled_draw_range rnd _ _ Hr Hle) as [L U].
  split; [|repeat split].
  eexists. split; [reflexivity|]. split; [exact L|]. split; [exact U|].
  intros Hpos. unfold budgetOf. cbn [shoppingBudget].
  apply orElse_nonzero. lra.
Qed.

Lemma initial_budget_in_range_witness :
  isAI (initializeAIPedestrianShopping AI_PEDESTRIAN_CONFIG brokeShopper
          AIPedestrianType.TOURIST (1 # 2)) = true.
Proof.
  refine (proj1 (proj2
    (initial_budget_in_range AI_PEDESTRIAN_CONFIG brokeShopper
       AIPedestrianType.TOURIST (1 # 2) _ _))).
  - vm_compute. discriminate.
  - split; vm_compute; congruence.
Defined.

(** ** The finders *)

Lemma foldl_pointwise {A B : Type} (f g : A -> B -> A) (l : list B) (a : A) :
  (forall a b, f a b = g a b) -> foldl f a l = foldl g a l.
Proof.
  intros H. revert a. induction l as [|b l IH]; intros a; simpl; [reflexivity|].
  now rewrite H, IH.
Qed.

Lemma foldl_bind {A B C : Type} (f : A -> C -> A) (g : B -> list C)
    (l : list B) (a : A) :
  foldl f a (l ≫= g) = foldl (fun a y => foldl f a (g y)) a l.
Proof.
  revert a. induction l as [|y l IH]; intros a; [reflexivity|].
  change ((y :: l) ≫= g) with (g y ++ (l ≫= g)).
  rewrite foldl_app. simpl. apply IH.
Qed.

Lemma forList_foldl {S : Type} (body : Z -> S -> Outcome S) (step : S -> Z -> S)
    (idxs : list Z) (s s' : S) :
  (forall i a a', i ∈ idxs -> body i a = Returned a' -> a' = step a i) ->
  forList body idxs s = Returned s' -> s' = foldl step s idxs.
Proof.
  revert s. induction idxs as [|i rest IH]; intros s Hb; simpl.
  - now intros [= <-].
  - destruct (body i s) as [a| |] eqn:E; simpl; try discriminate.
    intros H. rewrite <- (Hb i s a (list_elem_of_here _ _) E).
    apply IH; [|exact H]. intros j b b' Hj. apply Hb. now right.
Qed.

(** The two loops of a finder are a left fold over the coordinates of the
    square. *)
Lemma scanGrid_foldl {A : Type} (grid : Grid) (gridSize : Z)
    (visit : Z -> Z -> Tile -> A -> A) (acc r : A) :
  scanGrid grid gridSize visit acc = Returned r ->
  r = foldl (fun a c => match tileOf grid c with
                        | Some t => visit (fst c) (snd c) t a
                        | None => a
                        end) acc (allCoords gridSize).
Proof.
  unfold scanGrid, forZ, allCoords. rewrite Z.sub_0_r. intros H.
  rewrite foldl_bind.
  eapply forList_foldl; [|exact H].
  intros y a a' _ Hrow. cbv beta in Hrow.
  rewrite foldl_bind.
  eapply forList_foldl; [|exact Hrow].
  intros x b b' _ Hcell. unfold scanCell in Hcell. simpl.
  unfold tileOf. simpl.
  destruct (tileAt grid y x) as [t|]; simpl in Hcell; [|discriminate].
  now injection Hcell as <-.
Qed.

Lemma foldl_collect {A : Type} (f : Coord -> option A) (l : list Coord)
    (acc : list A) :
  foldl (fun a c => a ++ option_list (f c)) acc l = acc ++ omap f l.
Proof.
  revert acc. induction l as [|c l IH]; intros acc; simpl.
  - now rewrite app_nil_r.
  - rewrite IH. destruct (f c); simpl; [|now rewrite app_nil_r].
    now rewrite <- app_assoc.
Qed.

(** A finder whose loop body appends what [f] selects returns [collect]. *)
Lemma scanGrid_collect {A : Type} (grid : Grid) (gridSize : Z)
    (visit : Z -> Z -> Tile -> list A -> list A)
    (f : Coord -> Tile -> option A) (r : list A) :
  (forall x y t a, visit x y t a = a ++ option_list (f (x, y) t)) ->
  guarded gridSize [] (scanGrid grid gridSize visit []) = Returned r ->
  r = collect grid gridSize f.
Proof.
  intros Hv H.
  destruct (guarded_cases gridSize [] (scanGrid grid gridSize visit []))
    as [[Hle E]|[Hlt E]]; rewrite E in H.
  - injection H as <-. unfold collect, allCoords.
    rewrite seqZ_nil by lia. reflexivity.
  - apply scanGrid_foldl in H. rewrite H. unfold collect.
    rewrite <- (app_nil_l (omap _ _)). rewrite <- foldl_collect.
    apply foldl_pointwise. intros a [x y]. simpl.
    destruct (tileOf grid (x, y)); simpl; [apply Hv|now rewrite app_nil_r].
Qed.

Lemma elem_of_allCoords (gridSize : Z) (c : Coord) :
  c ∈ allCoords gridSize <-> inBounds gridSize c.
Proof.
  unfold allCoords, inBounds. rewrite list_elem_of_bind. split.
  - intros (y & Hx & Hy). apply list_elem_of_bind in Hx as (x & Hc & Hx).
    apply list_elem_of_singleton in Hc. subst c. simpl.
    apply elem_of_seqZ in Hx, Hy. lia.
  - intros [Hx Hy]. exists (snd c). split; [|apply elem_of_seqZ; lia].
    apply list_elem_of_bind. exists (fst c). split; [|apply elem_of_seqZ; lia].
    destruct c. now apply list_elem_of_singleton.
Qed.

Lemma NoDup_allCoords (gridSize : Z) : NoDup (allCoords gridSize).
Proof.
  unfold allCoords. apply NoDup_bind.
  - intros y1 y2 c _ _ H1 H2.
    apply list_elem_of_bind in H1 as (x1 & E1 & _).
    apply list_elem_of_bind in H2 as (x2 & E2 & _).
    apply list_elem_of_singleton in E1, E2. congruence.
  - intros y _. apply NoDup_bind.
    + intros x1 x2 c _ _ H1 H2.
      apply list_elem_of_singleton in H1, H2. congruence.
    + intros x _. apply NoDup_singleton.
    + apply NoDup_seqZ.
  - apply NoDup_seqZ.
Qed.

Lemma NoDup_omap_inj {A B : Type} (f : A -> option B) (l : list A) :
  (forall x1 x2 y, f x1 = Some y -> f x2 = Some y -> x1 = x2) ->
  NoDup l -> NoDup (omap f l).
Proof.
  intros Hinj. induction 1 as [|x l Hx Hl IH]; simpl; [constructor|].
  destruct (f x) as [y|] eqn:E; [|exact IH].
  constructor; [|exact IH].
  intros Hy. apply list_elem_of_omap in Hy as (x' & Hx' & E').
  rewrite (Hinj x x' y E E') in Hx. contradiction.
Qed.

Lemma elem_of_collect {A : Type} (grid : Grid) (gridSize : Z)
    (f : Coord -> Tile -> option A) (a : A) :
  a ∈ collect grid gridSize f <->
  exists c t, inBounds gridSize c /\ tileOf grid c = Some t /\ f c t = Some a.
Proof.
  unfold collect. rewrite list_elem_of_omap. split.
  - intros (c & Hc & Hf). apply elem_of_allCoords in Hc.
    destruct (tileOf grid c) as [t|] eqn:Et; simpl in Hf; [|discriminate].
    eauto.
  - intros (c & t & Hc & Et & Hf). exists c.
    split; [now apply elem_of_allCoords|]. rewrite Et. exact Hf.
Qed.

Lemma coordsWhere_spec (grid : Grid) (gridSize : Z) (pred : Tile -> bool) :
  (forall c, c ∈ coordsWhere grid gridSize pred <->
             inBounds gridSize c /\
             exists t, tileOf grid c = Some t /\ pred t = true) /\
  NoDup (coordsWhere grid gridSize pred).
Proof.
  split.
  - intros c. unfold coordsWhere. rewrite elem_of_collect. split.
    + intros (c' & t & Hc & Et & Hf). destruct (pred t) eqn:Ep; [|discriminate].
      injection Hf as ->. eauto.
    + intros (Hc & t & Et & Ep). exists c, t. rewrite Ep. auto.
  - unfold coordsWhere, collect. apply NoDup_omap_inj; [|apply NoDup_allCoords].
    intros c1 c2 c H1 H2.
    destruct (tileOf grid c1) as [t1|]; simpl in H1; [|discriminate].
    destruct (tileOf grid c2) as [t2|]; simpl in H2; [|discriminate].
    destruct (pred t1); [|discriminate]. destruct (pred t2); [|discriminate].
    congruence.
Qed.

Lemma filter_finder (grid : Grid) (gridSize : Z) (pred : Tile -> bool)
    (r : list Coord) :
  guarded gridSize []
    (scanGrid grid gridSize
       (fun x y tile acc => if pred tile then acc ++ [(x, y)] else acc) [])
  = Returned r ->
  r = coordsWhere grid gridSize pred.
Proof.
  intros H. unfold coordsWhere.
  eapply scanGrid_collect; [|exact H].
  intros x y t a. simpl. destruct (pred t); simpl; [reflexivity|].
  now rewrite app_nil_r.
Qed.

Lemma filter_finder_returns (grid : Grid) (gridSize : Z) (pred : Tile -> bool) :
  covers grid gridSize ->
  guarded gridSize []
    (scanGrid grid gridSize
       (fun x y tile acc => if pred tile then acc ++ [(x, y)] else acc) [])
  = Returned (coordsWhere grid gridSize pred).
Proof.
  intros Hcov.
  destruct (guarded_returns gridSize []
              (scanGrid grid gridSize
                 (fun x y tile acc => if pred tile then acc ++ [(x, y)] else acc) []))
    as [r Hr].
  - intros _. now apply scanGrid_returns.
  - rewrite Hr. f_equal. now apply filter_finder.
Qed.

Lemma covers_townGrid : covers townGrid 2.
Proof.
  intros i j Hi Hj.
  assert (Ci : i = 0 \/ i = 1) by lia. assert (Cj : j = 0 \/ j = 1) by lia.
  destruct Ci as [->| ->]; destruct Cj as [->| ->]; eexists; reflexivity.
Qed.

(** X10: [findResidentialBuildings] returns exactly the residential tiles.
    On a grid that has a tile at every coordinate of the square it returns;
    whenever it returns, a coordinate [(x, y)] is in the list if and only if
    it lies in the square and [grid[y][x]] is one of the five residential
    types; no coordinate is listed twice, and the list is in the order of
    the rows and, inside a row, of the columns. *)
Theorem residential_finder_exact (grid : Grid) (gridSize : Z) :
  let residential :=
    fun t => includes RESIDENTIAL_BUILDING_TYPES (btype (building t)) in
  (covers grid gridSize ->
   exists r, findResidentialBuildings grid gridSize = Returned r) /\
  (forall r, findResidentialBuildings grid gridSize = Returned r ->
     r = coordsWhere grid gridSize residential /\
     NoDup r /\
     forall x y,
       (x, y) ∈ r <->
       (0 <= x < gridSize /\ 0 <= y < gridSize) /\
       exists t, tileAt grid y x = Some t /\ residential t = true).
Proof.
  intros residential. split.
  - intros Hcov. eexists. unfold findResidentialBuildings.
    apply (filter_finder_returns grid gridSize residential Hcov).
  - intros r Hr. apply (filter_finder grid gridSize residential) in Hr. subst r.
    destruct (coordsWhere_spec grid gridSize residential) as [Hm Hn].
    split; [reflexivity|]. split; [exact Hn|].
    intros x y. apply Hm.
Qed.

Lemma residential_finder_exact_witness :
  exists r, findResidentialBuildings townGrid 2 = Returned r.
Proof.
  apply (proj1 (residential_finder_exact townGrid 2)). exact covers_townGrid.
Defined.

Example residential_of_town :
  findResidentialBuildings townGrid 2 = Returned [(0, 0)].
Proof. reflexivity. Qed.

(** X11: [findStations], [findFires] and [findAirports] return exactly the
    matching tiles: whenever one of them returns, its list is the list of
    the coordinates of the square, in the order of the loops and without
    repetition, whose tile has the requested type, is on fire, or is an
    airport; and on a grid that covers the square they return. *)
Theorem station_fire_airport_finders_exact (grid : Grid) (gridSize : Z) :
  (forall type r, findStations grid gridSize type = Returned r ->
     r = coordsWhere grid gridSize
           (fun t => String.eqb (btype (building t)) type)) /\
  (forall r, findFires grid gridSize = Returned r ->
     r = coordsWhere grid gridSize (fun t => onFire (building t))) /\
  (forall r, findAirports grid gridSize = Returned r ->
     r = coordsWhere grid gridSize
           (fun t => String.eqb (btype (building t)) "airport")) /\
  (forall pred,
     NoDup (coordsWhere grid gridSize pred) /\
     forall x y,
       (x, y) ∈ coordsWhere grid gridSize pred <->
       (0 <= x < gridSize /\ 0 <= y < gridSize) /\
       exists t, tileAt grid y x = Some t /\ pred t = true) /\
  (covers grid gridSize ->
   (forall type, exists r, findStations grid gridSize type = Returned r) /\
   (exists r, findFires grid gridSize = Returned r) /\
   (exists r, findAirports grid gridSize = Returned r)).
Proof.
  split; [|split; [|split; [|split]]].
  - intros type r Hr.
    now apply (filter_finder grid gridSize
                 (fun t => String.eqb (btype (building t)) type)) in Hr.
  - intros r Hr.
    now apply (filter_finder grid gridSize (fun t => onFire (building t))) in Hr.
  - intros r Hr.
    now apply (filter_finder grid gridSize
                 (fun t => String.eqb (btype (building t)) "airport")) in Hr.
  - intros pred. destruct (coordsWhere_spec grid gridSize pred) as [Hm Hn].
    split; [exact Hn|]. intros x y. apply Hm.
  - intros Hcov. split; [|split].
    + intros type. eexists.
      apply (filter_finder_returns grid gridSize
               (fun t => String.eqb (btype (building t)) type) Hcov).
    + eexists.
      apply (filter_finder_returns grid gridSize
               (fun t => onFire (building t)) Hcov).
    + eexists.
      apply (filter_finder_returns grid gridSize
               (fun t => String.eqb (btype (building t)) "airport") Hcov).
Qed.

Lemma station_fire_airport_finders_exact_witness :
  exists r, findAirports townGrid 2 = Returned r.
Proof.
  apply (proj2 (proj2 (proj2 (proj2
    (station_fire_airport_finders_exact townGrid 2))))).
  exact covers_townGrid.
Defined.

Ltac split_types H :=
  unfold includes, SCHOOL_TYPES, COMMERCIAL_TYPES, INDUSTRIAL_TYPES, PARK_TYPES,
    RESIDENTIAL_BUILDING_TYPES in H;
  cbn [existsb] in H;
  repeat (apply orb_true_iff in H as [H|H]);
  try discriminate H; apply String.eqb_eq in H; subst.

(** The four destination categories have no building type in common. *)
Lemma destination_sets_disjoint (s : BuildingType) :
  (includes COMMERCIAL_TYPES s = true -> includes SCHOOL_TYPES s = false) /\
  (includes INDUSTRIAL_TYPES s = true ->
   includes SCHOOL_TYPES s = false /\ includes COMMERCIAL_TYPES s = false) /\
  (includes PARK_TYPES s = true ->
   includes SCHOOL_TYPES s = false /\ includes COMMERCIAL_TYPES s = false /\
   includes INDUSTRIAL_TYPES s = false).
Proof.
  split; [|split]; intros H; split_types H; repeat split; reflexivity.
Qed.

Lemma destinationOf_spec (t : Tile) (tag : PedestrianDestType) :
  destinationOf t = Some tag <->
  includes (typesOf tag) (btype (building t)) = true.
Proof.
  unfold destinationOf.
  destruct (destination_sets_disjoint (btype (building t))) as (Hc & Hi & Hp).
  destruct (includes SCHOOL_TYPES (btype (building t))) eqn:Es;
    destruct (includes COMMERCIAL_TYPES (btype (building t))) eqn:Ec;
    destruct (includes INDUSTRIAL_TYPES (btype (building t))) eqn:Ei;
    destruct (includes PARK_TYPES (btype (building t))) eqn:Ep;
    try (specialize (Hc eq_refl)); try (specialize (Hi eq_refl));
    try (specialize (Hp eq_refl));
    try (destruct Hi; discriminate); try (destruct Hp as (? & ? & ?); discriminate);
    try discriminate;
    destruct tag; cbn [typesOf]; rewrite ?Es, ?Ec, ?Ei, ?Ep;
    split; congruence.
Qed.

Lemma NoDup_collect_coords {A : Type} (grid : Grid) (gridSize : Z)
    (f : Coord -> Tile -> option A) (key : A -> Coord) :
  (forall c t a, f c t = Some a -> key a = c) ->
  NoDup (key <$> collect grid gridSize f).
Proof.
  intros Hkey. unfold collect. rewrite list_fmap_omap.
  apply NoDup_omap_inj; [|apply NoDup_allCoords].
  assert (H : forall c y,
            key <$> (tileOf grid c ≫= f c) = Some y -> y = c).
  { intros c y. destruct (tileOf grid c) as [t|]; simpl; [|discriminate].
    destruct (f c t) as [a|] eqn:E; simpl; [|discriminate].
    intros [= <-]. eauto. }
  intros c1 c2 y H1 H2. apply H in H1, H2. congruence.
Qed.

(** X12: [findPedestrianDestinations] lists every destination tile once,
    under its own category. Whenever it returns, an entry [(x, y)] with the
    category [tag] is in the list if and only if [(x, y)] lies in the square
    and the type of [grid[y][x]] belongs to the set of that category; no
    coordinate is listed twice, so none under two categories, and the list
    is in the order of the loops. On a grid that covers the square it
    returns. *)
Theorem destination_finder_exact (grid : Grid) (gridSize : Z) :
  (covers grid gridSize ->
   exists r, findPedestrianDestinations grid gridSize = Returned r) /\
  (forall r, findPedestrianDestinations grid gridSize = Returned r ->
     r = collect grid gridSize
           (fun c t => tag ← destinationOf t; Some (c, tag)) /\
     NoDup (fst <$> r) /\
     forall x y tag,
       ((x, y), tag) ∈ r <->
       (0 <= x < gridSize /\ 0 <= y < gridSize) /\
       exists t, tileAt grid y x = Some t /\
                 includes (typesOf tag) (btype (building t)) = true).
Proof.
  split.
  - intros Hcov. unfold findPedestrianDestinations.
    apply guarded_returns. intros _. now apply scanGrid_returns.
  - intros r Hr.
    assert (Er : r = collect grid gridSize
                       (fun c t => tag ← destinationOf t; Some (c, tag))).
    { eapply scanGrid_collect; [|exact Hr].
      intros x y t a. unfold destinationOf. cbv zeta.
      destruct (includes SCHOOL_TYPES _); [reflexivity|].
      destruct (includes COMMERCIAL_TYPES _); [reflexivity|].
      destruct (includes INDUSTRIAL_TYPES _); [reflexivity|].
      destruct (includes PARK_TYPES _); [reflexivity|].
      simpl. now rewrite app_nil_r. }
    split; [exact Er|]. subst r. split.
    + apply NoDup_collect_coords. intros c t a.
      destruct (destinationOf t); simpl; [|discriminate]. now intros [= <-].
    + intros x y tag. rewrite elem_of_collect. split.
      * intros (c & t & Hc & Et & Hf).
        destruct (destinationOf t) as [tag'|] eqn:Ed; simpl in Hf; [|discriminate].
        injection Hf as -> ->. split; [exact Hc|].
        exists t. split; [exact Et|]. now apply destinationOf_spec.
      * intros (Hc & t & Et & Hi). exists (x, y), t.
        split; [exact Hc|]. split; [exact Et|].
        apply destinationOf_spec in Hi. now rewrite Hi.
Qed.

Lemma destination_finder_exact_witness :
  exists r, findPedestrianDestinations townGrid 2 = Returned r.
Proof.
  apply (proj1 (destination_finder_exact townGrid 2)). exact covers_townGrid.
Defined.

Example destinations_of_town :
  findPedestrianDestinations townGrid 2 = Returned [((1, 0), dest_commercial)].
Proof. reflexivity. Qed.

Lemma heliportAt_spec (c : Coord) (t : Tile) (h : HeliportInfo.t) :
  heliportAt c t = Some h <->
  HeliportInfo.x h = fst c /\ HeliportInfo.y h = snd c /\
  btype (building t) = heliportBuilding (HeliportInfo.type h) /\
  HeliportInfo.size h = padSize (HeliportInfo.type h) /\
  (HeliportInfo.type h = heli_mall -> 50 <= (fst c * 31 + snd c * 17) mod 100).
Proof.
  unfold heliportAt. cbv zeta. split.
  - destruct (String.eqb_spec (btype (building t)) "hospital") as [E|_];
      [intros [= <-]; rewrite E; repeat split; discriminate|].
    destruct (String.eqb_spec (btype (building t)) "airport") as [E|_];
      [intros [= <-]; rewrite E; repeat split; discriminate|].
    destruct (String.eqb_spec (btype (building t)) "police_station") as [E|_];
      [intros [= <-]; rewrite E; repeat split; discriminate|].
    destruct (String.eqb_spec (btype (building t)) "mall") as [E|_];
      [|discriminate].
    destruct (Z.leb_spec 50 ((fst c * 31 + snd c * 17) mod 100));
      [|discriminate].
    intros [= <-]. rewrite E. repeat split. intros _. assumption.
  - destruct h as [hx hy kind size]. simpl.
    intros (-> & -> & Eb & -> & Hm). rewrite Eb.
    destruct kind; simpl; try reflexivity.
    apply Z.leb_le in Hm; [|reflexivity]. now rewrite Hm.
Qed.

(** X13: [findHeliports] lists hospitals, airports and police stations, and
    a mall only when the hash [(31 x + 17 y) mod 100] of its coordinates is
    50 or more. Whenever it returns, an entry is in the list if and only if
    its coordinates lie in the square, the tile there has the building type
    of the entry's kind, the size is the pad size of that kind (2, 4, 1, 3)
    and, for a mall, the hash is at least 50; no coordinate is listed twice;
    and the airports it lists are exactly the coordinates that
    [findAirports] returns. *)
Theorem heliport_finder_exact (grid : Grid) (gridSize : Z) :
  (covers grid gridSize ->
   exists r, findHeliports grid gridSize = Returned r) /\
  (forall r, findHeliports grid gridSize = Returned r ->
     NoDup ((fun h => (HeliportInfo.x h, HeliportInfo.y h)) <$> r) /\
     (forall h,
        h ∈ r <->
        (0 <= HeliportInfo.x h < gridSize /\ 0 <= HeliportInfo.y h < gridSize) /\
        (exists t, tileAt grid (HeliportInfo.y h) (HeliportInfo.x h) = Some t /\
                   btype (building t) = heliportBuilding (HeliportInfo.type h)) /\
        HeliportInfo.size h = padSize (HeliportInfo.type h) /\
        (HeliportInfo.type h = heli_mall ->
         50 <= (HeliportInfo.x h * 31 + HeliportInfo.y h * 17) mod 100)) /\
     (forall a, findAirports grid gridSize = Returned a ->
        forall x y, (x, y) ∈ a <-> HeliportInfo.mk x y heli_airport 4 ∈ r)).
Proof.
  split.
  - intros Hcov. unfold findHeliports.
    apply guarded_returns. intros _. now apply scanGrid_returns.
  - intros r Hr.
    assert (Er : r = collect grid gridSize heliportAt).
    { eapply scanGrid_collect; [|exact Hr].
      intros x y t a. unfold heliportAt. cbv zeta. cbn [fst snd].
      destruct (String.eqb _ "hospital"); [reflexivity|].
      destruct (String.eqb _ "airport"); [reflexivity|].
      destruct (String.eqb _ "police_station"); [reflexivity|].
      destruct (String.eqb _ "mall"); [|simpl; now rewrite app_nil_r].
      destruct (50 <=? _); [reflexivity|simpl; now rewrite app_nil_r]. }
    subst r.
    assert (Hmem : forall h,
              h ∈ collect grid gridSize heliportAt <->
              (0 <= HeliportInfo.x h < gridSize /\
               0 <= HeliportInfo.y h < gridSize) /\
              (exists t, tileAt grid (HeliportInfo.y h) (HeliportInfo.x h) = Some t /\
                         btype (building t)
                         = heliportBuilding (HeliportInfo.type h)) /\
              HeliportInfo.size h = padSize (HeliportInfo.type h) /\
              (HeliportInfo.type h = heli_mall ->
               50 <= (HeliportInfo.x h * 31 + HeliportInfo.y h * 17) mod 100)).
    { intros h. rewrite elem_of_collect. split.
      - intros ([cx cy] & t & Hc & Et & Hf).
        apply heliportAt_spec in Hf as (Ex & Ey & Eb & Es & Hm).
        simpl in Ex, Ey, Hm. rewrite Ex, Ey.
        split; [exact Hc|]. split; [exists t; auto|]. auto.
      - intros (Hc & (t & Et & Eb) & Es & Hm).
        exists (HeliportInfo.x h, HeliportInfo.y h), t.
        split; [exact Hc|]. split; [exact Et|].
        apply heliportAt_spec. simpl. auto. }
    split; [|split; [exact Hmem|]].
    + apply NoDup_collect_coords. intros c t h Hf.
      apply heliportAt_spec in Hf as (-> & -> & _). now destruct c.
    + intros a Ha x y.
      apply (filter_finder grid gridSize
               (fun t => String.eqb (btype (building t)) "airport")) in Ha.
      subst a.
      destruct (coordsWhere_spec grid gridSize
                  (fun t => String.eqb (btype (building t)) "airport"))
        as [Hm _].
      rewrite Hm, Hmem. unfold inBounds, tileOf. simpl. split.
      * intros (Hc & t & Et & Eb). apply String.eqb_eq in Eb.
        split; [exact Hc|]. split; [eauto|]. split; [reflexivity|discriminate].
      * intros (Hc & (t & Et & Eb) & _). split; [exact Hc|].
        exists t. split; [exact Et|]. now apply String.eqb_eq.
Qed.

Lemma heliport_finder_exact_witness :
  exists r, findHeliports townGrid 2 = Returned r.
Proof.
  apply (proj1 (heliport_finder_exact townGrid 2)). exact covers_townGrid.
Defined.

(** The mall of the town, at (1, 0), has the hash 31 and carries no
    heliport; the airport at (0, 1) does. *)
Example heliports_of_town :
  findHeliports townGrid 2 = Returned [HeliportInfo.mk 0 1 heli_airport 4].
Proof. reflexivity. Qed.

(** X14: [findSmogFactories] lists exactly the operating medium and large
    factories. Whenever it returns, an entry [(x, y)] with the type [type]
    is in the list if and only if [(x, y)] lies in the square, [grid[y][x]]
    has that type, the type is [factory_medium] or [factory_large], and the
    building is powered, not abandoned and built to 100 or more; no
    coordinate is listed twice. On a grid that covers the square it
    returns. *)
Theorem smog_finder_exact (grid : Grid) (gridSize : Z) :
  (covers grid gridSize ->
   exists r, findSmogFactories grid gridSize = Returned r) /\
  (forall r, findSmogFactories grid gridSize = Returned r ->
     NoDup (fst <$> r) /\
     forall x y type,
       ((x, y), type) ∈ r <->
       (0 <= x < gridSize /\ 0 <= y < gridSize) /\
       exists t, tileAt grid y x = Some t /\
                 btype (building t) = type /\
                 (type = "factory_medium"%string \/ type = "factory_large"%string) /\
                 powered (building t) = true /\
                 abandoned (building t) = false /\
                 100 <= constructionProgress (building t)).
Proof.
  split.
  - intros Hcov. unfold findSmogFactories.
    apply guarded_returns. intros _. now apply scanGrid_returns.
  - intros r Hr.
    set (f := fun (c : Coord) (t : Tile) =>
                if (String.eqb (btype (building t)) "factory_medium"
                    || String.eqb (btype (building t)) "factory_large")
                   && powered (building t)
                   && negb (abandoned (building t))
                   && (100 <=? constructionProgress (building t))
                then Some (c, btype (building t)) else None).
    assert (Er : r = collect grid gridSize f).
    { eapply scanGrid_collect; [|exact Hr].
      intros x y t a. unfold f. cbv zeta.
      destruct (_ && _); [reflexivity|simpl; now rewrite app_nil_r]. }
    subst r. split.
    + apply NoDup_collect_coords. intros c t a. unfold f.
      destruct (_ && _); [|discriminate]. now intros [= <-].
    + intros x y type. rewrite elem_of_collect. unfold f. split.
      * intros (c & t & Hc & Et & Hf).
        destruct (_ && _) eqn:Eb in Hf; [|discriminate].
        injection Hf as -> <-. split; [exact Hc|]. exists t.
        apply andb_true_iff in Eb as [Eb E4].
        apply andb_true_iff in Eb as [Eb E3].
        apply andb_true_iff in Eb as [E1 E2].
        apply orb_true_iff in E1. rewrite !String.eqb_eq in E1.
        apply negb_true_iff in E3. apply Z.leb_le in E4.
        repeat split; auto.
      * intros (Hc & t & Et & <- & Ety & Ep & Ea & Ec).
        exists (x, y), t. split; [exact Hc|]. split; [exact Et|].
        assert (E1 : String.eqb (btype (building t)) "factory_medium"
                     || String.eqb (btype (building t)) "factory_large" = true).
        { apply orb_true_iff. rewrite !String.eqb_eq. exact Ety. }
        rewrite E1, Ep, Ea. apply Z.leb_le in Ec. rewrite Ec. reflexivity.
Qed.

Lemma smog_finder_exact_witness :
  exists r, findSmogFactories townGrid 2 = Returned r.
Proof.
  apply (proj1 (smog_finder_exact townGrid 2)). exact covers_townGrid.
Defined.

Lemma foldl_count (P : Coord -> bool) (l : list Coord) (acc : Z) :
  foldl (fun a c => if P c then a + 1 else a) acc l
  = acc + Z.of_nat (length (omap (fun c => if P c then Some c else None) l)).
Proof.
  revert acc. induction l as [|c l IH]; intros acc; [simpl; lia|].
  cbn [foldl]. rewrite IH.
  change (omap ?g (c :: l))
    with (match g c with Some x => x :: omap g l | None => omap g l end).
  cbv beta. destruct (P c); cbv iota; [rewrite length_cons|]; lia.
Qed.

Lemma omap_pointwise {A B : Type} (f g : A -> option B) (l : list A) :
  (forall a, f a = g a) -> omap f l = omap g l.
Proof.
  intros H. induction l as [|a l IH]; [reflexivity|].
  change (omap ?h (a :: l))
    with (match h a with Some x => x :: omap h l | None => omap h l end).
  now rewrite H, IH.
Qed.

Lemma length_omap_le {A B : Type} (f : A -> option B) (l : list A) :
  (length (omap f l) <= length l)%nat.
Proof.
  induction l as [|a l IH]; [simpl; lia|].
  change (omap f (a :: l))
    with (match f a with Some x => x :: omap f l | None => omap f l end).
  destruct (f a); rewrite ?length_cons; lia.
Qed.

Lemma length_bind_const {A B : Type} (f : A -> list B) (l : list A) (k : nat) :
  (forall a, length (f a) = k) -> length (l ≫= f) = (length l * k)%nat.
Proof.
  intros Hk. induction l as [|a l IH]; [reflexivity|].
  change ((a :: l) ≫= f) with (f a ++ (l ≫= f)).
  rewrite length_app, IH, Hk. simpl. lia.
Qed.

Lemma length_allCoords (gridSize : Z) :
  Z.of_nat (length (allCoords gridSize)) = Z.max 0 gridSize * Z.max 0 gridSize.
Proof.
  unfold allCoords.
  rewrite (length_bind_const _ _ (Z.to_nat gridSize)).
  - rewrite length_seqZ. lia.
  - intros y. rewrite (length_bind_const _ _ 1%nat); [|reflexivity].
    rewrite length_seqZ. lia.
Qed.

(** X15: [countRoadTiles] counts the road tiles of the square. Whenever it
    returns, the count is the number of coordinates of the square whose tile
    has the type [road], it lies between 0 and the area of the square, and
    it is the length of the list that [findStations] returns for the type
    [road]. On a grid that covers the square it returns. *)
Theorem road_count_exact (grid : Grid) (gridSize : Z) :
  let road := fun t => String.eqb (btype (building t)) "road" in
  (covers grid gridSize ->
   exists n, countRoadTiles grid gridSize = Returned n) /\
  (forall n, countRoadTiles grid gridSize = Returned n ->
     n = Z.of_nat (length (coordsWhere grid gridSize road)) /\
     0 <= n <= Z.max 0 gridSize * Z.max 0 gridSize /\
     forall r, findStations grid gridSize "road" = Returned r ->
               n = Z.of_nat (length r)).
Proof.
  intros road. split.
  - intros Hcov. unfold countRoadTiles.
    apply guarded_returns. intros _. now apply scanGrid_returns.
  - intros n Hn.
    assert (En : n = Z.of_nat (length (coordsWhere grid gridSize road))).
    { unfold countRoadTiles in Hn.
      destruct (guarded_cases gridSize 0
                  (scanGrid grid gridSize
                     (fun x y tile count =>
                        if String.eqb (btype (building tile)) "road"
                        then count + 1 else count) 0))
        as [[Hle E]|[Hlt E]]; rewrite E in Hn.
      - injection Hn as <-. unfold coordsWhere, collect, allCoords.
        rewrite seqZ_nil by lia. reflexivity.
      - apply scanGrid_foldl in Hn. rewrite Hn.
        rewrite (foldl_pointwise _
                   (fun a c => if match tileOf grid c with
                                  | Some t => road t
                                  | None => false
                                  end then a + 1 else a)).
        + rewrite foldl_count, Z.add_0_l. unfold coordsWhere, collect.
          f_equal. f_equal. apply omap_pointwise.
          intros c. destruct (tileOf grid c) as [t|]; simpl; [|reflexivity].
          unfold road. destruct (String.eqb _ _); reflexivity.
        + intros a c. destruct (tileOf grid c); reflexivity. }
    split; [exact En|]. split.
    + rewrite En. rewrite <- length_allCoords. unfold coordsWhere, collect.
      pose proof (length_omap_le
                    (fun c => tileOf grid c ≫=
                              fun t => if road t then Some c else None)
                    (allCoords gridSize)).
      lia.
    + intros r Hr.
      apply (filter_finder grid gridSize road) in Hr. now subst r.
Qed.

Lemma road_count_exact_witness :
  exists n, countRoadTiles townGrid 2 = Returned n.
Proof.
  apply (proj1 (road_count_exact townGrid 2)). exact covers_townGrid.
Defined.

(** ** The water next to a dock *)

Lemma isWaterAt_tile (grid : Grid) (x y : Z) (tile : Tile) :
  tileAt grid y x = Some tile ->
  (isWaterAt grid (x, y) <-> String.eqb (btype (building tile)) "water" = true).
Proof.
  intros Et. unfold isWaterAt. simpl. rewrite String.eqb_eq. split.
  - intros (t & Et' & Ew). congruence.
  - intros Ew. eauto.
Qed.

Lemma firstWaterIn_spec (grid : Grid) (gridSize x y : Z) (dirs : list (Z * Z))
    (res : option Coord) :
  firstWaterIn grid gridSize x y dirs = Returned res ->
  match res with
  | Some c =>
      exists pre d post,
        dirs = pre ++ d :: post /\ c = (x + fst d, y + snd d) /\
        inBounds gridSize c /\ isWaterAt grid c /\
        forall d', d' ∈ pre ->
          ~ (inBounds gridSize (x + fst d', y + snd d') /\
             isWaterAt grid (x + fst d', y + snd d'))
  | None =>
      forall d, d ∈ dirs ->
        ~ (inBounds gridSize (x + fst d, y + snd d) /\
           isWaterAt grid (x + fst d, y + snd d))
  end.
Proof.
  induction dirs as [|[dx dy] rest IH]; simpl.
  - intros [= <-]. intros d Hd. now apply elem_of_nil in Hd.
  - assert (Hskip :
        ~ (inBounds gridSize (x + dx, y + dy) /\ isWaterAt grid (x + dx, y + dy)) ->
        firstWaterIn grid gridSize x y rest = Returned res ->
        match res with
        | Some c =>
            exists pre d post,
              (dx, dy) :: rest = pre ++ d :: post /\ c = (x + fst d, y + snd d) /\
              inBounds gridSize c /\ isWaterAt grid c /\
              forall d', d' ∈ pre ->
                ~ (inBounds gridSize (x + fst d', y + snd d') /\
                   isWaterAt grid (x + fst d', y + snd d'))
        | None =>
            forall d, d ∈ (dx, dy) :: rest ->
              ~ (inBounds gridSize (x + fst d, y + snd d) /\
                 isWaterAt grid (x + fst d, y + snd d))
        end).
    { intros Hno Hrest. specialize (IH Hrest). destruct res as [c|].
      - destruct IH as (pre & d & post & -> & Hc & Hb & Hw & Hpre).
        exists ((dx, dy) :: pre), d, post.
        split; [reflexivity|]. split; [exact Hc|]. split; [exact Hb|].
        split; [exact Hw|].
        intros d' Hd'. apply elem_of_cons in Hd' as [->|Hd']; auto.
      - intros d Hd. apply elem_of_cons in Hd as [->|Hd]; auto. }
    destruct ((0 <=? x + dx) && (x + dx <? gridSize)
              && (0 <=? y + dy) && (y + dy <? gridSize)) eqn:Eb.
    + repeat (apply andb_true_iff in Eb as [Eb ?]).
      destruct (tileAt grid (y + dy) (x + dx)) as [tile|] eqn:Et; simpl;
        [|discriminate].
      pose proof (isWaterAt_tile grid (x + dx) (y + dy) tile Et) as Hw.
      destruct (String.eqb (btype (building tile)) "water") eqn:Ew.
      * intros [= <-]. exists [], (dx, dy), rest. simpl.
        split; [reflexivity|]. split; [reflexivity|].
        split; [unfold inBounds; simpl; lia|]. split; [now apply Hw|].
        intros d' Hd'. now apply elem_of_nil in Hd'.
      * apply Hskip. intros [_ Hwat]. apply Hw in Hwat. discriminate.
    + apply Hskip. intros [[Hx Hy] _]. simpl in Hx, Hy.
      assert ((0 <=? x + dx) && (x + dx <? gridSize)
              && (0 <=? y + dy) && (y + dy <? gridSize) = true); [|congruence].
      repeat (apply andb_true_iff; split); lia.
Qed.

Lemma adjacent8_directions (x y : Z) (c : Coord) :
  adjacent8 x y c <-> exists d, d ∈ directions8 /\ c = (x + fst d, y + snd d).
Proof.
  unfold adjacent8, directions8. split.
  - intros (Hne & Hx & Hy). destruct c as [cx cy]. simpl in *.
    exists (cx - x, cy - y). split; [|simpl; f_equal; lia].
    assert (Cx : cx - x = -1 \/ cx - x = 0 \/ cx - x = 1) by lia.
    assert (Cy : cy - y = -1 \/ cy - y = 0 \/ cy - y = 1) by lia.
    rewrite !elem_of_cons.
    destruct Cx as [Ex|[Ex|Ex]]; destruct Cy as [Ey|[Ey|Ey]];
      rewrite Ex, Ey; try tauto.
    exfalso. apply Hne. f_equal; lia.
  - intros (d & Hd & ->). rewrite !elem_of_cons, elem_of_nil in Hd.
    destruct Hd as [->|[->|[->|[->|[->|[->|[->|[->|[]]]]]]]]]; simpl;
      (split; [intros [= ? ?]; lia|lia]).
Qed.

(** X16: [findAdjacentWaterTile] returns a water tile next to the dock, if
    there is one. Whenever it returns a coordinate, that coordinate is one
    of the eight neighbours of the dock, lies in the square and is a water
    tile; whenever it returns nothing, no neighbour of the dock inside the
    square is a water tile. On a grid that covers the square it returns. *)
Theorem adjacent_water_exact (grid : Grid) (gridSize dockX dockY : Z) :
  (covers grid gridSize ->
   exists res, findAdjacentWaterTile grid gridSize dockX dockY = Returned res) /\
  (forall res,
     findAdjacentWaterTile grid gridSize dockX dockY = Returned res ->
     (forall c, res = Some c ->
        adjacent8 dockX dockY c /\ inBounds gridSize c /\ isWaterAt grid c) /\
     (res = None ->
      forall c, adjacent8 dockX dockY c -> inBounds gridSize c ->
                ~ isWaterAt grid c)).
Proof.
  split.
  - intros Hcov. unfold findAdjacentWaterTile.
    apply guarded_returns. intros _. now apply firstWaterIn_returns.
  - intros res Hres. unfold findAdjacentWaterTile in Hres.
    destruct (guarded_cases gridSize None
                (firstWaterIn grid gridSize dockX dockY directions8))
      as [[Hle E]|[Hlt E]]; rewrite E in Hres.
    + injection Hres as <-. split; [discriminate|].
      intros _ c _ [Hx _]. lia.
    + apply firstWaterIn_spec in Hres. split.
      * intros c ->. destruct Hres as (pre & d & post & Ed & Ec & Hb & Hw & _).
        split; [|auto]. apply adjacent8_directions. exists d.
        split; [|exact Ec]. rewrite Ed. apply elem_of_app. right. now left.
      * intros -> c Hadj Hb Hw.
        apply adjacent8_directions in Hadj as (d & Hd & ->).
        apply (Hres d Hd). auto.
Qed.

Lemma covers_harbourGrid : covers harbourGrid 3.
Proof.
  intros i j Hi Hj.
  assert (Ci : i = 0 \/ i = 1 \/ i = 2) by lia.
  assert (Cj : j = 0 \/ j = 1 \/ j = 2) by lia.
  destruct Ci as [->|[->| ->]]; destruct Cj as [->|[->| ->]];
    eexists; reflexivity.
Qed.

Lemma adjacent_water_exact_witness :
  exists res, findAdjacentWaterTile harbourGrid 3 1 1 = Returned res.
Proof.
  apply (proj1 (adjacent_water_exact harbourGrid 3 1 1)).
  exact covers_harbourGrid.
Defined.

Example water_east_of_the_marina :
  findAdjacentWaterTile harbourGrid 3 1 1 = Returned (Some (2, 1)).
Proof. reflexivity. Qed.

(** ** The flood fill finds the whole region *)

Lemma adjacent4_neighbours (seen : gset Coord) (x y : Z) (c : Coord) :
  adjacent4 (x, y) c -> c ∈ seen \/ c ∈ unvisitedNeighbours seen x y.
Proof.
  intros Hadj. destruct (decide (c ∈ seen)) as [Hs|Hs]; [now left|right].
  unfold unvisitedNeighbours. apply list_elem_of_filter. split; [exact Hs|].
  unfold directions4. simpl. rewrite !elem_of_cons.
  unfold adjacent4 in Hadj. simpl in Hadj.
  replace (x + -1) with (x - 1) by lia. replace (y + -1) with (y - 1) by lia.
  replace (x + 0) with x by lia. replace (y + 0) with y by lia. tauto.
Qed.

Lemma bfsStep_closed (grid : Grid) (gridSize : Z) (start : Coord)
    (st st' : BfsState) (x y : Z) (rest : list Coord) :
  bfsClosed grid gridSize start st -> queue st = (x, y) :: rest ->
  bfsStep grid gridSize st x y rest = Returned st' ->
  bfsClosed grid gridSize start st'.
Proof.
  intros [Hs Hv Hn] Eq. unfold bfsStep.
  case_bool_decide as Hvis.
  { intros [= <-]. constructor; simpl.
    - destruct Hs as [Hs|Hs]; [now left|]. rewrite Eq in Hs.
      apply elem_of_cons in Hs as [->|Hs]; auto.
    - exact Hv.
    - intros w c Hw Hadj. destruct (Hn w c Hw Hadj) as [H|H]; [now left|].
      rewrite Eq in H. apply elem_of_cons in H as [->|H]; auto. }
  assert (Hs' : forall (q : list Coord),
            start ∈ visited st ∪ {[(x, y)]} \/ start ∈ rest ++ q).
  { intros q. destruct Hs as [Hs|Hs].
    - left. apply elem_of_union. now left.
    - rewrite Eq in Hs. apply elem_of_cons in Hs as [->|Hs].
      + left. apply elem_of_union. right. now apply elem_of_singleton.
      + right. apply elem_of_app. now left. }
  assert (Hn' : forall (q : list Coord) w c,
            w ∈ waterTiles st -> adjacent4 w c ->
            c ∈ visited st ∪ {[(x, y)]} \/ c ∈ rest ++ q).
  { intros q w c Hw Hadj. destruct (Hn w c Hw Hadj) as [H|H].
    - left. apply elem_of_union. now left.
    - rewrite Eq in H. apply elem_of_cons in H as [->|H].
      + left. apply elem_of_union. right. now apply elem_of_singleton.
      + right. apply elem_of_app. now left. }
  assert (Hskip :
            ~ (inBounds gridSize (x, y) /\ isWaterAt grid (x, y)) ->
            bfsClosed grid gridSize start
              (mkBfsState (visited st ∪ {[(x, y)]}) (waterTiles st) rest)).
  { intros Hno. constructor; simpl.
    - specialize (Hs' []). now rewrite app_nil_r in Hs'.
    - intros c Hc Hb Hw. apply elem_of_union in Hc as [Hc|Hc]; [auto|].
      apply elem_of_singleton in Hc. subst c. tauto.
    - intros w c Hw Hadj. specialize (Hn' [] w c Hw Hadj).
      now rewrite app_nil_r in Hn'. }
  destruct ((x <? 0) || (gridSize <=? x) || (y <? 0) || (gridSize <=? y))
    eqn:Eb.
  { intros [= <-]. apply Hskip. intros [[Hx Hy] _]. simpl in Hx, Hy.
    assert ((x <? 0) || (gridSize <=? x) || (y <? 0) || (gridSize <=? y)
            = false); [|congruence].
    repeat (apply orb_false_iff; split); lia. }
  destruct (tileAt grid y x) as [tile|] eqn:Et; simpl; [|discriminate].
  pose proof (isWaterAt_tile grid x y tile Et) as Hwat.
  destruct (String.eqb (btype (building tile)) "water") eqn:Ew; simpl.
  2:{ intros [= <-]. apply Hskip. intros [_ Hw]. apply Hwat in Hw.
      discriminate. }
  intros [= <-]. constructor; simpl.
  - apply Hs'.
  - intros c Hc Hb Hw. apply elem_of_app.
    apply elem_of_union in Hc as [Hc|Hc]; [left; auto|].
    apply elem_of_singleton in Hc. subst c. right. now left.
  - intros w c Hw Hadj. apply elem_of_app in Hw as [Hw|Hw].
    + exact (Hn' _ w c Hw Hadj).
    + apply list_elem_of_singleton in Hw. subst w.
      destruct (adjacent4_neighbours (visited st ∪ {[(x, y)]}) x y c Hadj)
        as [H|H]; [now left|].
      right. apply elem_of_app. now right.
Qed.

Lemma closed_region (grid : Grid) (gridSize : Z) (start : Coord)
    (st : BfsState) :
  bfsClosed grid gridSize start st -> queue st = [] ->
  forall c, connected grid gridSize start c -> c ∈ waterTiles st.
Proof.
  intros [Hs Hv Hn] Eq c Hc. rewrite Eq in Hs, Hn.
  induction Hc as [Hb Hw|c d Hc IH Hadj Hb Hw].
  - destruct Hs as [Hs|Hs]; [auto|]. now apply elem_of_nil in Hs.
  - destruct (Hn c d IH Hadj) as [H|H]; [auto|]. now apply elem_of_nil in H.
Qed.

Lemma bfsLoop_complete (grid : Grid) (gridSize : Z) (maxTiles : nat)
    (start : Coord) (fuel : nat) (st : BfsState) (tiles : list Coord) :
  bfsClosed grid gridSize start st ->
  bfsLoop fuel grid gridSize maxTiles st = Returned tiles ->
  (length tiles < maxTiles)%nat ->
  forall c, connected grid gridSize start c -> c ∈ tiles.
Proof.
  revert st. induction fuel as [|fuel IH]; intros st Hcl; simpl.
  - destruct (queue st) as [|[x y] rest] eqn:Eq.
    + intros [= <-] _. now apply (closed_region grid gridSize start st).
    + destruct (Nat.ltb_spec (length (waterTiles st)) maxTiles) as [Hlt|Hge];
        simpl; [discriminate|].
      intros [= <-] Hl. lia.
  - destruct (queue st) as [|[x y] rest] eqn:Eq.
    + intros [= <-] _. now apply (closed_region grid gridSize start st).
    + destruct (Nat.ltb_spec (length (waterTiles st)) maxTiles) as [Hlt|Hge];
        simpl.
      * destruct (bfsStep grid gridSize st x y rest) as [st'| |] eqn:Es; simpl;
          try discriminate.
        apply IH. eapply bfsStep_closed; eauto.
      * intros [= <-] Hl. lia.
Qed.

Lemma connected_start_water (grid : Grid) (gridSize : Z) (start c : Coord) :
  connected grid gridSize start c ->
  inBounds gridSize start /\ isWaterAt grid start.
Proof. induction 1; auto. Qed.

Lemma floodFill_sound (grid : Grid) (gridSize sx sy : Z) (maxTiles : nat)
    (tiles : list Coord) :
  findConnectedWaterTiles grid gridSize sx sy maxTiles = Returned tiles ->
  NoDup tiles /\
  forall c, c ∈ tiles ->
    inBounds gridSize c /\ isWaterAt grid c /\
    connected grid gridSize (sx, sy) c.
Proof.
  unfold findConnectedWaterTiles.
  set (st0 := mkBfsState ∅ [] [(sx, sy)]).
  destruct (guarded_cases gridSize []
              (bfsLoop (4 * maxTiles + 1) grid gridSize maxTiles st0))
    as [[Hle ->]|[Hlt ->]].
  - intros [= <-]. split; [apply NoDup_nil_2|].
    intros c Hc. now apply elem_of_nil in Hc.
  - intros Hrun.
    eapply (bfsLoop_result grid gridSize maxTiles (sx, sy)) in Hrun;
      [tauto|].
    constructor; simpl.
    + apply NoDup_nil_2.
    + intros c Hc. now apply elem_of_nil in Hc.
    + intros c Hc. apply list_elem_of_singleton in Hc. now left.
    + lia.
Qed.

Lemma floodFill_complete (grid : Grid) (gridSize sx sy : Z) (maxTiles : nat)
    (tiles : list Coord) :
  findConnectedWaterTiles grid gridSize sx sy maxTiles = Returned tiles ->
  (length tiles < maxTiles)%nat ->
  forall c, connected grid gridSize (sx, sy) c -> c ∈ tiles.
Proof.
  intros Hrun Hl c. unfold findConnectedWaterTiles in Hrun.
  destruct (guarded_cases gridSize []
              (bfsLoop (4 * maxTiles + 1) grid gridSize maxTiles
                 (mkBfsState ∅ [] [(sx, sy)])))
    as [[Hle E]|[Hlt E]]; rewrite E in Hrun.
  - intros Hc. apply connected_start_water in Hc as [[Hx _] _].
    simpl in Hx. lia.
  - eapply bfsLoop_complete; eauto.
    constructor; simpl.
    + right. now left.
    + intros c' Hc'. now apply elem_of_empty in Hc'.
    + intros w c' Hw. now apply elem_of_nil in Hw.
Qed.

(** X17: the flood fill finds the whole region unless the bound cuts it
    short. When [findConnectedWaterTiles] returns fewer than [maxTiles]
    tiles, the tiles of the list are exactly the tiles reached from the
    start by a path of 4-connected water tiles inside the square; and when
    the start is outside the square or is not water, the list is empty. *)
Theorem flood_fill_complete
    (grid : Grid) (gridSize startTileX startTileY : Z) (maxTiles : nat)
    (tiles : list Coord) :
  findConnectedWaterTiles grid gridSize startTileX startTileY maxTiles
  = Returned tiles ->
  (~ (inBounds gridSize (startTileX, startTileY) /\
      isWaterAt grid (startTileX, startTileY)) -> tiles = []) /\
  ((length tiles < maxTiles)%nat ->
   forall c, c ∈ tiles <->
             connected grid gridSize (startTileX, startTileY) c).
Proof.
  intros Hrun. pose proof (floodFill_sound _ _ _ _ _ _ Hrun) as [_ Hsound].
  split.
  - intros Hno. destruct tiles as [|c rest]; [reflexivity|].
    exfalso. apply Hno.
    apply (connected_start_water grid gridSize _ c).
    apply Hsound. now left.
  - intros Hl c. split; [intros Hc; now apply Hsound|].
    now apply (floodFill_complete grid gridSize _ _ maxTiles).
Qed.

Lemma flood_fill_complete_witness :
  (~ (inBounds 3 (0, 0) /\ isWaterAt lakesGrid (0, 0)) -> westLake = []) /\
  ((length westLake < 200)%nat ->
   forall c, c ∈ westLake <-> connected lakesGrid 3 (0, 0) c).
Proof.
  apply (flood_fill_complete lakesGrid 3 0 0 200 westLake).
  vm_compute. reflexivity.
Defined.

(** The fill from the western lake never crosses the grass: no tile of the
    eastern lake is connected to the start. *)
Example east_lake_is_not_reached :
  ~ connected lakesGrid 3 (0, 0) (2, 1).
Proof.
  intros Hc.
  apply (floodFill_complete lakesGrid 3 0 0 200 westLake) in Hc.
  - unfold westLake in Hc. rewrite !elem_of_cons, elem_of_nil in Hc.
    destruct Hc as [H|[H|[H|[]]]]; discriminate.
  - vm_compute. reflexivity.
  - simpl. lia.
Qed.

(** ** Where the waypoints of a tour lie *)

Section TourTiles.

Variable gridToScreen : Z -> Z -> Q -> Q -> Q * Q.
Variable TILE_WIDTH TILE_HEIGHT : Q.
Variable region : list Coord.

Local Abbreviation waypointOf := (makeWaypoint gridToScreen TILE_WIDTH TILE_HEIGHT).
Local Abbreviation picked := (pickedAt gridToScreen TILE_WIDTH TILE_HEIGHT region).
Local Abbreviation keeps := (pickedInv gridToScreen TILE_WIDTH TILE_HEIGHT region).

Lemma tileOfWaypoint_make (tile : Coord) :
  tileOfWaypoint (waypointOf tile) = tile.
Proof. now destruct tile. Qed.

Lemma pickedInv_snoc (wps : list TourWaypoint.t) (used : gset Z)
    (idxs : list nat) (tile : Coord) (i : nat) :
  keeps (wps, used) idxs -> i ∉ idxs -> region !! i = Some tile ->
  keeps (wps ++ [waypointOf tile], used ∪ {[ Z.of_nat i ]}) (idxs ++ [i]).
Proof.
  intros (Hnd & Hu & Hf) Hi Ht. unfold pickedInv. simpl in *. split; [|split].
  - apply NoDup_app. split; [exact Hnd|]. split; [|apply NoDup_singleton].
    intros j Hj Hj'. apply list_elem_of_singleton in Hj'. now subst j.
  - intros j Hj. apply elem_of_union. apply elem_of_app in Hj as [Hj|Hj].
    + left. auto.
    + right. apply list_elem_of_singleton in Hj. subst j.
      now apply elem_of_singleton.
  - apply Forall2_app; [exact Hf|]. constructor; [|constructor].
    exists tile. auto.
Qed.

(** The spaced selection keeps the invariant, on entries with distinct
    indices that name their own tile. *)
Lemma fold_spacedStep_picked (l : list (Coord * nat))
    (st : list TourWaypoint.t * gset Z) (idxs : list nat) :
  keeps st idxs ->
  Forall (fun e => region !! snd e = Some (fst e)) l ->
  NoDup (snd <$> l) ->
  (forall i, i ∈ idxs -> i ∉ snd <$> l) ->
  exists idxs',
    keeps (fold_left (spacedStep gridToScreen TILE_WIDTH TILE_HEIGHT) l st)
          idxs'.
Proof.
  revert st idxs. induction l as [|[tile i] l IH]; intros st idxs Hk Hf Hnd Hd.
  - simpl. eauto.
  - simpl. apply Forall_cons in Hf as [Ht Hf]. simpl in Ht.
    rewrite fmap_cons in Hnd. apply NoDup_cons in Hnd as [Hi Hnd].
    simpl in Hi.
    unfold spacedStep at 2. simpl.
    destruct (tooClose tile (fst st)).
    + apply (IH st idxs); auto.
      intros j Hj Hj'. apply (Hd j Hj). rewrite fmap_cons. now right.
    + destruct st as [wps used]. simpl.
      apply (IH _ (idxs ++ [i])); auto.
      * apply pickedInv_snoc; auto.
        intros Hin. apply (Hd i Hin). rewrite fmap_cons. now left.
      * intros j Hj Hj'. apply elem_of_app in Hj as [Hj|Hj].
        -- apply (Hd j Hj). rewrite fmap_cons. now right.
        -- apply list_elem_of_singleton in Hj. now subst j.
Qed.

Lemma indexed_entries :
  Forall (fun e : Coord * nat => region !! snd e = Some (fst e))
         (imap (fun idx tile => (tile, idx)) region) /\
  NoDup (snd <$> imap (fun idx (tile : Coord) => (tile, idx)) region).
Proof.
  split.
  - apply Forall_forall. intros e He.
    apply elem_of_lookup_imap_1 in He as (i & tile & -> & Ht). exact Ht.
  - apply NoDup_alt. intros i j x Hi Hj.
    rewrite list_lookup_fmap, list_lookup_imap in Hi, Hj.
    destruct (region !! i); [|discriminate].
    destruct (region !! j); [|discriminate].
    simpl in Hi, Hj. congruence.
Qed.

Lemma spacedSelection_picked (sortTiles : list (Coord * nat) -> list (Coord * nat))
    (numWaypoints : Z) :
  (forall l, sortTiles l ≡ₚ l) ->
  exists idxs,
    keeps (spacedSelection gridToScreen TILE_WIDTH TILE_HEIGHT numWaypoints
             (sortTiles (imap (fun idx tile => (tile, idx)) region)))
          idxs.
Proof.
  intros Hperm. unfold spacedSelection.
  destruct indexed_entries as [Hf Hnd].
  apply (fold_spacedStep_picked _ _ []).
  - split; [apply NoDup_nil_2|]. split; [|constructor].
    intros i Hi. now apply elem_of_nil in Hi.
  - apply Forall_take. now rewrite Hperm.
  - rewrite fmap_take. eapply sublist_NoDup; [|apply sublist_take].
    now rewrite Hperm.
  - intros i Hi. now apply elem_of_nil in Hi.
Qed.

(** The random fill keeps the invariant. *)
Lemma randomFill_picked (draws : list Q) (numWaypoints : Z)
    (wps : list TourWaypoint.t) (used : gset Z) (idxs : list nat)
    (ws : list TourWaypoint.t) :
  keeps (wps, used) idxs ->
  randomFill gridToScreen TILE_WIDTH TILE_HEIGHT draws region numWaypoints
    wps used = Returned ws ->
  exists idxs', NoDup idxs' /\ Forall2 picked ws idxs'.
Proof.
  revert wps used idxs.
  induction draws as [|rnd rest IH]; intros wps used idxs Hk; simpl.
  - destruct (_ && _); [discriminate|].
    intros [= <-]. destruct Hk as (Hnd & _ & Hf). eauto.
  - destruct (_ && _).
    2:{ intros [= <-]. destruct Hk as (Hnd & _ & Hf). eauto. }
    set (r := Math.floor (rnd * inject_Z (Z.of_nat (length region)))).
    case_bool_decide as Hu; [now apply (IH wps used idxs)|].
    destruct (Z.ltb_spec r 0) as [Hneg|Hpos]; simpl; [discriminate|].
    destruct (region !! Z.to_nat r) as [tile|] eqn:Et; simpl; [|discriminate].
    apply (IH _ _ (idxs ++ [Z.to_nat r])).
    replace r with (Z.of_nat (Z.to_nat r)) at 1 by lia.
    apply pickedInv_snoc; auto.
    intros Hin. apply Hu. destruct Hk as (_ & Hused & _).
    specialize (Hused _ Hin). simpl in Hused.
    now rewrite Z2Nat.id in Hused by lia.
Qed.

(** Waypoints made from distinct indices of a region without repetition
    lie on distinct tiles of the region. *)
Lemma picked_tiles (ws : list TourWaypoint.t) (idxs : list nat) :
  NoDup region -> NoDup idxs -> Forall2 picked ws idxs ->
  NoDup (tileOfWaypoint <$> ws) /\
  forall w, w ∈ ws ->
    tileOfWaypoint w ∈ region /\ w = waypointOf (tileOfWaypoint w).
Proof.
  intros Hr Hi Hf. split.
  - apply NoDup_alt. intros i j c Hci Hcj.
    rewrite list_lookup_fmap in Hci, Hcj.
    destruct (ws !! i) as [wi|] eqn:Ei; [|discriminate].
    destruct (ws !! j) as [wj|] eqn:Ej; [|discriminate].
    simpl in Hci, Hcj.
    destruct (Forall2_lookup_l _ _ _ _ _ Hf Ei) as (a & Ea & ta & Hta & Ewa).
    destruct (Forall2_lookup_l _ _ _ _ _ Hf Ej) as (b & Eb & tb & Htb & Ewb).
    subst wi wj. rewrite tileOfWaypoint_make in Hci, Hcj.
    injection Hci as ->. injection Hcj as ->.
    assert (a = b) by exact (NoDup_lookup region a b c Hr Hta Htb). subst b.
    exact (NoDup_lookup idxs i j a Hi Ea Eb).
  - intros w Hw. apply list_elem_of_lookup in Hw as [i Ei].
    destruct (Forall2_lookup_l _ _ _ _ _ Hf Ei) as (a & Ea & ta & Hta & ->).
    rewrite tileOfWaypoint_make. split; [|reflexivity].
    eapply list_elem_of_lookup_2; eauto.
Qed.

End TourTiles.

(** X18: the waypoints of a tour lie on distinct water tiles of the region
    of the start. When the randomised sort returns a permutation of its
    input, every waypoint that [generateTourWaypoints] returns is the
    waypoint made from its own tile, that tile is inside the square, is
    water and is connected to the start, and no two waypoints lie on the
    same tile. *)
Theorem waypoints_are_distinct_region_tiles
    (gridToScreen : Z -> Z -> Q -> Q -> Q * Q) (TILE_WIDTH TILE_HEIGHT : Q)
    (sortTiles : list (Coord * nat) -> list (Coord * nat))
    (grid : Grid) (gridSize startTileX startTileY : Z) (draws : list Q)
    (ws : list TourWaypoint.t) :
  (forall l, sortTiles l ≡ₚ l) ->
  generateTourWaypoints gridToScreen TILE_WIDTH TILE_HEIGHT sortTiles
    grid gridSize startTileX startTileY draws = Returned ws ->
  NoDup (tileOfWaypoint <$> ws) /\
  forall w, w ∈ ws ->
    w = makeWaypoint gridToScreen TILE_WIDTH TILE_HEIGHT (tileOfWaypoint w) /\
    inBounds gridSize (tileOfWaypoint w) /\
    isWaterAt grid (tileOfWaypoint w) /\
    connected grid gridSize (startTileX, startTileY) (tileOfWaypoint w).
Proof.
  intros Hperm. unfold generateTourWaypoints.
  destruct (findConnectedWaterTiles grid gridSize startTileX startTileY 200)
    as [region| |] eqn:Efill; simpl; try discriminate.
  apply floodFill_sound in Efill as [Hnd Hsound].
  unfold waypointsOfRegion.
  destruct (length region <? 3)%nat.
  - intros [= <-]. split; [apply NoDup_nil_2|].
    intros w Hw. now apply elem_of_nil in Hw.
  - intros Hfill.
    destruct (spacedSelection_picked gridToScreen TILE_WIDTH TILE_HEIGHT
                region sortTiles (numWaypointsFor (length region)) Hperm)
      as [idxs Hk].
    destruct (spacedSelection gridToScreen TILE_WIDTH TILE_HEIGHT
                (numWaypointsFor (length region))
                (sortTiles (imap (fun idx tile => (tile, idx)) region)))
      as [wps used] eqn:Esel.
    simpl in Hfill.
    destruct (randomFill_picked _ _ _ _ _ _ _ _ _ _ Hk Hfill)
      as (idxs' & Hnd' & Hf).
    destruct (picked_tiles _ _ _ _ ws idxs' Hnd Hnd' Hf) as [Hdist Htiles].
    split; [exact Hdist|].
    intros w Hw. destruct (Htiles w Hw) as [Hin Hmk].
    split; [exact Hmk|]. now apply Hsound.
Qed.

Lemma waypoints_are_distinct_region_tiles_witness :
  NoDup (tileOfWaypoint <$> tourOfWater5) /\
  forall w, w ∈ tourOfWater5 ->
    w = makeWaypoint flatScreen 2 1 (tileOfWaypoint w) /\
    inBounds 5 (tileOfWaypoint w) /\
    isWaterAt water5 (tileOfWaypoint w) /\
    connected water5 5 (2, 2) (tileOfWaypoint w).
Proof.
  apply (waypoints_are_distinct_region_tiles flatScreen 2 1 (fun l => l)
           water5 5 2 2 [0; 0; 1 # 2]%Q tourOfWater5).
  - intros l. reflexivity.
  - vm_compute. reflexivity.
Defined.

(** ** Docks *)

(** X19: [findMarinasAndPiers] lists exactly the docks. Whenever it returns,
    an entry [(x, y)] of the kind [kind] is in the list if and only if
    [(x, y)] lies in the square and [grid[y][x]] is a [marina_docks_small]
    (for a marina) or a [pier_large] (for a pier); no coordinate is listed
    twice. On a grid that covers the square it returns. *)
Theorem dock_finder_exact (grid : Grid) (gridSize : Z) :
  (covers grid gridSize ->
   exists r, findMarinasAndPiers grid gridSize = Returned r) /\
  (forall r, findMarinasAndPiers grid gridSize = Returned r ->
     NoDup (fst <$> r) /\
     forall x y kind,
       ((x, y), kind) ∈ r <->
       (0 <= x < gridSize /\ 0 <= y < gridSize) /\
       exists t, tileAt grid y x = Some t /\
                 btype (building t) = dockBuilding kind).
Proof.
  split.
  - intros Hcov. unfold findMarinasAndPiers.
    apply guarded_returns. intros _. now apply scanGrid_returns.
  - intros r Hr.
    set (f := fun (c : Coord) (t : Tile) =>
                if String.eqb (btype (building t)) "marina_docks_small"
                then Some (c, dock_marina)
                else if String.eqb (btype (building t)) "pier_large"
                then Some (c, dock_pier) else None).
    assert (Er : r = collect grid gridSize f).
    { eapply scanGrid_collect; [|exact Hr].
      intros x y t a. unfold f. cbv zeta.
      destruct (String.eqb _ "marina_docks_small"); [reflexivity|].
      destruct (String.eqb _ "pier_large"); [reflexivity|].
      simpl. now rewrite app_nil_r. }
    subst r. split.
    + apply NoDup_collect_coords. intros c t a. unfold f.
      destruct (String.eqb _ "marina_docks_small"); [now intros [= <-]|].
      destruct (String.eqb _ "pier_large"); [now intros [= <-]|discriminate].
    + intros x y kind. rewrite elem_of_collect. unfold f. split.
      * intros (c & t & Hc & Et & Hf).
        destruct (String.eqb_spec (btype (building t)) "marina_docks_small")
          as [E1|E1].
        { injection Hf as -> <-. split; [exact Hc|]. eauto. }
        destruct (String.eqb_spec (btype (building t)) "pier_large")
          as [E2|E2]; [|discriminate].
        injection Hf as -> <-. split; [exact Hc|]. eauto.
      * intros (Hc & t & Et & Ek).
        exists (x, y), t. split; [exact Hc|]. split; [exact Et|].
        rewrite Ek. now destruct kind.
Qed.

Lemma dock_finder_exact_witness :
  exists r, findMarinasAndPiers harbourGrid 3 = Returned r.
Proof.
  apply (proj1 (dock_finder_exact harbourGrid 3)). exact covers_harbourGrid.
Defined.

Example docks_of_the_harbour :
  findMarinasAndPiers harbourGrid 3 = Returned [((1, 1), dock_marina)].
Proof. reflexivity. Qed.

(** ** The integration layer *)

Lemma update_frame_fields (cfg : Config) (p p' : Pedestrian) (grid : Grid)
    (dt gameTime now rnd1 rnd2 : Q) :
  updateAIPedestrianShopping cfg p grid dt gameTime now rnd1 rnd2 = Returned p' ->
  tileX p' = tileX p /\ tileY p' = tileY p /\
  isAI p' = isAI p /\ aiType p' = aiType p /\
  activityOffsetX p' = activityOffsetX p /\
  activityOffsetY p' = activityOffsetY p.
Proof.
  intros H. apply update_cases in H.
  destruct H as [[_ ->]|[_ [(pr & Hs & _ & [[_ ->]|[_ ->]])|[_ [[_ H]|[_ ->]]]]]];
    try (repeat split; reflexivity).
  - unfold completeShoppingActivity. destruct (negb _); repeat split; reflexivity.
  - unfold startShoppingActivity in H.
    destruct (findNearestShop cfg _ grid); simpl in H; try discriminate.
    injection H as <-. repeat split; reflexivity.
Qed.

Lemma updateOne_cases (cfg : Config) (sin cos : Q -> Q) (PI : Q)
    (grid : Grid) (dt gameTime : Q) (d : FrameDraws) (p p' : Pedestrian) :
  updateOne cfg sin cos PI grid dt gameTime d p = Returned p' ->
  (isAI p = false /\ p' = p) \/
  (isAI p = true /\
   exists u,
     updateAIPedestrianShopping cfg p grid dt gameTime
       (frameNow d) (frameRnd1 d) (frameRnd2 d) = Returned u /\
     (p' = u \/
      exists off, isShopping u = true /\ p' = withOffset u off)).
Proof.
  unfold updateOne. destruct (isAI p); simpl; [|intros [= <-]; now left].
  destruct (updateAIPedestrianShopping cfg p grid dt gameTime
              (frameNow d) (frameRnd1 d) (frameRnd2 d)) as [u| |] eqn:Eu;
    simpl; try discriminate.
  intros H. right. split; [reflexivity|]. exists u. split; [reflexivity|].
  destruct (shoppingActivity u); [|injection H as <-; now left].
  destruct (shoppingProgress u); [|injection H as <-; now left].
  destruct (isShopping u) eqn:Es; injection H as <-; [right|now left].
  eauto.
Qed.

Lemma updateOne_keeps (cfg : Config) (sin cos : Q -> Q) (PI : Q)
    (grid : Grid) (dt gameTime : Q) (d : FrameDraws)
    (w : GamePedestrian.t) (p' : Pedestrian) :
  updateOne cfg sin cos PI grid dt gameTime d (GamePedestrian.fields w)
  = Returned p' ->
  frameKeeps w (GamePedestrian.mk (GamePedestrian.id w)
                  (GamePedestrian.state w) p').
Proof.
  intros H. apply updateOne_cases in H. unfold frameKeeps. simpl.
  split; [reflexivity|]. split; [reflexivity|].
  destruct H as [[Hai ->]|(Hai & u & Hu & Hp)].
  - repeat split; try reflexivity. intros _. now destruct w.
  - pose proof (update_conserves_money _ _ _ _ _ _ _ _ _ Hu) as Hm.
    pose proof (update_frame_fields _ _ _ _ _ _ _ _ _ Hu)
      as (Hx & Hy & Hai' & Hty & Hox & Hoy).
    destruct Hp as [->|(off & Hs & ->)].
    + repeat split; auto. intros E. congruence.
    + unfold budgetOf, spentOf in *. simpl.
      repeat split; auto; try congruence.
Qed.

Lemma updateOne_returns (cfg : Config) (sin cos : Q -> Q) (PI : Q)
    (grid : Grid) (dt gameTime : Q) (d : FrameDraws) (p : Pedestrian) :
  rectangular grid ->
  exists p', updateOne cfg sin cos PI grid dt gameTime d p = Returned p'.
Proof.
  intros Hrect. unfold updateOne. destruct (isAI p); simpl; [|eauto].
  destruct (update_returns cfg p grid dt gameTime (frameNow d) (frameRnd1 d)
              (frameRnd2 d) Hrect) as [u ->].
  simpl. destruct (shoppingActivity u); [|eauto].
  destruct (shoppingProgress u); [|eauto].
  destruct (isShopping u); eauto.
Qed.

Lemma updateFrom_keeps (cfg : Config) (sin cos : Q -> Q) (PI : Q)
    (grid : Grid) (dt gameTime : Q) (draws : nat -> FrameDraws)
    (ps : list GamePedestrian.t) :
  forall i ps',
    updateFrom cfg sin cos PI grid dt gameTime draws i ps = Returned ps' ->
    Forall2 frameKeeps ps ps'.
Proof.
  induction ps as [|w rest IH]; intros i ps'; simpl.
  - intros [= <-]. constructor.
  - destruct (updateOne cfg sin cos PI grid dt gameTime (draws i)
                (GamePedestrian.fields w)) as [p'| |] eqn:E1; simpl;
      try discriminate.
    destruct (updateFrom cfg sin cos PI grid dt gameTime draws (S i) rest)
      as [rest'| |] eqn:E2; simpl; try discriminate.
    intros [= <-]. constructor.
    + now apply (updateOne_keeps cfg sin cos PI grid dt gameTime (draws i)).
    + now apply (IH (S i)).
Qed.

Lemma updateFrom_returns (cfg : Config) (sin cos : Q -> Q) (PI : Q)
    (grid : Grid) (dt gameTime : Q) (draws : nat -> FrameDraws)
    (ps : list GamePedestrian.t) :
  rectangular grid ->
  forall i, exists ps',
    updateFrom cfg sin cos PI grid dt gameTime draws i ps = Returned ps'.
Proof.
  intros Hrect. induction ps as [|w rest IH]; intros i; simpl; [eauto|].
  destruct (updateOne_returns cfg sin cos PI grid dt gameTime (draws i)
              (GamePedestrian.fields w) Hrect) as [p' ->].
  destruct (IH (S i)) as [rest' ->]. simpl. eauto.
Qed.

(** X20: one frame of [updateAIPedestrians] keeps the crowd. Whenever it
    returns, the new list has the pedestrians of the old one in the same
    order, each with its identity, state, tile and archetype and with the
    same sum of budget and spend; a pedestrian that is not an AI agent is
    returned as it was; and the animation offsets of a pedestrian that is
    not shopping after the frame are those it had before, so the offsets
    of the last shopping frame stay when an episode ends. On a rectangular
    grid it returns. *)
Theorem frame_keeps_the_crowd (cfg : Config) (sin cos : Q -> Q) (PI : Q)
    (pedestrians : list GamePedestrian.t) (grid : Grid)
    (deltaTime gameTime : Q) (draws : nat -> FrameDraws) :
  (rectangular grid ->
   exists updated,
     updateAIPedestrians cfg sin cos PI pedestrians grid deltaTime gameTime
       draws = Returned updated) /\
  (forall updated,
     updateAIPedestrians cfg sin cos PI pedestrians grid deltaTime gameTime
       draws = Returned updated ->
     length updated = length pedestrians /\
     Forall2 frameKeeps pedestrians updated).
Proof.
  unfold updateAIPedestrians. split.
  - intros Hrect. now apply updateFrom_returns.
  - intros updated H. apply updateFrom_keeps in H.
    split; [symmetry; eapply Forall2_length; eauto|exact H].
Qed.

Lemma rectangular_single (row : list Tile) : rectangular [row].
Proof.
  intros r r0 H0 Hr. simpl in H0. injection H0 as <-.
  apply list_elem_of_singleton in Hr. now subst r.
Qed.

Lemma frame_keeps_the_crowd_witness :
  exists updated,
    updateAIPedestrians AI_PEDESTRIAN_CONFIG oneWave oneWave 1 smallCrowd
      shopNearbyGrid 5 0 sameDraws = Returned updated.
Proof.
  apply (proj1 (frame_keeps_the_crowd AI_PEDESTRIAN_CONFIG oneWave oneWave 1
                  smallCrowd shopNearbyGrid 5 0 sameDraws)).
  apply rectangular_single.
Defined.

(** Two frames of 5 seconds on the small crowd: the shopper sways by 5
    during the first frame and ends its episode in the second, where the
    offset of 5 stays. *)
Example offsets_outlive_the_episode :
  exists once twice w,
    updateAIPedestrians AI_PEDESTRIAN_CONFIG oneWave oneWave 1 smallCrowd
      shopNearbyGrid 5 0 sameDraws = Returned once /\
    updateAIPedestrians AI_PEDESTRIAN_CONFIG oneWave oneWave 1 once
      shopNearbyGrid 5 0 sameDraws = Returned twice /\
    twice !! 0%nat = Some w /\
    isShopping (GamePedestrian.fields w) = false /\
    (activityOffsetX (GamePedestrian.fields w) == 5)%Q.
Proof.
  eexists. eexists. eexists.
  split; [vm_compute; reflexivity|].
  split; [vm_compute; reflexivity|].
  split; [reflexivity|]. split; [reflexivity|]. vm_compute. reflexivity.
Qed.

(** *** Statistics of the crowd *)

Lemma length_filter_le {A : Type} (f : A -> bool) (l : list A) :
  (length (List.filter f l) <= length l)%nat.
Proof.
  induction l as [|x l IH]; simpl; [lia|]. destruct (f x); simpl; lia.
Qed.

Lemma length_filter_disjoint {A : Type} (f g : A -> bool) (l : list A) :
  (forall x, f x = true -> g x = false) ->
  (length (List.filter f l) + length (List.filter g l) <= length l)%nat.
Proof.
  intros Hfg. induction l as [|x l IH]; simpl; [lia|].
  destruct (f x) eqn:Ef; [rewrite (Hfg x Ef)|destruct (g x)]; simpl; lia.
Qed.

Lemma length_filter_split {A : Type} (f : A -> bool) (l : list A) :
  (length (List.filter (fun x => negb (f x)) l) + length (List.filter f l)
   = length l)%nat.
Proof.
  induction l as [|x l IH]; simpl; [lia|]. destruct (f x); simpl; lia.
Qed.

Lemma filter_of_cleared {A : Type} (f : A -> bool) (l : list A) :
  List.filter f (List.filter (fun x => negb (f x)) l) = [].
Proof.
  induction l as [|x l IH]; simpl; [reflexivity|].
  destruct (f x) eqn:Ef; simpl; [exact IH|]. now rewrite Ef.
Qed.

Lemma sum_bounds {A : Type} (g : A -> Q) (l : list A) :
  (forall x, In x l -> (0 < g x)%Q /\ (g x <= 1)%Q) ->
  forall acc,
    (acc <= fold_left (fun sum x => sum + g x) l acc)%Q /\
    (l <> [] -> (acc < fold_left (fun sum x => sum + g x) l acc)%Q) /\
    (fold_left (fun sum x => sum + g x) l acc
     <= acc + inject_Z (Z.of_nat (length l)))%Q.
Proof.
  induction l as [|x l IH]; intros Hg acc.
  - simpl. split; [lra|]. split; [congruence|].
    change (inject_Z (Z.of_nat 0)) with 0%Q. lra.
  - change (fold_left (fun sum x => sum + g x) (x :: l) acc)%Q
      with (fold_left (fun sum x => sum + g x) l (acc + g x))%Q.
    destruct (Hg x (or_introl eq_refl)) as [Hpos Hle].
    destruct (IH (fun y Hy => Hg y (or_intror Hy)) (acc + g x)%Q)
      as (H1 & _ & H3).
    change (length (x :: l)) with (S (length l)).
    pose proof (inject_Z_succ (length l)) as Hs.
    split; [lra|]. split; [intros _; lra|lra].
Qed.

Lemma sum_nonneg {A : Type} (g : A -> Q) (l : list A) :
  (forall x, In x l -> (0 <= g x)%Q) ->
  forall acc, (acc <= fold_left (fun sum x => sum + g x) l acc)%Q.
Proof.
  induction l as [|x l IH]; intros Hg acc; simpl; [lra|].
  specialize (IH (fun y Hy => Hg y (or_intror Hy)) (acc + g x)%Q).
  specialize (Hg x (or_introl eq_refl)). lra.
Qed.

Lemma satisfaction_term (p : Pedestrian) :
  satisfactionWithin p ->
  (0 < orElse (satisfactionLevel p) (5 # 10))%Q /\
  (orElse (satisfactionLevel p) (5 # 10) <= 1)%Q.
Proof.
  intros Hw. unfold orElse. destruct (satisfactionLevel p) as [s|] eqn:Es.
  - destruct (Hw s Es) as [H0 H1].
    destruct (Qeq_bool s 0) eqn:E; [lra|].
    apply Qeq_bool_false in E. split; [|exact H1].
    destruct (Qlt_le_dec 0 s) as [Hlt|Hle]; [exact Hlt|].
    exfalso. apply E. lra.
  - lra.
Qed.

(** X21: what [calculateAIPedestrianStats] reports. The total counts the AI
    agents of the crowd and nothing else; the agents that are shopping,
    and those that are walking or idle, are at most that many; clearing
    the AI agents with [clearAIPedestrians] removes exactly [totalCount]
    pedestrians and leaves a crowd whose statistics are all zero. When
    every satisfaction level lies in [0,1] and there is an AI agent, the
    average satisfaction is positive and at most 1: it is never 0,
    because a level of 0 is read as 0.5. When no spend is negative the
    total spend is not negative. *)
Theorem crowd_statistics (pedestrians : list GamePedestrian.t) :
  let stats := calculateAIPedestrianStats pedestrians in
  AIStats.totalCount stats = length (List.filter isAIPedestrian pedestrians) /\
  (AIStats.shoppingCount stats <= AIStats.totalCount stats)%nat /\
  (AIStats.walkingCount stats + AIStats.idleCount stats
   <= AIStats.totalCount stats)%nat /\
  (length (clearAIPedestrians pedestrians) + AIStats.totalCount stats
   = length pedestrians)%nat /\
  calculateAIPedestrianStats (clearAIPedestrians pedestrians) = noStats /\
  (AIStats.totalCount stats = 0%nat -> stats = noStats) /\
  (Forall (fun p => satisfactionWithin (GamePedestrian.fields p)) pedestrians ->
   AIStats.totalCount stats <> 0%nat ->
   (0 < AIStats.averageSatisfaction stats)%Q /\
   (AIStats.averageSatisfaction stats <= 1)%Q) /\
  (Forall (fun p => (0 <= spentOf (GamePedestrian.fields p))%Q) pedestrians ->
   (0 <= AIStats.totalMoneySpent stats)%Q).
Proof.
  intros stats.
  assert (Hclear : calculateAIPedestrianStats (clearAIPedestrians pedestrians)
                   = noStats).
  { unfold calculateAIPedestrianStats, clearAIPedestrians.
    now rewrite filter_of_cleared. }
  assert (Hsplit : (length (clearAIPedestrians pedestrians)
                    + length (List.filter isAIPedestrian pedestrians)
                    = length pedestrians)%nat).
  { apply length_filter_split. }
  subst stats. unfold calculateAIPedestrianStats.
  set (ai := List.filter isAIPedestrian pedestrians) in *.
  assert (Hin : forall p, In p ai -> In p pedestrians).
  { intros p Hp. now apply filter_In in Hp. }
  destruct (Nat.eqb_spec (length ai) 0) as [E0|Hne]; cbn [AIStats.totalCount
    AIStats.shoppingCount AIStats.walkingCount AIStats.idleCount
    AIStats.averageSatisfaction AIStats.totalMoneySpent].
  - rewrite E0 in Hsplit.
    repeat split; auto; try lia; try congruence; try lra.
  - split; [reflexivity|]. split; [apply length_filter_le|].
    split.
    { apply length_filter_disjoint. intros p Ew.
      apply String.eqb_eq in Ew. rewrite Ew. reflexivity. }
    split; [exact Hsplit|]. split; [exact Hclear|].
    split; [intros E; contradiction|]. split.
    + intros Hall _.
      assert (Hterm : forall p, In p ai ->
                (0 < orElse (satisfactionLevel (GamePedestrian.fields p)) (5 # 10))%Q /\
                (orElse (satisfactionLevel (GamePedestrian.fields p)) (5 # 10) <= 1)%Q).
      { intros p Hp. apply satisfaction_term.
        rewrite Forall_forall in Hall. apply Hall.
        apply list_elem_of_In. auto. }
      destruct (sum_bounds
                  (fun p => orElse (satisfactionLevel (GamePedestrian.fields p))
                                   (5 # 10)) ai Hterm 0%Q)
        as (_ & Hpos & Hle).
      assert (Hnil : ai <> []) by (intros E; rewrite E in Hne; now apply Hne).
      specialize (Hpos Hnil).
      assert (Hn : (0 < inject_Z (Z.of_nat (length ai)))%Q).
      { change 0%Q with (inject_Z 0). rewrite <- Zlt_Qlt. lia. }
      split.
      * apply Qlt_shift_div_l; [exact Hn|]. lra.
      * apply Qle_shift_div_r; [exact Hn|]. lra.
    + intros Hall. apply sum_nonneg. intros p Hp.
      rewrite Forall_forall in Hall. apply (Hall p).
      apply list_elem_of_In. auto.
Qed.

Lemma crowd_statistics_witness :
  (0 < AIStats.averageSatisfaction (calculateAIPedestrianStats smallCrowd))%Q /\
  (AIStats.averageSatisfaction (calculateAIPedestrianStats smallCrowd) <= 1)%Q.
Proof.
  apply (proj1 (proj2 (proj2 (proj2 (proj2 (proj2 (proj2
           (crowd_statistics smallCrowd)))))))).
  - constructor; [|constructor; [|constructor]]; intros s E; simpl in E;
      try discriminate.
    injection E as <-. split; vm_compute; discriminate.
  - vm_compute. discriminate.
Defined.

(** A crowd whose only agent has the satisfaction 0 reports the average
    0.5. *)
Example unhappy_crowd_reports_a_half :
  (AIStats.averageSatisfaction
     (calculateAIPedestrianStats [GamePedestrian.mk 1 "idle" unhappyLeisurer])
   == 1 # 2)%Q.
Proof. vm_compute. reflexivity. Qed.

(** *** Spawning *)

Lemma foldr_max_bound (l : list Z) :
  0 <= foldr Z.max 0 l /\ forall v, v ∈ l -> v <= foldr Z.max 0 l.
Proof.
  induction l as [|x l [IH0 IH]]; simpl.
  - split; [lia|]. intros v Hv. now apply elem_of_nil in Hv.
  - split; [lia|]. intros v Hv. apply elem_of_cons in Hv as [->|Hv]; [lia|].
    specialize (IH v Hv). lia.
Qed.

Lemma nextId_fresh (pedestrians : list GamePedestrian.t) :
  1 <= nextId pedestrians /\
  forall v, v ∈ pedestrians -> GamePedestrian.id v < nextId pedestrians.
Proof.
  unfold nextId.
  destruct (foldr_max_bound
              (0 :: map GamePedestrian.id pedestrians ++ [0])) as [H0 Hb].
  split; [lia|]. intros v Hv.
  assert (GamePedestrian.id v
          ∈ 0 :: map GamePedestrian.id pedestrians ++ [0]).
  { right. apply elem_of_app. left. now apply (list_elem_of_fmap_2 GamePedestrian.id). }
  specialize (Hb _ H). lia.
Qed.

(** X22: [spawnAIPedestrian] gives a fresh identity below the cap. It
    returns nothing exactly when the crowd, AI agents and others together,
    has [maxAIPedestrians] members or more. The pedestrian it returns has
    an identity of at least 1 that is greater than every identity of the
    crowd, so a crowd without repeated identities stays so when it is
    added; it is walking, is an AI agent of the requested archetype on
    the requested tile and is not shopping. The spawn rate written by
    [setAIPedestrianSpawnRate] lies in [0, 0.1] and has no effect on the
    spawn. *)
Theorem spawn_gives_fresh_identity (cfg : Config)
    (pedestrians : list GamePedestrian.t) (x y : Z) (type : string)
    (rnd rate : Q) :
  (spawnAIPedestrian cfg pedestrians x y type rnd = None <->
   maxAIPedestrians cfg <= Z.of_nat (length pedestrians)) /\
  (forall w,
     spawnAIPedestrian cfg pedestrians x y type rnd = Some w ->
     1 <= GamePedestrian.id w /\
     (forall v, v ∈ pedestrians -> GamePedestrian.id v < GamePedestrian.id w) /\
     (NoDup (map GamePedestrian.id pedestrians) ->
      NoDup (map GamePedestrian.id (pedestrians ++ [w]))) /\
     GamePedestrian.state w = "walking"%string /\
     isAI (GamePedestrian.fields w) = true /\
     aiType (GamePedestrian.fields w) = Some type /\
     tileX (GamePedestrian.fields w) = x /\
     tileY (GamePedestrian.fields w) = y /\
     isShopping (GamePedestrian.fields w) = false) /\
  (0 <= spawnRate (setAIPedestrianSpawnRate cfg rate))%Q /\
  (spawnRate (setAIPedestrianSpawnRate cfg rate) <= 1 # 10)%Q /\
  spawnAIPedestrian (setAIPedestrianSpawnRate cfg rate) pedestrians x y type rnd
  = spawnAIPedestrian cfg pedestrians x y type rnd.
Proof.
  unfold spawnAIPedestrian.
  split; [|split; [|split; [|split]]].
  - destruct (Z.leb_spec (maxAIPedestrians cfg) (Z.of_nat (length pedestrians)));
      split; auto; try discriminate. lia.
  - intros w. destruct (_ <=? _); [discriminate|]. intros [= <-]. simpl.
    destruct (nextId_fresh pedestrians) as [H1 Hfresh].
    split; [exact H1|]. split; [exact Hfresh|].
    split; [|repeat split; reflexivity].
    intros Hnd. rewrite map_app. simpl. apply NoDup_app.
    split; [exact Hnd|]. split; [|apply NoDup_singleton].
    intros i Hi Hi'. apply list_elem_of_singleton in Hi'. subst i.
    apply list_elem_of_fmap in Hi as (v & Ev & Hv).
    specialize (Hfresh v Hv). lia.
  - simpl. unfold Math.max. apply Q.le_max_l.
  - simpl. unfold Math.max, Math.min.
    apply Q.max_lub; [lra|apply Q.le_min_l].
  - reflexivity.
Qed.

Lemma spawn_gives_fresh_identity_witness :
  spawnAIPedestrian AI_PEDESTRIAN_CONFIG smallCrowd 0 0 AIPedestrianType.SHOPPER
    (1 # 2) = None <->
  maxAIPedestrians AI_PEDESTRIAN_CONFIG <= Z.of_nat (length smallCrowd).
Proof.
  apply (proj1 (spawn_gives_fresh_identity AI_PEDESTRIAN_CONFIG smallCrowd 0 0
                  AIPedestrianType.SHOPPER (1 # 2) (1 # 2))).
Defined.

(** The third member of the small crowd gets the identity 3. *)
Example spawn_into_the_small_crowd :
  GamePedestrian.id
    <$> spawnAIPedestrian AI_PEDESTRIAN_CONFIG smallCrowd 2 0
          AIPedestrianType.TOURIST (1 # 2)
  = Some 3.
Proof. reflexivity. Qed.

(** ** The cache of the firework finder *)

Lemma firework_run (cache : FireworkCache) (grid : Grid) (gridSize : Z)
    (ref : nat) (types : list BuildingType) :
  snd (findFireworkBuildings cache grid gridSize ref types)
  = guarded gridSize []
      (scanGrid grid gridSize
         (fun x y tile buildings =>
            if includes (cachedFireworkTypesSet (refreshCache cache ref types))
                        (btype (building tile))
            then buildings ++ [((x, y), btype (building tile))]
            else buildings)
         []).
Proof.
  unfold findFireworkBuildings, guarded. now destruct (gridSize <=? 0).
Qed.

Lemma sameArray_refresh (cache : FireworkCache) (ref : nat)
    (types : list BuildingType) :
  sameArray (refreshCache cache ref types) ref = true.
Proof.
  unfold refreshCache. destruct (sameArray cache ref) eqn:E; [exact E|].
  unfold sameArray. simpl. apply Nat.eqb_refl.
Qed.

(** X23: the cache of [findFireworkBuildings] is keyed by the reference of
    the array, not by its contents. Whenever the finder returns, its list
    has exactly the tiles of the square whose type is in the cached set,
    no coordinate twice; the cached set is the contents of the array
    argument only when the argument is another array than the cached
    one. So with the array that is already cached the contents passed are
    not read at all, and after any call on a square of positive size the
    array of that call is the cached one: a later change of its contents
    goes unnoticed. With a size of 0 or less the cache is left as it is. *)
Theorem firework_cache_keyed_by_reference (cache : FireworkCache) (grid : Grid)
    (gridSize : Z) (ref : nat) (types : list BuildingType) :
  let run := findFireworkBuildings cache grid gridSize ref types in
  (gridSize <= 0 -> run = (cache, Returned [])) /\
  (0 < gridSize ->
   fst run = refreshCache cache ref types /\ sameArray (fst run) ref = true) /\
  (forall r, snd run = Returned r ->
     NoDup (fst <$> r) /\
     forall x y type,
       ((x, y), type) ∈ r <->
       (0 <= x < gridSize /\ 0 <= y < gridSize) /\
       exists t, tileAt grid y x = Some t /\
                 btype (building t) = type /\
                 includes (cachedFireworkTypesSet (refreshCache cache ref types))
                          type = true) /\
  (sameArray cache ref = false ->
   cachedFireworkTypesSet (refreshCache cache ref types) = types) /\
  (sameArray cache ref = true ->
   forall types', findFireworkBuildings cache grid gridSize ref types' = run) /\
  (covers grid gridSize -> exists r, snd run = Returned r).
Proof.
  intros run. subst run.
  split; [|split; [|split; [|split; [|split]]]].
  - intros Hle. unfold findFireworkBuildings.
    destruct (Z.leb_spec gridSize 0); [reflexivity|lia].
  - intros Hlt. unfold findFireworkBuildings.
    destruct (Z.leb_spec gridSize 0); [lia|]. simpl.
    split; [reflexivity|apply sameArray_refresh].
  - intros r Hr. rewrite firework_run in Hr.
    set (S := cachedFireworkTypesSet (refreshCache cache ref types)) in *.
    set (f := fun (c : Coord) (t : Tile) =>
                if includes S (btype (building t))
                then Some (c, btype (building t)) else None).
    assert (Er : r = collect grid gridSize f).
    { eapply scanGrid_collect; [|exact Hr].
      intros x y t a. unfold f.
      destruct (includes S _); [reflexivity|simpl; now rewrite app_nil_r]. }
    subst r. split.
    + apply NoDup_collect_coords. intros c t a. unfold f.
      destruct (includes S _); [|discriminate]. now intros [= <-].
    + intros x y type. rewrite elem_of_collect. unfold f. split.
      * intros (c & t & Hc & Et & Hf).
        destruct (includes S (btype (building t))) eqn:Ei; [|discriminate].
        injection Hf as -> <-. split; [exact Hc|]. eauto.
      * intros (Hc & t & Et & <- & Ei).
        exists (x, y), t. split; [exact Hc|]. split; [exact Et|].
        now rewrite Ei.
  - intros E. unfold refreshCache. now rewrite E.
  - intros E types'. unfold findFireworkBuildings, refreshCache.
    now rewrite E.
  - intros Hcov. rewrite firework_run.
    apply guarded_returns. intros _. now apply scanGrid_returns.
Qed.

Lemma firework_cache_keyed_by_reference_witness :
  fst (findFireworkBuildings emptyFireworkCache townGrid 2 7 ["mall"%string])
  = refreshCache emptyFireworkCache 7 ["mall"%string] /\
  sameArray
    (fst (findFireworkBuildings emptyFireworkCache townGrid 2 7 ["mall"%string]))
    7 = true.
Proof.
  apply (proj1 (proj2 (firework_cache_keyed_by_reference emptyFireworkCache
                         townGrid 2 7 ["mall"%string]))).
  lia.
Defined.

(** The array 7 holds [mall] at the first call and [airport] at the
    second: the second call still lists the mall. With another array that
    holds [airport] the airport is listed. *)
Example stale_firework_types :
  let first := findFireworkBuildings emptyFireworkCache townGrid 2 7
                 ["mall"%string] in
  snd (findFireworkBuildings (fst first) townGrid 2 7 ["airport"%string])
  = Returned [((1, 0), "mall"%string)] /\
  snd (findFireworkBuildings (fst first) townGrid 2 8 ["airport"%string])
  = Returned [((0, 1), "airport"%string)].
Proof. split; reflexivity. Qed.

(** ** Screen positions over water *)

Lemma floor_succ (a : Q) : Math.floor (a + 1) = Math.floor a + 1.
Proof.
  unfold Math.floor.
  pose proof (Qfloor_le a) as Hlo. pose proof (Qlt_floor a) as Hhi.
  pose proof (Qfloor_le (a + 1)) as Hlo'. pose proof (Qlt_floor (a + 1)) as Hhi'.
  rewrite inject_Z_plus in Hhi, Hhi'. change (inject_Z 1) with 1%Q in *.
  assert (H1 : (inject_Z (Qfloor (a + 1)) < inject_Z (Qfloor a + 1 + 1))%Q).
  { rewrite !inject_Z_plus. change (inject_Z 1) with 1%Q. lra. }
  assert (H2 : (inject_Z (Qfloor a + 1) < inject_Z (Qfloor (a + 1) + 1))%Q).
  { rewrite !inject_Z_plus. change (inject_Z 1) with 1%Q. lra. }
  rewrite <- Zlt_Qlt in H1, H2. lia.
Qed.

Lemma floor_comp (a b : Q) : (a == b)%Q -> Math.floor a = Math.floor b.
Proof. unfold Math.floor. apply Qfloor_comp. Qed.

(** X24: what [isOverWater] answers. It answers yes exactly when the tile
    that it computes from the screen position lies in the square and is a
    water tile, and on a grid that covers the square it answers. With
    tile dimensions other than 0, the screen position of the waypoint made
    from a tile is converted to the tile one step further in x than the
    tile to which the screen position of the tile itself is converted. *)
Theorem over_water_exact (TILE_WIDTH TILE_HEIGHT : Q) (grid : Grid)
    (gridSize : Z) (screenX screenY : Q) :
  let tile := tileUnder TILE_WIDTH TILE_HEIGHT screenX screenY in
  (covers grid gridSize ->
   exists b, isOverWater TILE_WIDTH TILE_HEIGHT grid gridSize screenX screenY
             = Returned b) /\
  (forall b,
     isOverWater TILE_WIDTH TILE_HEIGHT grid gridSize screenX screenY
     = Returned b ->
     (b = true <-> inBounds gridSize tile /\ isWaterAt grid tile)) /\
  (~ (TILE_WIDTH == 0)%Q -> ~ (TILE_HEIGHT == 0)%Q ->
   forall (gridToScreen : Z -> Z -> Q -> Q -> Q * Q) (t : Coord),
     let s := gridToScreen (fst t) (snd t) 0%Q 0%Q in
     let w := makeWaypoint gridToScreen TILE_WIDTH TILE_HEIGHT t in
     tileUnder TILE_WIDTH TILE_HEIGHT
       (TourWaypoint.screenX w) (TourWaypoint.screenY w)
     = (fst (tileUnder TILE_WIDTH TILE_HEIGHT (fst s) (snd s)) + 1,
        snd (tileUnder TILE_WIDTH TILE_HEIGHT (fst s) (snd s)))).
Proof.
  intros tile. unfold isOverWater. fold tile.
  destruct tile as [tx ty] eqn:Etile. cbn [fst snd].
  split; [|split].
  - intros Hcov. apply guarded_returns. intros _.
    destruct ((tx <? 0) || (gridSize <=? tx) || (ty <? 0) || (gridSize <=? ty))
      eqn:Eb; [eauto|].
    repeat (apply orb_false_iff in Eb as [Eb ?]).
    destruct (Hcov ty tx) as [t Et]; [lia|lia|]. rewrite Et. simpl. eauto.
  - intros b.
    destruct (guarded_cases gridSize false
                (if (tx <? 0) || (gridSize <=? tx) || (ty <? 0) || (gridSize <=? ty)
                 then Returned false
                 else tile ← readOr (tileAt grid ty tx);
                      Returned (String.eqb (btype (building tile)) "water")))
      as [[Hle ->]|[Hlt ->]].
    + intros [= <-]. split; [discriminate|].
      intros [[Hx _] _]. simpl in Hx. lia.
    + destruct ((tx <? 0) || (gridSize <=? tx) || (ty <? 0) || (gridSize <=? ty))
        eqn:Eb.
      * intros [= <-]. split; [discriminate|].
        intros [[Hx Hy] _]. simpl in Hx, Hy.
        assert ((tx <? 0) || (gridSize <=? tx) || (ty <? 0) || (gridSize <=? ty)
                = false); [|congruence].
        repeat (apply orb_false_iff; split); lia.
      * repeat (apply orb_false_iff in Eb as [Eb ?]).
        destruct (tileAt grid ty tx) as [t|] eqn:Et; simpl; [|discriminate].
        intros [= <-].
        pose proof (isWaterAt_tile grid tx ty t Et) as Hw. split.
        -- intros E. split; [unfold inBounds; simpl; lia|now apply Hw].
        -- intros [_ Hwat]. now apply Hw.
  - intros HW HH gridToScreen t. unfold makeWaypoint.
    set (s := gridToScreen (fst t) (snd t) 0%Q 0%Q).
    cbn [TourWaypoint.screenX TourWaypoint.screenY]. unfold tileUnder.
    cbn [fst snd]. f_equal.
    + rewrite <- floor_succ. apply floor_comp. field. auto.
    + apply floor_comp. field. auto.
Qed.

Lemma over_water_exact_witness :
  exists b, isOverWater 2 1 water5 5 0 0 = Returned b.
Proof.
  apply (proj1 (over_water_exact 2 1 water5 5 0 0)). exact covers_water5.
Defined.
